(** * Signaling server: connection registry and request-correlation engine

    A shallow embedding of the relay hub of the screen-mirror signaling
    server (the Express + Socket.IO program with the [devices] and
    [pendingRequests] maps, the periodic cleanup functions, the
    [/api/ftp/*] endpoints and the socket event handlers), followed by the
    properties of its registry, correlation table, streaming relay and
    broadcast fan-out. *)

From Stdlib Require Import ZArith List String Ascii Bool Arith Lia.
From Stdlib Require Import Permutation Sorted DecimalString.
Import ListNotations.

Set Implicit Arguments.
Local Open Scope string_scope.
Local Open Scope list_scope.
Local Open Scope Z_scope.

(* ================================================================== *)
(** ** JavaScript [Map]: insertion-ordered, one entry per key *)
(* ================================================================== *)

(** Keys of a [Map] are compared with a decidable equality. *)
Class EqKey (K : Type) := {
  key_eqb : K -> K -> bool;
  key_eqb_spec : forall a b, reflect (a = b) (key_eqb a b)
}.

#[export] Instance string_EqKey : EqKey string :=
  {| key_eqb := String.eqb; key_eqb_spec := String.eqb_spec |}.

#[export] Instance nat_EqKey : EqKey nat :=
  {| key_eqb := Nat.eqb; key_eqb_spec := Nat.eqb_spec |}.

(** A [Map] iterates in insertion order; [set] on a key already present
    keeps its position, [delete] drops the entry. *)
Module JSMap.
Section Ops.
Context {K V : Type} `{EqKey K}.

Definition t := list (K * V).

Definition empty : t := [].

Fixpoint get (k : K) (m : t) : option V :=
  match m with
  | [] => None
  | (k', v) :: m' => if key_eqb k k' then Some v else get k m'
  end.

Definition has (k : K) (m : t) : bool :=
  match get k m with Some _ => true | None => false end.

Fixpoint set (k : K) (v : V) (m : t) : t :=
  match m with
  | [] => [(k, v)]
  | (k', v') :: m' =>
      if key_eqb k k' then (k, v) :: m' else (k', v') :: set k v m'
  end.

Definition delete (k : K) (m : t) : t :=
  filter (fun e => negb (key_eqb k (fst e))) m.

Definition size (m : t) : nat := List.length m.
Definition entries (m : t) : list (K * V) := m.
Definition keys (m : t) : list K := map fst m.
Definition values (m : t) : list V := map snd m.

(** The representation invariant: at most one entry per key. *)
Definition wf (m : t) : Prop := NoDup (keys m).

End Ops.
Arguments t : clear implicits.
End JSMap.

(* ================================================================== *)
(** ** JavaScript values and helpers *)
(* ================================================================== *)

(** Payloads the server only passes along (file listings, SDP blobs, ICE
    candidates) are kept as JSON trees. *)
#[local] Unset Elimination Schemes.
Inductive JsValue :=
| JUndefined
| JNull
| JBool (b : bool)
| JNum (n : Z)
| JStr (s : string)
| JArr (items : list JsValue)
| JObj (fields : list (string * JsValue)).
#[local] Set Elimination Schemes.

(** Truthiness of an optional string: [undefined], [null] and [""] are
    falsy. *)
Definition truthy (v : option string) : bool :=
  match v with
  | Some s => negb (s =? "")%string
  | None => false
  end.

(** [a || b] on an optional string with a string default. *)
Definition str_or (a : option string) (b : string) : string :=
  match a with
  | Some s => if (s =? "")%string then b else s
  | None => b
  end.

(** [a || b] on an optional number: [undefined] and [0] are falsy. *)
Definition num_or (a : option Z) (b : Z) : Z :=
  match a with
  | Some x => if x =? 0 then b else x
  | None => b
  end.

Definition string_of_Z (z : Z) : string := NilZero.string_of_int (Z.to_int z).

(** [Array.prototype.sort((a, b) => key(a) - key(b))]: ascending and
    stable, so entries with equal keys keep their relative order. *)
Fixpoint insert_by {A} (key : A -> Z) (x : A) (l : list A) : list A :=
  match l with
  | [] => [x]
  | y :: l' => if key x <=? key y then x :: y :: l' else y :: insert_by key x l'
  end.

Definition sort_by {A} (key : A -> Z) (l : list A) : list A :=
  fold_right (insert_by key) [] l.

(* ================================================================== *)
(** ** [Buffer.from(chunk, 'base64')] *)
(* ================================================================== *)

(** Node's decoder: characters outside the alphabet are skipped, the URL
    safe variants [-] and [_] are accepted, decoding stops at the first
    [=]; four sextets give three bytes, a final group of three gives two
    bytes and one of two gives one byte. *)
Module Base64.

Definition unbase64 (c : ascii) : option Z :=
  let n := Z.of_nat (nat_of_ascii c) in
  if (65 <=? n) && (n <=? 90) then Some (n - 65)
  else if (97 <=? n) && (n <=? 122) then Some (n - 97 + 26)
  else if (48 <=? n) && (n <=? 57) then Some (n - 48 + 52)
  else if (n =? 43) || (n =? 45) then Some 62
  else if (n =? 47) || (n =? 95) then Some 63
  else None.

Fixpoint sextets (s : string) : list Z :=
  match s with
  | EmptyString => []
  | String c rest =>
      if Ascii.eqb c "="%char then []
      else match unbase64 c with
           | Some v => v :: sextets rest
           | None => sextets rest
           end
  end.

Fixpoint bytes_of_sextets (l : list Z) : list Z :=
  match l with
  | a :: b :: c :: d :: rest =>
      Z.lor (Z.shiftl (Z.land a 63) 2) (Z.shiftr (Z.land b 48) 4)
      :: Z.lor (Z.shiftl (Z.land b 15) 4) (Z.shiftr (Z.land c 60) 2)
      :: Z.lor (Z.shiftl (Z.land c 3) 6) (Z.land d 63)
      :: bytes_of_sextets rest
  | [a; b; c] =>
      [Z.lor (Z.shiftl (Z.land a 63) 2) (Z.shiftr (Z.land b 48) 4);
       Z.lor (Z.shiftl (Z.land b 15) 4) (Z.shiftr (Z.land c 60) 2)]
  | [a; b] =>
      [Z.lor (Z.shiftl (Z.land a 63) 2) (Z.shiftr (Z.land b 48) 4)]
  | _ => []
  end.

Definition decode (chunk : string) : list Z := bytes_of_sextets (sextets chunk).

End Base64.

(* ================================================================== *)
(** ** Data model *)
(* ================================================================== *)

(** A record of the [devices] map.  [socketId] is [None] for the JavaScript
    [null] stored by the HTTP registration; dates are kept in epoch
    milliseconds. *)
Module Device.
Record t := mk {
  id : string;
  name : string;
  type : string;
  socketId : option string;
  status : string;
  connectedAt : option Z;
  lastActivity : option Z;
  ipAddress : option string
}.
End Device.

(** The projection sent to observers: [{id, name, type, status}]. *)
Module DeviceInfo.
Record t := mk {
  id : string;
  name : string;
  type : string;
  status : string
}.
End DeviceInfo.

(** An entry of [pendingRequests].  The browse endpoint stores
    [{resolve, reject, timestamp}], the download endpoint
    [{response, startTime, timeoutId}]; a field the object literal does not
    mention is [undefined].  [resolve] and [reject] name the promise they
    settle, [response] the HTTP response object, [timeoutId] the timer. *)
Module PendingRequest.
Record t := mk {
  resolve : option nat;
  reject : option nat;
  timestamp : option Z;
  response : option nat;
  startTime : option Z;
  timeoutId : option nat
}.
End PendingRequest.

(** JSON bodies the endpoints answer with. *)
Inductive Reply :=
| ReplyError (error : string)
| ReplyFiles (files : JsValue)
| ReplySuccess (deviceId : string).

(** An Express response object: the sink of a streamed download. *)
Module Res.
Record t := mk {
  headersSent : bool;
  statusCode : Z;
  headers : list (string * string);
  body : list Z;
  json : option Reply;
  ended : nat
}.
Definition fresh : t := mk false 200 [] [] None 0.
End Res.

(** A connected Socket.IO socket with the [deviceId] property the
    registration handlers attach to it. *)
Module Socket.
Record t := mk {
  deviceId : option string;
  connected : bool
}.
End Socket.

(** The closures handed to [setTimeout]. *)
Inductive TimerCallback :=
| BrowseTimeout (requestId : string) (reject : nat)
| DownloadTimeout (requestId : string) (res : nat).

Record Timer := mkTimer {
  callback : TimerCallback;
  dueAt : Z
}.

(** How a promise was settled. *)
Inductive Settlement :=
| Fulfilled (value : JsValue)
| Rejected (message : string).

(** What awaits a promise: the rest of the browse endpoint. *)
Inductive Continuation :=
| BrowseAwait (res : nat).

(** Event payloads. *)
Inductive Payload :=
| PDevices (devices : list DeviceInfo.t)
| PRegistered (deviceId : string)
| POffer (fromDeviceId : option string) (sdp : JsValue)
| PAnswer (fromDeviceId : option string) (sdp : JsValue)
| PIceCandidate (fromDeviceId : option string) (candidate : JsValue)
| PPong (timestamp : Z)
| PListRequest (requestId : string) (path : string)
| PDownloadRequest (requestId : string) (path : string)
| PListResponse (requestId : string) (deviceId : option string)
                (files : JsValue) (error : option string)
| PDownloadChunk (requestId : string) (deviceId : option string)
                 (chunk : option string) (isLast : bool) (error : option string).

(** The three ways the server emits: [io.emit], [io.to(room).emit] and
    [socket.emit]. *)
Inductive Emit :=
| IoEmit (event : string) (payload : Payload)
| IoToEmit (room : option string) (event : string) (payload : Payload)
| SocketEmit (socket : string) (event : string) (payload : Payload).

(** [CLEANUP_CONFIG]. *)
Record Config := mkConfig {
  DEVICE_TTL : Z;
  MONITORED_APPS_TTL : Z;
  PENDING_REQUEST_TIMEOUT : Z;
  CLEANUP_INTERVAL : Z;
  MAX_DEVICES : nat;
  MAX_MONITORED_APPS : nat
}.

Definition CLEANUP_CONFIG : Config := {|
  DEVICE_TTL := 30 * 60 * 1000;
  MONITORED_APPS_TTL := 60 * 60 * 1000;
  PENDING_REQUEST_TIMEOUT := 30 * 1000;
  CLEANUP_INTERVAL := 5 * 60 * 1000;
  MAX_DEVICES := 100;
  MAX_MONITORED_APPS := 50
|}.

(** The process state: the two module-level maps, the sockets Socket.IO
    holds, the timers and promises of the event loop, the HTTP responses
    still open, and the log of everything emitted. *)
Record Server := mkServer {
  devices : JSMap.t string Device.t;
  pendingRequests : JSMap.t string PendingRequest.t;
  sockets : JSMap.t string Socket.t;
  timers : JSMap.t nat Timer;
  nextTimer : nat;
  promises : JSMap.t nat Continuation;
  nextPromise : nat;
  settleCalls : list (nat * Settlement);
  responses : JSMap.t nat Res.t;
  emitted : list Emit
}.

Definition initial : Server :=
  mkServer JSMap.empty JSMap.empty JSMap.empty JSMap.empty 0 JSMap.empty 0 []
           JSMap.empty [].

Definition set_devices (f : JSMap.t string Device.t -> JSMap.t string Device.t)
  (s : Server) : Server :=
  mkServer (f (devices s)) (pendingRequests s) (sockets s) (timers s)
           (nextTimer s) (promises s) (nextPromise s) (settleCalls s)
           (responses s) (emitted s).

Definition set_pendingRequests
  (f : JSMap.t string PendingRequest.t -> JSMap.t string PendingRequest.t)
  (s : Server) : Server :=
  mkServer (devices s) (f (pendingRequests s)) (sockets s) (timers s)
           (nextTimer s) (promises s) (nextPromise s) (settleCalls s)
           (responses s) (emitted s).

Definition set_sockets (f : JSMap.t string Socket.t -> JSMap.t string Socket.t)
  (s : Server) : Server :=
  mkServer (devices s) (pendingRequests s) (f (sockets s)) (timers s)
           (nextTimer s) (promises s) (nextPromise s) (settleCalls s)
           (responses s) (emitted s).

Definition set_timers (f : JSMap.t nat Timer -> JSMap.t nat Timer)
  (s : Server) : Server :=
  mkServer (devices s) (pendingRequests s) (sockets s) (f (timers s))
           (nextTimer s) (promises s) (nextPromise s) (settleCalls s)
           (responses s) (emitted s).

Definition set_responses (f : JSMap.t nat Res.t -> JSMap.t nat Res.t)
  (s : Server) : Server :=
  mkServer (devices s) (pendingRequests s) (sockets s) (timers s)
           (nextTimer s) (promises s) (nextPromise s) (settleCalls s)
           (f (responses s)) (emitted s).

Definition add_emitted (e : Emit) (s : Server) : Server :=
  mkServer (devices s) (pendingRequests s) (sockets s) (timers s)
           (nextTimer s) (promises s) (nextPromise s) (settleCalls s)
           (responses s) (emitted s ++ [e]).

Definition add_settleCall (p : nat) (o : Settlement) (s : Server) : Server :=
  mkServer (devices s) (pendingRequests s) (sockets s) (timers s)
           (nextTimer s) (promises s) (nextPromise s) (settleCalls s ++ [(p, o)])
           (responses s) (emitted s).

(** Who receives an emission.  Every connected socket is in the room named
    by its own id and the program joins no other room, so
    [io.to(room)] reaches the connected socket of that id, if any, and the
    room [null] reaches nobody; [io.emit] reaches every connected socket. *)
Definition connected_sockets (s : Server) : list string :=
  map fst (filter (fun e => Socket.connected (snd e)) (JSMap.entries (sockets s))).

Definition recipients (s : Server) (e : Emit) : list string :=
  match e with
  | IoEmit _ _ => connected_sockets s
  | IoToEmit room _ _ =>
      match room with
      | Some sid => filter (String.eqb sid) (connected_sockets s)
      | None => []
      end
  | SocketEmit sid _ _ => [sid]
  end.

(* ================================================================== *)
(** ** Handlers: state passing with JavaScript exceptions *)
(* ================================================================== *)

(** A handler either runs to its end or throws; what it did to the state
    before throwing stays done. *)
Inductive Completion (A : Type) :=
| Normal (a : A)
| Throw (err : string).
Arguments Normal {A} a.
Arguments Throw {A} err.

Definition Handler (A : Type) : Type := Server -> Completion A * Server.

Definition ret {A} (a : A) : Handler A := fun s => (Normal a, s).

Definition bind {A B} (h : Handler A) (k : A -> Handler B) : Handler B :=
  fun s =>
    match h s with
    | (Normal a, s') => k a s'
    | (Throw e, s') => (Throw e, s')
    end.

Definition throw {A} (e : string) : Handler A := fun s => (Throw e, s).

Definition get_state : Handler Server := fun s => (Normal s, s).

Definition modify (f : Server -> Server) : Handler unit :=
  fun s => (Normal tt, f s).

(** [try { h } catch (error) { console.error(...) }]. *)
Definition try_catch (h : Handler unit) : Handler unit :=
  fun s =>
    match h s with
    | (Throw _, s') => (Normal tt, s')
    | r => r
    end.

(** [try { h } catch (err) { k err.message }]. *)
Definition catch {A} (h : Handler A) (k : string -> Handler A) : Handler A :=
  fun s =>
    match h s with
    | (Throw e, s') => k e s'
    | r => r
    end.

Declare Scope handler_scope.
Delimit Scope handler_scope with handler.
Notation "x <- c1 ;; c2" := (bind c1 (fun x => c2))
  (at level 61, c1 at next level, right associativity) : handler_scope.
Notation "c1 ;; c2" := (bind c1 (fun _ => c2))
  (at level 61, right associativity) : handler_scope.
Local Open Scope handler_scope.

(** Final state and completion of a handler run. *)
Definition exec {A} (h : Handler A) (s : Server) : Server := snd (h s).
Definition completion {A} (h : Handler A) (s : Server) : Completion A := fst (h s).

(** *** Emitting *)

Definition io_emit (event : string) (p : Payload) : Handler unit :=
  modify (add_emitted (IoEmit event p)).

Definition io_to_emit (room : option string) (event : string) (p : Payload)
  : Handler unit :=
  modify (add_emitted (IoToEmit room event p)).

Definition socket_emit (sid : string) (event : string) (p : Payload)
  : Handler unit :=
  modify (add_emitted (SocketEmit sid event p)).

(** [socket.deviceId] of the socket object the handler closes over. *)
Definition socket_deviceId (sid : string) (s : Server) : option string :=
  match JSMap.get sid (sockets s) with
  | Some sock => Socket.deviceId sock
  | None => None
  end.

Definition socket_connected (sid : string) (s : Server) : bool :=
  match JSMap.get sid (sockets s) with
  | Some sock => Socket.connected sock
  | None => false
  end.

Definition set_socket_deviceId (sid : string) (d : string) : Handler unit :=
  modify (fun s =>
    set_sockets (JSMap.set sid (Socket.mk (Some d) (socket_connected sid s))) s).

(** *** Express responses *)

Definition res_get (r : nat) (s : Server) : Res.t :=
  match JSMap.get r (responses s) with
  | Some x => x
  | None => Res.fresh
  end.

Definition res_update (r : nat) (f : Res.t -> Res.t) : Handler unit :=
  modify (fun s => set_responses (JSMap.set r (f (res_get r s))) s).

Definition res_status (r : nat) (code : Z) : Handler unit :=
  res_update r (fun x =>
    Res.mk (Res.headersSent x) code (Res.headers x) (Res.body x) (Res.json x)
           (Res.ended x)).

Definition dquote : string := String (ascii_of_nat 34) EmptyString.

(** Node refuses a header value with a character outside tab, [0x20-0x7e]
    and [0x80-0xff] (the strings of this development are sequences of code
    units below 256). *)
Definition header_char_ok (c : ascii) : bool :=
  let n := nat_of_ascii c in
  Nat.eqb n 9 || (Nat.leb 32 n && Nat.leb n 126) || Nat.leb 128 n.

Fixpoint header_value_ok (v : string) : bool :=
  match v with
  | EmptyString => true
  | String c v' => header_char_ok c && header_value_ok v'
  end.

(** [res.setHeader(h, v)]: it throws [ERR_HTTP_HEADERS_SENT] once the
    headers were sent, and [ERR_INVALID_CHAR] for a value Node refuses, with
    these messages. *)
Definition res_setHeader (r : nat) (h v : string) : Handler unit :=
  s <- get_state ;;
  if Res.headersSent (res_get r s) then
    throw "Cannot set headers after they are sent to the client"
  else if header_value_ok v then
    res_update r (fun x =>
      Res.mk (Res.headersSent x) (Res.statusCode x) (Res.headers x ++ [(h, v)])
             (Res.body x) (Res.json x) (Res.ended x))
  else
    throw ("Invalid character in header content [" ++ dquote ++ h ++ dquote
           ++ "]")%string.

(** [res.json(obj)] sends the headers and the body and ends the response. *)
Definition res_json (r : nat) (obj : Reply) : Handler unit :=
  res_update r (fun x =>
    Res.mk true (Res.statusCode x) (Res.headers x) (Res.body x) (Some obj)
           (S (Res.ended x))).

(** [res.write(buffer)] sends the headers if they were not and appends. *)
Definition res_write (r : nat) (buffer : list Z) : Handler unit :=
  res_update r (fun x =>
    Res.mk true (Res.statusCode x) (Res.headers x) (Res.body x ++ buffer)
           (Res.json x) (Res.ended x)).

Definition res_end (r : nat) : Handler unit :=
  res_update r (fun x =>
    Res.mk true (Res.statusCode x) (Res.headers x) (Res.body x) (Res.json x)
           (S (Res.ended x))).

(** *** Timers *)

Definition setTimeout (cb : TimerCallback) (delay now : Z) : Handler nat :=
  fun s =>
    let tid := nextTimer s in
    (Normal tid,
     mkServer (devices s) (pendingRequests s) (sockets s)
              (JSMap.set tid (mkTimer cb (now + delay)) (timers s))
              (S tid) (promises s) (nextPromise s) (settleCalls s)
              (responses s) (emitted s)).

(** [clearTimeout(undefined)] does nothing. *)
Definition clearTimeout (tid : option nat) : Handler unit :=
  match tid with
  | Some t => modify (set_timers (JSMap.delete t))
  | None => ret tt
  end.

(** *** Promises *)

Definition new_promise (k : Continuation) : Handler nat :=
  fun s =>
    let p := nextPromise s in
    (Normal p,
     mkServer (devices s) (pendingRequests s) (sockets s) (timers s)
              (nextTimer s) (JSMap.set p k (promises s)) (S p) (settleCalls s)
              (responses s) (emitted s)).

Definition settled (p : nat) (calls : list (nat * Settlement)) : bool :=
  existsb (fun c => Nat.eqb (fst c) p) calls.

(** The state of a promise is decided by the first call that settled it. *)
Definition promise_state (p : nat) (calls : list (nat * Settlement))
  : option Settlement :=
  option_map snd (find (fun c => Nat.eqb (fst c) p) calls).

(** The tail of [/api/ftp/browse] after [await responsePromise]:
    [res.json({ files })], or the [catch] answering 500 with the message. *)
Definition browse_continue (res : nat) (o : Settlement) : Handler unit :=
  match o with
  | Fulfilled files => res_json res (ReplyFiles files)
  | Rejected message => res_status res 500 ;; res_json res (ReplyError message)
  end.

(** A call of a promise's [resolve] or [reject]: it is recorded; only the
    first call for a promise settles it and wakes what awaits it. *)
Definition settle (p : nat) (o : Settlement) : Handler unit :=
  s <- get_state ;;
  modify (add_settleCall p o) ;;
  if settled p (settleCalls s) then ret tt
  else match JSMap.get p (promises s) with
       | Some (BrowseAwait res) => browse_continue res o
       | None => ret tt
       end.

(** [request.resolve(v)] and [request.reject(new Error(msg))]: calling a
    property that is [undefined] throws a [TypeError]. *)
Definition call_resolve (request : PendingRequest.t) (v : JsValue)
  : Handler unit :=
  match PendingRequest.resolve request with
  | Some p => settle p (Fulfilled v)
  | None => throw "TypeError: pendingRequest.resolve is not a function"
  end.

Definition call_reject (request : PendingRequest.t) (message : string)
  : Handler unit :=
  match PendingRequest.reject request with
  | Some p => settle p (Rejected message)
  | None => throw "TypeError: pendingRequest.reject is not a function"
  end.

(** Reading a property of an [undefined] response throws as well. *)
Definition the_response (response : option nat) : Handler nat :=
  match response with
  | Some r => ret r
  | None => throw "TypeError: Cannot read properties of undefined"
  end.

(* ================================================================== *)
(** ** The program *)
(* ================================================================== *)

(** [generateRequestId]: [req_${Date.now()}_${random}], the random suffix
    being supplied by the caller of the model. *)
Definition generateRequestId (now : Z) (random : string) : string :=
  ("req_" ++ string_of_Z now ++ "_" ++ random)%string.

(** *** Periodic cleanup *)

(** [device.lastActivity || device.connectedAt?.getTime() || 0]. *)
Definition activityTime (device : Device.t) : Z :=
  num_or (Device.lastActivity device) (num_or (Device.connectedAt device) 0).

Definition stale (cfg : Config) (now : Z) (device : Device.t) : bool :=
  now - activityTime device >? DEVICE_TTL cfg.

(** The first loop of [cleanupStaleDevices]: walk the entries, delete the
    stale ones, count them. *)
Definition evict_stale (cfg : Config) (now : Z) (m : JSMap.t string Device.t)
  : JSMap.t string Device.t * nat :=
  fold_left
    (fun acc e =>
       if stale cfg now (snd e)
       then (JSMap.delete (fst e) (fst acc), S (snd acc))
       else acc)
    (JSMap.entries m) (m, 0%nat).

(** The second part: when the map is still larger than [MAX_DEVICES], sort
    its entries by activity time and delete the first
    [devices.size - MAX_DEVICES] of them. *)
Definition enforce_max (cfg : Config) (acc : JSMap.t string Device.t * nat)
  : JSMap.t string Device.t * nat :=
  let m := fst acc in
  if (MAX_DEVICES cfg <? JSMap.size m)%nat then
    let sortedDevices :=
      sort_by (fun e => activityTime (snd e)) (JSMap.entries m) in
    let toRemove := (JSMap.size m - MAX_DEVICES cfg)%nat in
    fold_left
      (fun acc e => (JSMap.delete (fst e) (fst acc), S (snd acc)))
      (firstn toRemove sortedDevices) acc
  else acc.

Definition sweep_devices (cfg : Config) (now : Z) (m : JSMap.t string Device.t)
  : JSMap.t string Device.t * nat :=
  enforce_max cfg (evict_stale cfg now m).

(** [cleanupStaleDevices]; the result is the [removed] counter it logs. *)
Definition cleanupStaleDevices (cfg : Config) (now : Z) : Handler nat :=
  s <- get_state ;;
  let r := sweep_devices cfg now (devices s) in
  modify (set_devices (fun _ => fst r)) ;;
  ret (snd r).

Fixpoint fold_handler {A B} (body : B -> A -> Handler B) (l : list A) (acc : B)
  : Handler B :=
  match l with
  | [] => ret acc
  | x :: l' => acc' <- body acc x ;; fold_handler body l' acc'
  end.

(** The body of the loop of [cleanupPendingRequests]. *)
Definition cleanup_request (cfg : Config) (now : Z) (removed : nat)
  (e : string * PendingRequest.t) : Handler nat :=
  let requestId := fst e in
  let request := snd e in
  let age := now - num_or (PendingRequest.timestamp request) 0 in
  if age >? PENDING_REQUEST_TIMEOUT cfg then
    (match PendingRequest.reject request with
     | Some p => settle p (Rejected "Request timeout")
     | None => ret tt
     end) ;;
    modify (set_pendingRequests (JSMap.delete requestId)) ;;
    ret (S removed)
  else ret removed.

Definition cleanupPendingRequests (cfg : Config) (now : Z) : Handler nat :=
  s <- get_state ;;
  fold_handler (cleanup_request cfg now) (JSMap.entries (pendingRequests s)) 0%nat.

(** [runPeriodicCleanup], without the monitored-apps map and the memory
    log, which touch neither the registry nor the correlation table. *)
Definition runPeriodicCleanup (cfg : Config) (now : Z) : Handler unit :=
  cleanupStaleDevices cfg now ;;
  cleanupPendingRequests cfg now ;;
  ret tt.

(** *** Broadcast *)

Definition deviceInfo (d : Device.t) : DeviceInfo.t :=
  DeviceInfo.mk (Device.id d) (Device.name d) (Device.type d) (Device.status d).

Definition snapshot (s : Server) : list DeviceInfo.t :=
  map deviceInfo (JSMap.values (devices s)).

Definition broadcastDeviceList : Handler unit :=
  s <- get_state ;;
  io_emit "devices" (PDevices (snapshot s)).

(** *** HTTP endpoints *)

(** [POST /api/ftp/register]. *)
Definition ftp_register (res : nat) (deviceId deviceName ipAddress : option string)
  (now : Z) : Handler unit :=
  if negb (truthy deviceId) || negb (truthy ipAddress) then
    res_status res 400 ;;
    res_json res (ReplyError "deviceId and ipAddress are required")
  else
    let id := str_or deviceId "" in
    modify (set_devices (JSMap.set id
      (Device.mk id (str_or deviceName "Unknown Device") "ftp-only" None
                 "online" (Some now) (Some now) ipAddress))) ;;
    broadcastDeviceList ;;
    res_json res (ReplySuccess id).

(** [GET /api/ftp/browse] up to [await responsePromise]; the rest runs when
    the promise settles, see [browse_continue]. *)
Definition browse (res : nat) (deviceId path : option string)
  (now : Z) (random : string) : Handler unit :=
  if negb (truthy deviceId) then
    res_status res 400 ;; res_json res (ReplyError "deviceId is required")
  else
    s <- get_state ;;
    match JSMap.get (str_or deviceId "") (devices s) with
    | None =>
        res_status res 404 ;;
        res_json res (ReplyError "Device not found or offline")
    | Some device =>
        if negb (truthy (Device.socketId device)) then
          res_status res 400 ;;
          res_json res (ReplyError "Device not connected via WebSocket")
        else
          let path := match path with Some p => p | None => "/" end in
          let requestId := generateRequestId now random in
          p <- new_promise (BrowseAwait res) ;;
          modify (set_pendingRequests (JSMap.set requestId
            (PendingRequest.mk (Some p) (Some p) (Some now) None None None))) ;;
          _ <- setTimeout (BrowseTimeout requestId p) 30000 now ;;
          io_to_emit (Device.socketId device) "ftp-list-request"
                     (PListRequest requestId path)
    end.

(** [GET /api/ftp/download]: the three early answers, then the [try]
    block with its [catch], which answers 500 with the message of the error
    unless the headers were sent. *)
Definition download (res : nat) (deviceId path filename : option string)
  (now : Z) (random : string) : Handler unit :=
  if negb (truthy deviceId) || negb (truthy path) then
    res_status res 400 ;;
    res_json res (ReplyError "deviceId and path are required")
  else
    s <- get_state ;;
    match JSMap.get (str_or deviceId "") (devices s) with
    | None =>
        res_status res 404 ;;
        res_json res (ReplyError "Device not found or offline")
    | Some device =>
        if negb (truthy (Device.socketId device)) then
          res_status res 400 ;;
          res_json res (ReplyError "Device not connected via WebSocket")
        else
          catch
            (let requestId := generateRequestId now random in
             res_setHeader res "Content-Disposition"
               ("attachment; filename=" ++ dquote ++ str_or filename "download"
                ++ dquote)%string ;;
             res_setHeader res "Content-Type" "application/octet-stream" ;;
             res_setHeader res "Transfer-Encoding" "chunked" ;;
             modify (set_pendingRequests (JSMap.set requestId
               (PendingRequest.mk None None None (Some res) (Some now) None))) ;;
             timeoutId <- setTimeout (DownloadTimeout requestId res) 600000 now ;;
             modify (set_pendingRequests (JSMap.set requestId
               (PendingRequest.mk None None None (Some res) (Some now)
                                  (Some timeoutId)))) ;;
             io_to_emit (Device.socketId device) "ftp-download-request"
                        (PDownloadRequest requestId (str_or path "")))
            (fun message =>
               s' <- get_state ;;
               if negb (Res.headersSent (res_get res s')) then
                 res_status res 500 ;; res_json res (ReplyError message)
               else ret tt)
    end.

(** *** Timer callbacks *)

(** The closure [/api/ftp/browse] schedules for 30 seconds later. *)
Definition browse_timeout (requestId : string) (reject : nat) : Handler unit :=
  s <- get_state ;;
  if JSMap.has requestId (pendingRequests s) then
    modify (set_pendingRequests (JSMap.delete requestId)) ;;
    settle reject (Rejected "Request timeout")
  else ret tt.

(** The closure [/api/ftp/download] schedules for 10 minutes later. *)
Definition download_timeout (requestId : string) (res : nat) : Handler unit :=
  s <- get_state ;;
  if JSMap.has requestId (pendingRequests s) then
    modify (set_pendingRequests (JSMap.delete requestId)) ;;
    s' <- get_state ;;
    if negb (Res.headersSent (res_get res s')) then
      res_status res 500 ;; res_json res (ReplyError "Request timeout")
    else res_end res
  else ret tt.

Definition run_callback (cb : TimerCallback) : Handler unit :=
  match cb with
  | BrowseTimeout requestId reject => browse_timeout requestId reject
  | DownloadTimeout requestId res => download_timeout requestId res
  end.

(** The event loop running a timer that came due. *)
Definition fire_timer (tid : nat) : Handler unit :=
  s <- get_state ;;
  match JSMap.get tid (timers s) with
  | Some t => modify (set_timers (JSMap.delete tid)) ;; run_callback (callback t)
  | None => ret tt
  end.

(** *** Socket events *)

(** The [data] of [register] and [register_device]. *)
Module RegisterData.
Record t := mk {
  deviceId : option string;
  deviceName : option string;
  deviceType : option string;
  ipAddress : option string
}.
End RegisterData.

(** The [data] of [offer], [answer] and [ice-candidate]; [payload] is the
    [sdp] or the [candidate]. *)
Module SignalData.
Record t := mk {
  targetDeviceId : string;
  payload : JsValue
}.
End SignalData.

(** The [data] of [ftp-list-response]. *)
Module ListResponse.
Record t := mk {
  requestId : string;
  files : JsValue;
  error : option string
}.
End ListResponse.

(** The [data] of [ftp-download-chunk]. *)
Module DownloadChunk.
Record t := mk {
  requestId : string;
  chunk : option string;
  isLast : bool;
  error : option string
}.
End DownloadChunk.

(** [io.on('connection')]: Socket.IO holds a new connected socket. *)
Definition on_connection (sid : string) : Handler unit :=
  modify (set_sockets (JSMap.set sid (Socket.mk None true))).

(** [data.ipAddress || null]. *)
Definition or_null (v : option string) : option string :=
  if truthy v then v else None.

Definition registered_device (sid : string) (deviceId : string)
  (data : RegisterData.t) (now : Z) : Device.t :=
  Device.mk deviceId
            (str_or (RegisterData.deviceName data) "Unknown Device")
            (str_or (RegisterData.deviceType data) "unknown")
            (Some sid) "online" (Some now) (Some now)
            (or_null (RegisterData.ipAddress data)).

(** [socket.on('register')]; [uuid] is what [uuidv4()] would return. *)
Definition on_register (sid : string) (data : option RegisterData.t)
  (uuid : string) (now : Z) : Handler unit :=
  try_catch
    (match data with
     | None => throw "TypeError: Cannot read properties of undefined"
     | Some data =>
         let deviceId := str_or (RegisterData.deviceId data) uuid in
         modify (set_devices (JSMap.set deviceId
                   (registered_device sid deviceId data now))) ;;
         set_socket_deviceId sid deviceId ;;
         socket_emit sid "registered" (PRegistered deviceId) ;;
         broadcastDeviceList
     end).

(** [socket.on('register_device')]. *)
Definition on_register_device (sid : string) (data : option RegisterData.t)
  (uuid : string) (now : Z) : Handler unit :=
  try_catch
    (match data with
     | None => ret tt
     | Some data =>
         let deviceId := str_or (RegisterData.deviceId data) uuid in
         modify (set_devices (JSMap.set deviceId
                   (registered_device sid deviceId data now))) ;;
         set_socket_deviceId sid deviceId ;;
         socket_emit sid "registered" (PRegistered deviceId) ;;
         broadcastDeviceList
     end).

(** [socket.on('get-devices')]. *)
Definition on_get_devices (sid : string) : Handler unit :=
  s <- get_state ;;
  socket_emit sid "devices" (PDevices (snapshot s)).

(** [socket.on('offer')]. *)
Definition on_offer (sid : string) (data : SignalData.t) : Handler unit :=
  s <- get_state ;;
  match JSMap.get (SignalData.targetDeviceId data) (devices s) with
  | Some targetDevice =>
      io_to_emit (Device.socketId targetDevice) "offer"
                 (POffer (socket_deviceId sid s) (SignalData.payload data))
  | None => ret tt
  end.

(** [socket.on('answer')]. *)
Definition on_answer (sid : string) (data : SignalData.t) : Handler unit :=
  s <- get_state ;;
  match JSMap.get (SignalData.targetDeviceId data) (devices s) with
  | Some targetDevice =>
      io_to_emit (Device.socketId targetDevice) "answer"
                 (PAnswer (socket_deviceId sid s) (SignalData.payload data))
  | None => ret tt
  end.

(** [socket.on('ice-candidate')]. *)
Definition on_ice_candidate (sid : string) (data : SignalData.t) : Handler unit :=
  s <- get_state ;;
  match JSMap.get (SignalData.targetDeviceId data) (devices s) with
  | Some targetDevice =>
      io_to_emit (Device.socketId targetDevice) "ice-candidate"
                 (PIceCandidate (socket_deviceId sid s) (SignalData.payload data))
  | None => ret tt
  end.

(** [socket.on('ping')]: the pong and a log line, nothing else. *)
Definition on_ping (sid : string) (data : option RegisterData.t) (now : Z)
  : Handler unit :=
  socket_emit sid "pong" (PPong now).

(** [socket.on('ftp-list-response')]. *)
Definition on_ftp_list_response (sid : string) (data : ListResponse.t)
  : Handler unit :=
  let requestId := ListResponse.requestId data in
  let files := ListResponse.files data in
  let error := ListResponse.error data in
  s <- get_state ;;
  (match JSMap.get requestId (pendingRequests s) with
   | Some pendingRequest =>
       (if truthy error
        then call_reject pendingRequest (str_or error "")
        else call_resolve pendingRequest files) ;;
       modify (set_pendingRequests (JSMap.delete requestId))
   | None => ret tt
   end) ;;
  s' <- get_state ;;
  io_emit "ftp-list-response"
          (PListResponse requestId (socket_deviceId sid s') files error).

(** [socket.on('ftp-download-chunk')]. *)
Definition on_ftp_download_chunk (sid : string) (data : DownloadChunk.t)
  : Handler unit :=
  let requestId := DownloadChunk.requestId data in
  let chunk := DownloadChunk.chunk data in
  let isLast := DownloadChunk.isLast data in
  let error := DownloadChunk.error data in
  s <- get_state ;;
  (match JSMap.get requestId (pendingRequests s) with
   | Some pendingRequest =>
       let response := PendingRequest.response pendingRequest in
       let timeoutId := PendingRequest.timeoutId pendingRequest in
       if truthy error then
         clearTimeout timeoutId ;;
         modify (set_pendingRequests (JSMap.delete requestId)) ;;
         r <- the_response response ;;
         s1 <- get_state ;;
         if negb (Res.headersSent (res_get r s1)) then
           res_status r 500 ;; res_json r (ReplyError (str_or error ""))
         else res_end r
       else
         (if truthy chunk then
            let buffer := Base64.decode (str_or chunk "") in
            r <- the_response response ;;
            res_write r buffer
          else ret tt) ;;
         (if isLast then
            r <- the_response response ;;
            res_end r ;;
            clearTimeout timeoutId ;;
            modify (set_pendingRequests (JSMap.delete requestId))
          else ret tt)
   | None => ret tt
   end) ;;
  s' <- get_state ;;
  io_emit "ftp-download-chunk"
          (PDownloadChunk requestId (socket_deviceId sid s') chunk isLast error).

(** The two listeners from the event on: [const { requestId, ... } = data]
    throws for an event whose payload is [undefined] or [null] (here
    [None]), before anything else is done; [on_ftp_list_response] and
    [on_ftp_download_chunk] are what runs once [data] is destructured. *)
Definition ftp_list_response_listener (sid : string)
  (data : option ListResponse.t) : Handler unit :=
  match data with
  | None =>
      throw "TypeError: Cannot destructure property 'requestId' of 'data'"
  | Some data => on_ftp_list_response sid data
  end.

Definition ftp_download_chunk_listener (sid : string)
  (data : option DownloadChunk.t) : Handler unit :=
  match data with
  | None =>
      throw "TypeError: Cannot destructure property 'requestId' of 'data'"
  | Some data => on_ftp_download_chunk sid data
  end.

(** Socket.IO takes the socket out of its rooms before the [disconnect]
    listeners run. *)
Definition transport_close (sid : string) : Handler unit :=
  modify (fun s =>
    set_sockets (JSMap.set sid (Socket.mk (socket_deviceId sid s) false)) s).

(** [socket.on('disconnect')]. *)
Definition on_disconnect (sid : string) : Handler unit :=
  s <- get_state ;;
  if truthy (socket_deviceId sid s) then
    let deviceId := str_or (socket_deviceId sid s) "" in
    modify (set_devices (JSMap.delete deviceId)) ;;
    broadcastDeviceList
  else ret tt.

Definition disconnect (sid : string) : Handler unit :=
  transport_close sid ;; on_disconnect sid.

(** Running handlers one after the other, as the event loop does; a throw
    ends the run. *)
Fixpoint run_all (hs : list (Handler unit)) : Handler unit :=
  match hs with
  | [] => ret tt
  | h :: hs' => h ;; run_all hs'
  end.

(* ================================================================== *)
(** ** Vocabulary of the properties *)
(* ================================================================== *)

(** The three signaling relay events. *)
Inductive SignalKind := Offer | Answer | IceCandidate.

Definition on_signal (k : SignalKind) : string -> SignalData.t -> Handler unit :=
  match k with
  | Offer => on_offer
  | Answer => on_answer
  | IceCandidate => on_ice_candidate
  end.

Definition signal_event (k : SignalKind) : string :=
  match k with
  | Offer => "offer"
  | Answer => "answer"
  | IceCandidate => "ice-candidate"
  end.

(** [{fromDeviceId, sdp}] or [{fromDeviceId, candidate}]. *)
Definition signal_payload (k : SignalKind) (fromDeviceId : option string)
  (payload : JsValue) : Payload :=
  match k with
  | Offer => POffer fromDeviceId payload
  | Answer => PAnswer fromDeviceId payload
  | IceCandidate => PIceCandidate fromDeviceId payload
  end.

(** The error kinds of the interface, read off the HTTP answer: 404 is
    [NotFound], 400 with the WebSocket message is [NotConnected], any other
    400 is [InvalidInput], 500 is [Timeout] or what the device reported. *)
Inductive ErrorKind :=
| NotFound
| NotConnected
| InvalidInput
| Timeout
| RemoteError.

Definition error_kind (r : Res.t) : option ErrorKind :=
  match Res.json r with
  | Some (ReplyError message) =>
      if Res.statusCode r =? 404 then Some NotFound
      else if Res.statusCode r =? 400 then
        if (message =? "Device not connected via WebSocket")%string
        then Some NotConnected else Some InvalidInput
      else if Res.statusCode r =? 500 then
        if (message =? "Request timeout")%string
        then Some Timeout else Some RemoteError
      else None
  | _ => None
  end.

(** What a request that failed at once must leave alone: registry,
    correlation table, timers, promises, settle calls, and nothing was
    emitted. *)
Definition nothing_allocated (s s' : Server) : Prop :=
  devices s' = devices s /\
  pendingRequests s' = pendingRequests s /\
  timers s' = timers s /\
  nextTimer s' = nextTimer s /\
  promises s' = promises s /\
  nextPromise s' = nextPromise s /\
  settleCalls s' = settleCalls s /\
  emitted s' = emitted s.

(** The two things that can resolve the entry of a browse request: a
    response event of the device, or the timeout closure of the request. *)
Inductive Resolution :=
| ResponseArrives (sid : string) (files : JsValue) (error : option string)
| TimeoutFires.

Definition resolution_handler (requestId : string) (p : nat) (ev : Resolution)
  : Handler unit :=
  match ev with
  | ResponseArrives sid files error =>
      on_ftp_list_response sid (ListResponse.mk requestId files error)
  | TimeoutFires => browse_timeout requestId p
  end.

(** The result a resolution delivers when it is the first. *)
Definition resolution_outcome (ev : Resolution) : Settlement :=
  match ev with
  | ResponseArrives _ files error =>
      if truthy error then Rejected (str_or error "") else Fulfilled files
  | TimeoutFires => Rejected "Request timeout"
  end.

(** The chunk events [(c1, false), ..., (cn, true)] of one download, none
    with an [error] field. *)
Definition chunk_events (requestId : string) (cs : list string) (last : string)
  : list DownloadChunk.t :=
  map (fun c => DownloadChunk.mk requestId (Some c) false None) cs
  ++ [DownloadChunk.mk requestId (Some last) true None].

(** What can happen to the entry of a download: a chunk event, or the
    timeout closure of the request. *)
Inductive SinkEvent :=
| ChunkArrives (sid : string) (chunk : option string) (isLast : bool)
               (error : option string)
| SinkTimeoutFires.

Definition sink_handler (requestId : string) (r : nat) (ev : SinkEvent)
  : Handler unit :=
  match ev with
  | ChunkArrives sid chunk isLast error =>
      on_ftp_download_chunk sid (DownloadChunk.mk requestId chunk isLast error)
  | SinkTimeoutFires => download_timeout requestId r
  end.

(** The events that end a download: the last chunk, an error, the timeout. *)
Definition closes_sink (ev : SinkEvent) : bool :=
  match ev with
  | ChunkArrives _ _ isLast error => truthy error || isLast
  | SinkTimeoutFires => true
  end.

(** Deleting a list of keys, one [delete] after the other. *)
Definition delete_keys {V} (ks : list string) (m : JSMap.t string V)
  : JSMap.t string V :=
  fold_left (fun m k => JSMap.delete k m) ks m.

Definition mem_key (k : string) (ks : list string) : bool :=
  existsb (String.eqb k) ks.

(** The keys the first loop of [cleanupStaleDevices] deletes. *)
Definition stale_keys (cfg : Config) (now : Z) (m : JSMap.t string Device.t)
  : list string :=
  map fst (filter (fun e => stale cfg now (snd e)) m).

(** The records that outlive the TTL check. *)
Definition fresh_devices (cfg : Config) (now : Z) (m : JSMap.t string Device.t)
  : JSMap.t string Device.t :=
  filter (fun e => negb (stale cfg now (snd e))) m.

(** Ascending activity time of registry entries. *)
Definition entry_time (e : string * Device.t) : Z := activityTime (snd e).

(** What the capacity step removes and what it keeps. *)
Definition excess (cfg : Config) (m : JSMap.t string Device.t)
  : list (string * Device.t) :=
  firstn (JSMap.size m - MAX_DEVICES cfg) (sort_by entry_time m).

Definition kept (cfg : Config) (m : JSMap.t string Device.t)
  : list (string * Device.t) :=
  skipn (JSMap.size m - MAX_DEVICES cfg) (sort_by entry_time m).

(** The test of [cleanupPendingRequests] on an entry:
    [now - (request.timestamp || 0) > PENDING_REQUEST_TIMEOUT]. *)
Definition expired (cfg : Config) (now : Z) (e : string * PendingRequest.t)
  : bool :=
  now - num_or (PendingRequest.timestamp (snd e)) 0 >? PENDING_REQUEST_TIMEOUT cfg.

(** Everything the event loop can run. *)
Inductive Event :=
| EvConnection (sid : string)
| EvRegister (sid : string) (data : option RegisterData.t) (uuid : string) (now : Z)
| EvRegisterDevice (sid : string) (data : option RegisterData.t) (uuid : string)
                   (now : Z)
| EvGetDevices (sid : string)
| EvSignal (k : SignalKind) (sid : string) (data : SignalData.t)
| EvPing (sid : string) (data : option RegisterData.t) (now : Z)
| EvListResponse (sid : string) (data : option ListResponse.t)
| EvDownloadChunk (sid : string) (data : option DownloadChunk.t)
| EvDisconnect (sid : string)
| EvFtpRegister (res : nat) (deviceId deviceName ipAddress : option string) (now : Z)
| EvBrowse (res : nat) (deviceId path : option string) (now : Z) (random : string)
| EvDownload (res : nat) (deviceId path filename : option string) (now : Z)
             (random : string)
| EvTimer (tid : nat)
| EvCleanup (now : Z).

Definition handle (ev : Event) : Handler unit :=
  match ev with
  | EvConnection sid => on_connection sid
  | EvRegister sid data uuid now => on_register sid data uuid now
  | EvRegisterDevice sid data uuid now => on_register_device sid data uuid now
  | EvGetDevices sid => on_get_devices sid
  | EvSignal k sid data => on_signal k sid data
  | EvPing sid data now => on_ping sid data now
  | EvListResponse sid data => ftp_list_response_listener sid data
  | EvDownloadChunk sid data => ftp_download_chunk_listener sid data
  | EvDisconnect sid => disconnect sid
  | EvFtpRegister res deviceId deviceName ipAddress now =>
      ftp_register res deviceId deviceName ipAddress now
  | EvBrowse res deviceId path now random => browse res deviceId path now random
  | EvDownload res deviceId path filename now random =>
      download res deviceId path filename now random
  | EvTimer tid => fire_timer tid
  | EvCleanup now => runPeriodicCleanup CLEANUP_CONFIG now
  end.

(** The states the server can be in. *)
Inductive reachable : Server -> Prop :=
| reachable_initial : reachable initial
| reachable_step s ev : reachable s -> reachable (exec (handle ev) s).

(** Both maps hold at most one entry per key. *)
Definition maps_wf (s : Server) : Prop :=
  JSMap.wf (devices s) /\ JSMap.wf (pendingRequests s).

(** A handler that keeps [maps_wf], whether it returns or throws. *)
Definition keeps_wf {A} (h : Handler A) : Prop :=
  forall s, maps_wf s -> maps_wf (snd (h s)).

(** Two states that differ at most in what was emitted. *)
Definition same_but_emitted (s s' : Server) : Prop :=
  devices s' = devices s /\
  pendingRequests s' = pendingRequests s /\
  sockets s' = sockets s /\
  timers s' = timers s /\
  nextTimer s' = nextTimer s /\
  promises s' = promises s /\
  nextPromise s' = nextPromise s /\
  settleCalls s' = settleCalls s /\
  responses s' = responses s.

(* ================================================================== *)
(** ** Scenarios *)
(* ================================================================== *)

Module Scenario.

Definition t0 : Z := 1700000000000.

Definition pixel : RegisterData.t :=
  RegisterData.mk (Some "dev-1") (Some "Pixel 7") (Some "android") None.

(** A device on socket [sock-A], and a web client on socket [sock-W]. *)
Definition registered : Server :=
  exec (on_connection "sock-A" ;;
        on_connection "sock-W" ;;
        on_register "sock-A" (Some pixel) "uuid-1" t0) initial.

(** The same, with a download of the device in flight since [t0]. *)
Definition downloading : Server :=
  exec (download 7 (Some "dev-1") (Some "/sdcard/video.mp4") None t0 "k3x9q2m1z")
       registered.

Definition download_id : string := generateRequestId t0 "k3x9q2m1z".

(** The same as [registered], with a browse request waiting since [t0]. *)
Definition browsing : Server :=
  exec (browse 5 (Some "dev-1") (Some "/") t0 "a1b2c3d4e") registered.

Definition browse_id : string := generateRequestId t0 "a1b2c3d4e".

(** A record made by the HTTP registration: no socket behind it. *)
Definition ftp_only : Server :=
  exec (ftp_register 3 (Some "dev-2") (Some "Tablet") (Some "10.0.0.9") t0)
       registered.

(** A small configuration for capacity examples. *)
Definition small_cfg : Config := mkConfig 1000 1000 1000 1000 2 2.

Definition dev (k : string) (t : Z) : string * Device.t :=
  (k, Device.mk k k "android" (Some k) "online" (Some t) (Some t) None).

Definition crowded : Server :=
  set_devices (fun _ => [dev "a" 5000; dev "b" 100; dev "c" 4000; dev "d" 4500;
                         dev "e" 4200]) initial.

End Scenario.

(* ================================================================== *)
(** ** Monitored apps *)
(* ================================================================== *)

(** [array.findIndex(p)], with [None] for [-1]. *)
Fixpoint findIndex {A} (p : A -> bool) (l : list A) : option nat :=
  match l with
  | [] => None
  | x :: l' => if p x then Some 0%nat else option_map S (findIndex p l')
  end.

(** [array[i] = x] for an index inside the array. *)
Fixpoint assign {A} (i : nat) (x : A) (l : list A) : list A :=
  match l, i with
  | [], _ => []
  | _ :: l', O => x :: l'
  | y :: l', S i' => y :: assign i' x l'
  end.

(** The [monitoredApps] map and the [/api/apps/*] endpoints.  They touch
    nothing but this map and their response, so they are functions from the
    map to the answer and the new map. *)
Module Apps.

(** An app descriptor; [packageName] is what the endpoints compare, the
    rest is passed along. *)
Record App := mkApp {
  packageName : option string;
  appName : option string;
  details : JsValue
}.

(** [{ apps, lastUpdate }]. *)
Record AppData := mkData {
  apps : list App;
  lastUpdate : Z
}.

Definition Store := JSMap.t string AppData.

(** The JSON answers: an error with its status, [{success, appsReceived}],
    [{success}], and [{apps, lastUpdate, totalApps}] (with [lastUpdate: null]
    and no [totalApps] for a device without data). *)
Inductive Reply :=
| Error (status : Z) (error : string)
| SyncOk (appsReceived : nat)
| Ok
| AppList (apps : list App) (lastUpdate : option Z) (totalApps : option nat).

(** [a.packageName === b.packageName]. *)
Definition same_package (a b : option string) : bool :=
  match a, b with
  | Some x, Some y => String.eqb x y
  | None, None => true
  | _, _ => false
  end.

(** The double nearest to an integer, ties to even: what an integer
    written in a JSON body is once parsed.  Integers up to [2^53] in
    absolute value are kept, [2^53 + 1] becomes [2^53].  (Integers beyond
    the range of finite doubles are no inputs of this development.) *)
Definition double_of_Z (z : Z) : Z :=
  let a := Z.abs z in
  if a <=? 2 ^ 53 then z
  else
    let e := Z.log2 a - 52 in
    let q := a / 2 ^ e in
    let r := a mod 2 ^ e in
    let half := 2 ^ (e - 1) in
    let q' := if r <? half then q
              else if half <? r then q + 1
              else if Z.even q then q else q + 1 in
    Z.sgn z * (q' * 2 ^ e).

(** [POST /api/apps/sync]; [timestamp] is the integer written in the
    request, [req.body.timestamp] the double it parses to. *)
Definition sync (deviceId : option string) (apps : option (list App))
  (timestamp : option Z) (now : Z) (m : Store) : Reply * Store :=
  match apps with
  | Some apps =>
      if truthy deviceId then
        (SyncOk (List.length apps),
         JSMap.set (str_or deviceId "")
           (mkData apps (num_or (option_map double_of_Z timestamp) now)) m)
      else (Error 400 "deviceId and apps are required", m)
  | None => (Error 400 "deviceId and apps are required", m)
  end.

(** [POST /api/apps/update]. *)
Definition update (deviceId : option string) (app : option App) (now : Z)
  (m : Store) : Reply * Store :=
  match app with
  | Some app =>
      if truthy deviceId then
        let deviceId := str_or deviceId "" in
        let deviceData :=
          match JSMap.get deviceId m with
          | Some d => d
          | None => mkData [] now
          end in
        let existingIndex :=
          findIndex (fun a => same_package (packageName a) (packageName app))
                    (Apps.apps deviceData) in
        let apps' :=
          match existingIndex with
          | Some i => assign i app (Apps.apps deviceData)
          | None => Apps.apps deviceData ++ [app]
          end in
        (Ok, JSMap.set deviceId (mkData apps' now) m)
      else (Error 400 "deviceId and app are required", m)
  | None => (Error 400 "deviceId and app are required", m)
  end.

(** [POST /api/apps/remove]. *)
Definition remove (deviceId packageName : option string) (now : Z) (m : Store)
  : Reply * Store :=
  if negb (truthy deviceId) || negb (truthy packageName) then
    (Error 400 "deviceId and packageName are required", m)
  else
    let deviceId := str_or deviceId "" in
    match JSMap.get deviceId m with
    | Some deviceData =>
        let apps' :=
          filter (fun a => negb (same_package (Apps.packageName a) packageName))
                 (Apps.apps deviceData) in
        (Ok, JSMap.set deviceId (mkData apps' now) m)
    | None => (Ok, m)
    end.

Definition stale (cfg : Config) (now : Z) (data : AppData) : bool :=
  now - lastUpdate data >? MONITORED_APPS_TTL cfg.

Definition update_time (e : string * AppData) : Z := lastUpdate (snd e).

(** [cleanupMonitoredApps]: the map it leaves and the [removed] counter. *)
Definition cleanupMonitoredApps (cfg : Config) (now : Z) (m : Store)
  : Store * nat :=
  let afterTtl :=
    fold_left
      (fun (acc : Store * nat) e =>
         if stale cfg now (snd e)
         then (JSMap.delete (fst e) (fst acc), S (snd acc))
         else acc)
      (JSMap.entries m) (m, 0%nat) in
  if (MAX_MONITORED_APPS cfg <? JSMap.size (fst afterTtl))%nat then
    let sortedApps := sort_by update_time (JSMap.entries (fst afterTtl)) in
    let toRemove := (JSMap.size (fst afterTtl) - MAX_MONITORED_APPS cfg)%nat in
    fold_left
      (fun (acc : Store * nat) e => (JSMap.delete (fst e) (fst acc), S (snd acc)))
      (firstn toRemove sortedApps) afterTtl
  else afterTtl.

(** The package names of a list of apps. *)
Definition packages (l : list App) : list (option string) := map packageName l.

(** The apps stored for a device, none when it has no data. *)
Definition apps_of (deviceId : string) (m : Store) : list App :=
  match JSMap.get deviceId m with
  | Some d => Apps.apps d
  | None => []
  end.

(** [GET /api/apps/list]. *)
Definition list (deviceId : option string) (m : Store) : Reply :=
  if negb (truthy deviceId) then Error 400 "deviceId is required"
  else
    match JSMap.get (str_or deviceId "") m with
    | Some deviceData =>
        AppList (Apps.apps deviceData) (Some (lastUpdate deviceData))
                (Some (List.length (Apps.apps deviceData)))
    | None => AppList [] None None
    end.

End Apps.

(* ================================================================== *)
(** ** Remote trigger *)
(* ================================================================== *)

(** [startMirroring(targetDeviceId, options)]: the boolean it returns and
    what it emits, as pairs of the room of [io.to(room)] and the [quality]
    of the [REQUEST_MIRROR] payload. *)
Definition startMirroring (targetDeviceId : string) (quality : option string)
  (s : Server) : bool * list (option string * string) :=
  match JSMap.get targetDeviceId (devices s) with
  | Some device => (true, [(Device.socketId device, str_or quality "high")])
  | None => (false, [])
  end.

(** The sockets in a room (see [recipients]). *)
Definition room_members (s : Server) (room : option string) : list string :=
  match room with
  | Some sid => filter (String.eqb sid) (connected_sockets s)
  | None => []
  end.

(* ================================================================== *)
(** ** Upload completion hooks *)
(* ================================================================== *)

(** The hooks of the resumable-upload server.  The directories depend on
    where the program is installed, [path.join] is Node's and the file
    system is the machine's: the directories, [path.join], the type of file
    systems and what [fs.rename] and [fs.unlink] do to one are parameters
    of the hooks. *)
Module Tus.

Record Metadata := mkMetadata {
  deviceId : option string;
  filename : option string
}.

Record Upload := mkUpload {
  id : string;
  size : Z;
  metadata : option Metadata
}.

(** The payload of [ftp-upload-complete]. *)
Record UploadComplete := mkUploadComplete {
  uploadId : string;
  fromDevice : option string;
  name : string;
  bytes : Z;
  path : string
}.

(** How the promise of a file-system call settles: resolved, with the file
    system it leaves, or rejected with an error. *)
Inductive Outcome (F : Type) :=
| Done (fs : F)
| Failed (err : string).
Arguments Done {F} fs.
Arguments Failed {F} err.

(** [upload.metadata?.field]. *)
Definition meta (field : Metadata -> option string) (upload : Upload)
  : option string :=
  match metadata upload with
  | Some m => field m
  | None => None
  end.


Section Hooks.
Variable path_join : string -> string -> string.
Variables UPLOAD_DIR FINAL_DIR : string.
Variable FS : Type.
(** [await fs.rename(src, dst)]. *)
Variable fs_rename : string -> string -> FS -> Outcome FS.
(** [await fs.unlink(p).catch(() => {})]: the file system after the
    attempt, whether it succeeded or not. *)
Variable fs_unlink : string -> FS -> FS.

Definition tempPath (upload : Upload) : string := path_join UPLOAD_DIR (id upload).

Definition finalName (upload : Upload) (now : Z) : string :=
  str_or (meta filename upload) ("file_" ++ string_of_Z now)%string.

Definition finalPath (upload : Upload) (now : Z) : string :=
  path_join FINAL_DIR (finalName upload now).

Definition metaPath (upload : Upload) : string :=
  (tempPath upload ++ ".json")%string.

(** [onUploadFinish]; [io] tells whether [req.app.get('io')] is set.  The
    result is the completion, the file system, and what was emitted.  An
    error of [fs.rename] is logged and thrown again. *)
Definition onUploadFinish (io : bool) (upload : Upload) (now : Z) (fs : FS)
  : Completion unit * FS * list UploadComplete :=
  match fs_rename (tempPath upload) (finalPath upload now) fs with
  | Failed err => (Throw err, fs, [])
  | Done fs1 =>
      let emitted :=
        if io then [mkUploadComplete (id upload) (meta deviceId upload)
                      (finalName upload now) (size upload)
                      (finalPath upload now)]
        else [] in
      (Normal tt, fs_unlink (metaPath upload) fs1, emitted)
  end.

End Hooks.

(** *** A file system for the examples *)

(** Regular files by path, and the directories that exist. *)
Record Disk := mkDisk {
  files : JSMap.t string (list Z);
  dirs : list string
}.

Definition read (d : Disk) (p : string) : option (list Z) := JSMap.get p (files d).

Fixpoint after_slash (cs : list ascii) : list ascii :=
  match cs with
  | [] => []
  | c :: cs' => if Ascii.eqb c "/" then cs' else after_slash cs'
  end.

(** The path without its last segment. *)
Definition parent (p : string) : string :=
  string_of_list_ascii (rev (after_slash (rev (list_ascii_of_string p)))).

Definition is_dir (d : Disk) (p : string) : bool := existsb (String.eqb p) (dirs d).

(** A rename of a regular file: the source must be there, the directory of
    the destination must exist and the destination must not be a
    directory. *)
Definition disk_rename (src dst : string) (d : Disk) : Outcome Disk :=
  match read d src with
  | None => Failed "ENOENT"
  | Some content =>
      if negb (is_dir d (parent dst)) then Failed "ENOENT"
      else if is_dir d dst then Failed "EISDIR"
      else Done (mkDisk (JSMap.set dst content (JSMap.delete src (files d)))
                        (dirs d))
  end.

Definition disk_unlink (p : string) (d : Disk) : Disk :=
  mkDisk (JSMap.delete p (files d)) (dirs d).

(** A [path.join] for examples: one separator between directory and name. *)
Definition plain_join (dir name : string) : string := (dir ++ "/" ++ name)%string.

End Tus.

(* ================================================================== *)
(** ** Shapes of the stored objects *)
(* ================================================================== *)

(** What the three registration paths write under key [k]. *)
Definition record_ok (k : string) (d : Device.t) : Prop :=
  Device.id d = k /\
  Device.status d = "online" /\
  Device.connectedAt d <> None /\
  Device.lastActivity d <> None /\
  (Device.socketId d = None -> Device.type d = "ftp-only").

(** The object literal of [/api/ftp/browse]. *)
Definition browse_entry (r : PendingRequest.t) : Prop :=
  (exists p, PendingRequest.resolve r = Some p /\ PendingRequest.reject r = Some p) /\
  PendingRequest.timestamp r <> None /\
  PendingRequest.response r = None /\
  PendingRequest.startTime r = None /\
  PendingRequest.timeoutId r = None.

(** The object literal of [/api/ftp/download]. *)
Definition download_entry (r : PendingRequest.t) : Prop :=
  PendingRequest.resolve r = None /\
  PendingRequest.reject r = None /\
  PendingRequest.timestamp r = None /\
  PendingRequest.response r <> None /\
  PendingRequest.startTime r <> None.

Definition shapes_ok (s : Server) : Prop :=
  (forall k d, In (k, d) (JSMap.entries (devices s)) -> record_ok k d) /\
  (forall k r, In (k, r) (JSMap.entries (pendingRequests s)) ->
               browse_entry r \/ download_entry r).

(** A handler that keeps a property of the state, whether it returns or
    throws. *)
Definition keeps {A} (I : Server -> Prop) (h : Handler A) : Prop :=
  forall s, I s -> I (snd (h s)).

(* ================================================================== *)
(** ** Proof support *)
(* ================================================================== *)

Lemma key_eqb_refl {K} `{EqKey K} (k : K) : key_eqb k k = true.
Proof. destruct (key_eqb_spec k k); congruence. Qed.

Lemma key_eqb_neq {K} `{EqKey K} (a b : K) : a <> b -> key_eqb a b = false.
Proof. intro Hn. destruct (key_eqb_spec a b); congruence. Qed.

(** Facts about [Map]s. *)
Module JSMapFacts.
Import JSMap.
Section Facts.
Context {K V : Type} `{EqKey K}.
Implicit Types (m : JSMap.t K V) (k : K) (v : V).

Lemma get_set_eq k v m : get k (set k v m) = Some v.
Proof.
  induction m as [|[k' v'] m IH]; simpl.
  - now rewrite key_eqb_refl.
  - destruct (key_eqb k k') eqn:E; simpl.
    + now rewrite key_eqb_refl.
    + now rewrite E.
Qed.

Lemma get_set_neq k k' v m : k' <> k -> get k' (set k v m) = get k' m.
Proof.
  intro Hn. induction m as [|[k0 v0] m IH]; simpl.
  - now rewrite (key_eqb_neq Hn).
  - destruct (key_eqb_spec k k0) as [->|Hk]; simpl.
    + now rewrite (key_eqb_neq Hn).
    + now rewrite IH.
Qed.

Lemma get_delete_eq k m : get k (delete k m) = None.
Proof.
  induction m as [|[k0 v0] m IH]; simpl; auto.
  destruct (key_eqb k k0) eqn:E; simpl; auto.
  now rewrite E.
Qed.

Lemma get_delete_neq k k' m : k' <> k -> get k' (delete k m) = get k' m.
Proof.
  intro Hn. induction m as [|[k0 v0] m IH]; simpl; auto.
  destruct (key_eqb_spec k k0) as [->|Hk]; simpl.
  - now rewrite (key_eqb_neq Hn).
  - now rewrite IH.
Qed.

Lemma delete_absent k m : get k m = None -> delete k m = m.
Proof.
  induction m as [|[k0 v0] m IH]; simpl; auto.
  destruct (key_eqb k k0) eqn:E; simpl; [discriminate|].
  intro Hg. now rewrite IH.
Qed.

Lemma get_In k v m : get k m = Some v -> In (k, v) m.
Proof.
  induction m as [|[k0 v0] m IH]; simpl; [discriminate|].
  destruct (key_eqb_spec k k0) as [->|Hk].
  - intros [= ->]. now left.
  - intro Hg. right. auto.
Qed.

Lemma get_None_notin k m : get k m = None -> ~ In k (keys m).
Proof.
  induction m as [|[k0 v0] m IH]; simpl; auto.
  destruct (key_eqb_spec k k0) as [->|Hk]; [discriminate|].
  intros Hg [Heq|Hin]; [congruence|]. now apply IH.
Qed.

Lemma notin_get_None k m : ~ In k (keys m) -> get k m = None.
Proof.
  induction m as [|[k0 v0] m IH]; simpl; auto.
  intro Hn. destruct (key_eqb_spec k k0) as [->|Hk].
  - exfalso. apply Hn. now left.
  - apply IH. intro Hin. apply Hn. now right.
Qed.

Lemma In_get k v m : wf m -> In (k, v) m -> get k m = Some v.
Proof.
  unfold wf. induction m as [|[k0 v0] m IH]; simpl; [tauto|].
  intros Hnd [Heq|Hin].
  - inversion Heq; subst. now rewrite key_eqb_refl.
  - inversion Hnd as [|? ? Hnotin Hnd']; subst.
    destruct (key_eqb_spec k k0) as [->|Hk].
    + exfalso. apply Hnotin. change (In (fst (k0, v)) (map fst m)).
      now apply in_map.
    + auto.
Qed.

Lemma keys_delete k m :
  keys (delete k m) = filter (fun k' => negb (key_eqb k k')) (keys m).
Proof.
  induction m as [|[k0 v0] m IH]; simpl; auto.
  destruct (key_eqb k k0); simpl; now rewrite IH.
Qed.

Lemma wf_delete k m : wf m -> wf (delete k m).
Proof.
  unfold wf. rewrite keys_delete. apply NoDup_filter.
Qed.

Lemma keys_set_present k v m :
  get k m <> None -> keys (set k v m) = keys m.
Proof.
  induction m as [|[k0 v0] m IH]; simpl; [congruence|].
  destruct (key_eqb_spec k k0) as [->|Hk]; simpl; auto.
  intro Hg. now rewrite IH.
Qed.

Lemma keys_set_absent k v m :
  get k m = None -> keys (set k v m) = keys m ++ [k].
Proof.
  induction m as [|[k0 v0] m IH]; simpl; auto.
  destruct (key_eqb_spec k k0) as [->|Hk]; simpl; [discriminate|].
  intro Hg. now rewrite IH.
Qed.

Lemma wf_set k v m : wf m -> wf (set k v m).
Proof.
  unfold wf. intro Hnd. destruct (get k m) eqn:Hg.
  - rewrite keys_set_present; [auto | congruence].
  - rewrite keys_set_absent by auto.
    apply NoDup_app; auto.
    + constructor; [simpl; tauto | constructor].
    + intros a Hin [<-|[]]. now apply (get_None_notin _ _ Hg).
Qed.

Lemma wf_empty : wf (@empty K V).
Proof. constructor. Qed.

(** Deleting a key that is present shrinks a well-formed map by one. *)
Lemma size_delete_present k m :
  wf m -> get k m <> None -> S (size (delete k m)) = size m.
Proof.
  unfold wf, size. induction m as [|[k0 v0] m IH]; simpl; [congruence|].
  intros Hnd Hg. inversion Hnd as [|? ? Hnotin Hnd']; subst.
  destruct (key_eqb_spec k k0) as [->|Hk]; simpl.
  - f_equal. fold (delete k0 m). rewrite delete_absent; auto.
    now apply notin_get_None.
  - f_equal. now apply IH.
Qed.

End Facts.
End JSMapFacts.

(** Unfolds the plumbing of handlers down to state transformers. *)
Ltac run_handler :=
  unfold exec, completion, run_callback, browse_continue, call_resolve,
    call_reject, the_response, settle, broadcastDeviceList, io_emit,
    io_to_emit, socket_emit, set_socket_deviceId, res_status, res_json,
    res_write, res_end, res_setHeader, res_update, clearTimeout, try_catch,
    bind, ret, throw, modify, get_state;
  simpl.

Lemma bind_get_state {A} (k : Server -> Handler A) (s : Server) :
  bind get_state k s = k s s.
Proof. reflexivity. Qed.

Lemma socket_deviceId_set_sockets_self sid sock s :
  socket_deviceId sid (set_sockets (JSMap.set sid sock) s) = Socket.deviceId sock.
Proof.
  unfold socket_deviceId; simpl. now rewrite JSMapFacts.get_set_eq.
Qed.

Arguments res_get : simpl never.

Lemma res_get_set r x s :
  res_get r (set_responses (JSMap.set r x) s) = x.
Proof. unfold res_get; simpl. now rewrite JSMapFacts.get_set_eq. Qed.

Lemma res_get_add_emitted r e s : res_get r (add_emitted e s) = res_get r s.
Proof. reflexivity. Qed.

Lemma res_get_set_pendingRequests r f s :
  res_get r (set_pendingRequests f s) = res_get r s.
Proof. reflexivity. Qed.

Lemma res_get_set_timers r f s : res_get r (set_timers f s) = res_get r s.
Proof. reflexivity. Qed.

Ltac res_simpl :=
  rewrite ?res_get_add_emitted, ?res_get_set_pendingRequests,
    ?res_get_set_timers, ?res_get_set.

(** [res.status(code).json({ error })] touches the response only. *)
Lemma status_json_error res code message s :
  let s' := exec (res_status res code ;; res_json res (ReplyError message)) s in
  completion (res_status res code ;; res_json res (ReplyError message)) s
  = Normal tt /\
  nothing_allocated s s' /\
  Res.statusCode (res_get res s') = code /\
  Res.json (res_get res s') = Some (ReplyError message).
Proof.
  run_handler. rewrite !res_get_set. simpl.
  unfold nothing_allocated; simpl. repeat split; reflexivity.
Qed.

Lemma error_kind_404 r message :
  Res.statusCode r = 404 -> Res.json r = Some (ReplyError message) ->
  error_kind r = Some NotFound.
Proof. unfold error_kind. now intros -> ->. Qed.

Lemma error_kind_400 r message :
  Res.statusCode r = 400 -> Res.json r = Some (ReplyError message) ->
  error_kind r =
    if (message =? "Device not connected via WebSocket")%string
    then Some NotConnected else Some InvalidInput.
Proof. unfold error_kind. now intros -> ->. Qed.

Lemma truthy_Some_nonempty d : d <> "" -> truthy (Some d) = true.
Proof.
  intro Hd. unfold truthy. destruct (String.eqb_spec d ""); [contradiction | reflexivity].
Qed.

Lemma str_or_Some_nonempty d b : d <> "" -> str_or (Some d) b = d.
Proof.
  intro Hd. unfold str_or. destruct (String.eqb_spec d ""); [contradiction | reflexivity].
Qed.

Lemma same_but_emitted_refl s : same_but_emitted s s.
Proof. unfold same_but_emitted; repeat split; reflexivity. Qed.

Lemma same_but_emitted_trans s1 s2 s3 :
  same_but_emitted s1 s2 -> same_but_emitted s2 s3 -> same_but_emitted s1 s3.
Proof.
  unfold same_but_emitted. intuition congruence.
Qed.

Lemma run_all_cons h hs s s1 :
  h s = (Normal tt, s1) -> run_all (h :: hs) s = run_all hs s1.
Proof. intro Hh. simpl. unfold bind. now rewrite Hh. Qed.

(** A settle call is recorded and touches, besides the log, only the
    response of what awaited the promise. *)
Lemma settle_spec p o s :
  exists s1,
    settle p o s = (Normal tt, s1) /\
    settleCalls s1 = settleCalls s ++ [(p, o)] /\
    pendingRequests s1 = pendingRequests s /\
    devices s1 = devices s /\
    sockets s1 = sockets s /\
    timers s1 = timers s /\
    promises s1 = promises s /\
    emitted s1 = emitted s.
Proof.
  unfold settle. rewrite bind_get_state. unfold bind at 1. unfold modify at 1.
  destruct (settled p (settleCalls s)).
  - eexists; split; [reflexivity|]. simpl. repeat split; reflexivity.
  - destruct (JSMap.get p (promises s)) as [[res]|].
    + destruct o as [files|message]; run_handler;
        eexists; (split; [reflexivity|]); simpl; repeat split; reflexivity.
    + eexists; split; [reflexivity|]. simpl. repeat split; reflexivity.
Qed.

Lemma has_get_None {V} (k : string) (m : JSMap.t string V) :
  JSMap.get k m = None -> JSMap.has k m = false.
Proof. unfold JSMap.has. now intros ->. Qed.

Lemma has_get_Some {V} (k : string) (m : JSMap.t string V) v :
  JSMap.get k m = Some v -> JSMap.has k m = true.
Proof. unfold JSMap.has. now intros ->. Qed.

(* ================================================================== *)
(** ** Lists: sorting, filtering, deleting keys *)
(* ================================================================== *)

Section ListFacts.
Context {A : Type}.
Implicit Types (l : list A) (f g : A -> bool).

Lemma filter_filter f g l :
  filter f (filter g l) = filter (fun x => g x && f x) l.
Proof.
  induction l as [|x l IH]; simpl; auto.
  destruct (g x); simpl; [destruct (f x)|]; now rewrite IH.
Qed.

Lemma Permutation_filter f l l' :
  Permutation l l' -> Permutation (filter f l) (filter f l').
Proof.
  induction 1 as [|x l l' _ IH|x y l|l l' l'' _ IH1 _ IH2]; simpl.
  - constructor.
  - destruct (f x); [now constructor | exact IH].
  - destruct (f x), (f y); try apply Permutation_refl. apply perm_swap.
  - eapply Permutation_trans; eauto.
Qed.

Lemma filter_none f l : (forall x, In x l -> f x = false) -> filter f l = [].
Proof.
  induction l as [|x l IH]; simpl; auto.
  intro Hall. rewrite (Hall x) by now left. apply IH. auto.
Qed.

Lemma filter_all f l : (forall x, In x l -> f x = true) -> filter f l = l.
Proof.
  induction l as [|x l IH]; simpl; auto.
  intro Hall. rewrite (Hall x) by now left. f_equal. apply IH. auto.
Qed.

Variable key : A -> Z.

Lemma insert_by_Permutation x l : Permutation (insert_by key x l) (x :: l).
Proof.
  induction l as [|y l IH]; simpl.
  - apply Permutation_refl.
  - destruct (key x <=? key y).
    + apply Permutation_refl.
    + eapply Permutation_trans; [apply perm_skip, IH | apply perm_swap].
Qed.

Lemma sort_by_Permutation l : Permutation (sort_by key l) l.
Proof.
  induction l as [|x l IH]; simpl.
  - constructor.
  - eapply Permutation_trans; [apply insert_by_Permutation|].
    now constructor.
Qed.

Let key_le (a b : A) : Prop := key a <= key b.

Lemma insert_by_sorted x l :
  StronglySorted key_le l -> StronglySorted key_le (insert_by key x l).
Proof.
  induction 1 as [|y l Hsorted IH Hall]; simpl.
  - repeat constructor.
  - destruct (Z.leb_spec (key x) (key y)) as [Hle|Hgt].
    + constructor; [now constructor|].
      constructor; [exact Hle|].
      eapply Forall_impl; [|exact Hall].
      intros a Ha. unfold key_le in *. lia.
    + constructor; [exact IH|].
      apply (Permutation_Forall (Permutation_sym (insert_by_Permutation x l))).
      constructor; [unfold key_le; lia | exact Hall].
Qed.

Lemma sort_by_sorted l : StronglySorted key_le (sort_by key l).
Proof.
  induction l as [|x l IH]; simpl; [constructor | now apply insert_by_sorted].
Qed.

(** In a sorted list every element of a prefix is below every element of
    the rest. *)
Lemma sorted_prefix_le n l a b :
  StronglySorted key_le l ->
  In a (firstn n l) -> In b (skipn n l) -> key a <= key b.
Proof.
  intro Hs. revert n. induction Hs as [|x l Hsorted IH Hall]; intros n.
  - destruct n; simpl; tauto.
  - destruct n as [|n]; simpl; [tauto|].
    intros [<-|Ha] Hb.
    + rewrite Forall_forall in Hall. apply Hall.
      rewrite <- (firstn_skipn n l). apply in_or_app. now right.
    + eauto.
Qed.

End ListFacts.

Section DeleteKeys.
Context {V : Type}.
Implicit Types (m : JSMap.t string V) (ks : list string).

Lemma delete_as_filter k m :
  JSMap.delete k m = filter (fun e => negb (String.eqb (fst e) k)) m.
Proof.
  unfold JSMap.delete. apply filter_ext. intros [k' v]; simpl.
  now rewrite String.eqb_sym.
Qed.

Lemma delete_keys_filter ks :
  forall m, delete_keys ks m = filter (fun e => negb (mem_key (fst e) ks)) m.
Proof.
  induction ks as [|k ks IH]; intro m; simpl.
  - symmetry. apply filter_all. reflexivity.
  - unfold delete_keys in *. simpl. rewrite IH, delete_as_filter, filter_filter.
    apply filter_ext. intros [k' v]; simpl. now rewrite negb_orb.
Qed.

Lemma mem_key_In k ks : mem_key k ks = true <-> In k ks.
Proof.
  unfold mem_key. rewrite existsb_exists. split.
  - intros (x & Hin & Heq). apply String.eqb_eq in Heq. now subst.
  - intro Hin. exists k. split; [exact Hin | apply String.eqb_refl].
Qed.

Lemma wf_filter f m : JSMap.wf m -> JSMap.wf (filter f m).
Proof.
  unfold JSMap.wf, JSMap.keys. induction m as [|[k v] m IH]; simpl; auto.
  intro Hnd. inversion Hnd as [|? ? Hnotin Hnd']; subst.
  destruct (f (k, v)); simpl; auto.
  constructor; auto.
  intro Hin. apply Hnotin. apply in_map_iff in Hin.
  destruct Hin as (e & Hfst & He). apply filter_In in He.
  apply in_map_iff. exists e. tauto.
Qed.

Lemma wf_delete_keys ks m : JSMap.wf m -> JSMap.wf (delete_keys ks m).
Proof. rewrite delete_keys_filter. apply wf_filter. Qed.

Lemma wf_Permutation m m' : Permutation m m' -> JSMap.wf m -> JSMap.wf m'.
Proof.
  unfold JSMap.wf, JSMap.keys. intros Hp.
  apply Permutation_NoDup. now apply Permutation_map.
Qed.

(** Looking a key up in a filtered well-formed map. *)
Lemma get_filter f k m :
  JSMap.wf m ->
  JSMap.get k (filter f m) =
    match JSMap.get k m with
    | Some v => if f (k, v) then Some v else None
    | None => None
    end.
Proof.
  intro Hwf. destruct (JSMap.get k m) as [v|] eqn:Hget.
  - destruct (f (k, v)) eqn:Hf.
    + apply JSMapFacts.In_get; [now apply wf_filter|].
      apply filter_In. split; [now apply JSMapFacts.get_In | exact Hf].
    + destruct (JSMap.get k (filter f m)) as [v'|] eqn:Hget'; [|reflexivity].
      apply JSMapFacts.get_In, filter_In in Hget'. destruct Hget' as [Hin Hf'].
      apply (JSMapFacts.In_get _ _ Hwf) in Hin. congruence.
  - destruct (JSMap.get k (filter f m)) as [v'|] eqn:Hget'; [|reflexivity].
    apply JSMapFacts.get_In, filter_In in Hget'. destruct Hget' as [Hin _].
    apply (JSMapFacts.In_get _ _ Hwf) in Hin. congruence.
Qed.

End DeleteKeys.

Lemma get_delete_keys_mem {V} (k : string) (ks : list string)
  (m : JSMap.t string V) :
  In k ks -> JSMap.get k (delete_keys ks m) = None.
Proof.
  intro Hin. rewrite delete_keys_filter.
  destruct (JSMap.get k (filter _ m)) as [v|] eqn:Hget; [|reflexivity].
  apply JSMapFacts.get_In, filter_In in Hget. destruct Hget as [_ Hp].
  simpl in Hp. apply mem_key_In in Hin. rewrite Hin in Hp. discriminate.
Qed.


(* ================================================================== *)
(** ** Registry eviction sweep *)
(* ================================================================== *)

Lemma NoDup_app_disjoint {A} (l1 l2 : list A) (a : A) :
  NoDup (l1 ++ l2) -> In a l1 -> ~ In a l2.
Proof.
  induction l1 as [|x l1 IH]; simpl; [tauto|].
  intros Hnd [->|Hin] Hin2.
  - inversion Hnd as [|? ? Hnotin _]; subst.
    apply Hnotin, in_or_app. now right.
  - inversion Hnd; subst. now apply IH.
Qed.

Lemma stale_iff cfg now d :
  stale cfg now d = true <-> activityTime d < now - DEVICE_TTL cfg.
Proof. unfold stale. rewrite Z.gtb_ltb, Z.ltb_lt. lia. Qed.

Lemma stale_false_iff cfg now d :
  stale cfg now d = false <-> now - DEVICE_TTL cfg <= activityTime d.
Proof. unfold stale. rewrite Z.gtb_ltb, Z.ltb_ge. lia. Qed.

Lemma evict_stale_fold cfg now (l : list (string * Device.t)) :
  forall acc,
    fold_left
      (fun (acc : JSMap.t string Device.t * nat) e =>
         if stale cfg now (snd e)
         then (JSMap.delete (fst e) (fst acc), S (snd acc))
         else acc) l acc
    = (delete_keys (map fst (filter (fun e => stale cfg now (snd e)) l)) (fst acc),
       (snd acc + List.length (filter (fun e => stale cfg now (snd e)) l))%nat).
Proof.
  induction l as [|e l IH]; intros [m n]; simpl.
  - now rewrite Nat.add_0_r.
  - rewrite IH. destruct (stale cfg now (snd e)); simpl; [|reflexivity].
    f_equal. lia.
Qed.

Lemma evict_stale_spec cfg now m :
  evict_stale cfg now m
  = (delete_keys (stale_keys cfg now m) m, List.length (stale_keys cfg now m)).
Proof.
  unfold evict_stale, stale_keys, JSMap.entries. rewrite evict_stale_fold.
  simpl. now rewrite length_map.
Qed.

(** The first loop leaves exactly the records that are not stale, in their
    order. *)
Lemma evict_stale_fresh cfg now m :
  JSMap.wf m -> fst (evict_stale cfg now m) = fresh_devices cfg now m.
Proof.
  intro Hwf. rewrite evict_stale_spec. simpl.
  rewrite delete_keys_filter. unfold fresh_devices.
  apply filter_ext_in. intros [k d] Hin. simpl. f_equal.
  destruct (stale cfg now d) eqn:Hs.
  - apply mem_key_In. unfold stale_keys. apply in_map_iff.
    exists (k, d). split; [reflexivity|]. apply filter_In. now split.
  - destruct (mem_key k (stale_keys cfg now m)) eqn:Hm; [|reflexivity].
    apply mem_key_In in Hm. unfold stale_keys in Hm. apply in_map_iff in Hm.
    destruct Hm as ([k' d'] & Hk & Hin'). simpl in Hk. subst k'.
    apply filter_In in Hin'. destruct Hin' as [Hin' Hs']. simpl in Hs'.
    apply (JSMapFacts.In_get _ _ Hwf) in Hin.
    apply (JSMapFacts.In_get _ _ Hwf) in Hin'. congruence.
Qed.

Lemma enforce_max_fold {V} (l : list (string * V)) :
  forall (acc : JSMap.t string V * nat),
    fold_left (fun acc e => (JSMap.delete (fst e) (fst acc), S (snd acc))) l acc
    = (delete_keys (map fst l) (fst acc), (snd acc + List.length l)%nat).
Proof.
  induction l as [|e l IH]; intros [m n]; simpl.
  - now rewrite Nat.add_0_r.
  - rewrite IH. simpl. f_equal. lia.
Qed.

Lemma enforce_max_spec cfg m n :
  enforce_max cfg (m, n)
  = if (MAX_DEVICES cfg <? JSMap.size m)%nat
    then (delete_keys (map fst (excess cfg m)) m,
          (n + List.length (excess cfg m))%nat)
    else (m, n).
Proof.
  unfold enforce_max, excess, JSMap.entries, entry_time. simpl.
  destruct (MAX_DEVICES cfg <? JSMap.size m)%nat; [|reflexivity].
  now rewrite enforce_max_fold.
Qed.

(** Deleting the keys of the excess leaves the rest of the sorted list, up
    to order. *)
Lemma delete_excess_Permutation cfg m :
  JSMap.wf m ->
  Permutation (delete_keys (map fst (excess cfg m)) m) (kept cfg m).
Proof.
  intro Hwf. rewrite delete_keys_filter.
  set (P := fun e : string * Device.t =>
              negb (mem_key (fst e) (map fst (excess cfg m)))).
  assert (Hperm : Permutation (sort_by entry_time m) m)
    by apply sort_by_Permutation.
  eapply Permutation_trans.
  { apply Permutation_filter, Permutation_sym, Hperm. }
  assert (Hsplit : sort_by entry_time m = excess cfg m ++ kept cfg m)
    by (unfold excess, kept; now rewrite firstn_skipn).
  rewrite Hsplit at 1. rewrite filter_app.
  rewrite (filter_none P (excess cfg m)), (filter_all P (kept cfg m)).
  - apply Permutation_refl.
  - intros e He. subst P. simpl.
    destruct (mem_key (fst e) (map fst (excess cfg m))) eqn:Hm; [|reflexivity].
    exfalso. apply mem_key_In in Hm.
    assert (Hnd : NoDup (map fst (excess cfg m) ++ map fst (kept cfg m))).
    { rewrite <- map_app, <- Hsplit.
      apply (wf_Permutation (Permutation_sym Hperm) Hwf). }
    apply (NoDup_app_disjoint _ _ _ Hnd Hm). now apply in_map.
  - intros e He. subst P. simpl.
    assert (Hm : mem_key (fst e) (map fst (excess cfg m)) = true)
      by (apply mem_key_In; now apply in_map).
    now rewrite Hm.
Qed.

Lemma kept_length cfg m :
  List.length (kept cfg m) = Nat.min (JSMap.size m) (MAX_DEVICES cfg).
Proof.
  unfold kept. rewrite length_skipn.
  rewrite (Permutation_length (sort_by_Permutation entry_time m)).
  unfold JSMap.size. lia.
Qed.

Lemma excess_below_kept cfg m a b :
  In a (excess cfg m) -> In b (kept cfg m) -> entry_time a <= entry_time b.
Proof.
  unfold excess, kept. apply sorted_prefix_le. apply sort_by_sorted.
Qed.

Lemma excess_or_kept cfg m e :
  In e m -> In e (excess cfg m) \/ In e (kept cfg m).
Proof.
  intro Hin. apply in_app_or. unfold excess, kept. rewrite firstn_skipn.
  apply (Permutation_in _ (Permutation_sym (sort_by_Permutation entry_time m))).
  exact Hin.
Qed.

(** The registry after the sweep, in terms of the records that pass the TTL
    check. *)
Lemma sweep_devices_spec cfg now m :
  JSMap.wf m ->
  let fresh := fresh_devices cfg now m in
  fst (sweep_devices cfg now m)
  = if (MAX_DEVICES cfg <? JSMap.size fresh)%nat
    then delete_keys (map fst (excess cfg fresh)) fresh
    else fresh.
Proof.
  intros Hwf fresh. unfold sweep_devices.
  destruct (evict_stale cfg now m) as [m1 n] eqn:He.
  assert (Hm1 : m1 = fresh)
    by (unfold fresh; rewrite <- (evict_stale_fresh cfg now Hwf); now rewrite He).
  subst m1. rewrite enforce_max_spec.
  now destruct (MAX_DEVICES cfg <? JSMap.size fresh)%nat.
Qed.

(** C7.  On a registry with one record per id (as every reachable registry
    is, see [reachable_maps_wf] below), the sweep first deletes
    exactly the records whose activity time is older than [now - DEVICE_TTL]
    (what is left are the records with [now - DEVICE_TTL <= activityTime],
    unchanged and in their order).  If more than [MAX_DEVICES] are left, it
    then deletes the first [size - MAX_DEVICES] of them in ascending order
    of activity time.  Afterwards the registry holds
    [min (number left by the TTL check) MAX_DEVICES] records, so at most
    [MAX_DEVICES]; every survivor is a record that passed the TTL check;
    and every record that was removed is at most as recently active as
    every survivor.  Nothing but the registry changes. *)
Theorem cleanupStaleDevices_evicts_stale_then_excess :
  forall (cfg : Config) (now : Z) (s : Server),
    JSMap.wf (devices s) ->
    let m := devices s in
    let fresh := fresh_devices cfg now m in
    let s' := exec (cleanupStaleDevices cfg now) s in
    let m' := devices s' in
    fst (evict_stale cfg now m) = fresh /\
    (forall k d, JSMap.get k fresh = Some d <->
                 JSMap.get k m = Some d /\ now - DEVICE_TTL cfg <= activityTime d) /\
    m' = (if (MAX_DEVICES cfg <? JSMap.size fresh)%nat
          then delete_keys (map fst (excess cfg fresh)) fresh
          else fresh) /\
    JSMap.size m' = Nat.min (JSMap.size fresh) (MAX_DEVICES cfg) /\
    (JSMap.size m' <= MAX_DEVICES cfg)%nat /\
    (forall k d, JSMap.get k m' = Some d -> JSMap.get k fresh = Some d) /\
    (forall k d k' d',
        JSMap.get k m' = Some d ->
        JSMap.get k' m = Some d' ->
        JSMap.get k' m' = None ->
        activityTime d' <= activityTime d) /\
    completion (cleanupStaleDevices cfg now) s
    = Normal (snd (sweep_devices cfg now m)) /\
    pendingRequests s' = pendingRequests s /\
    sockets s' = sockets s /\
    emitted s' = emitted s.
Proof.
  intros cfg now s Hwf m fresh s' m'.
  assert (Hwf_fresh : JSMap.wf fresh) by (apply wf_filter; exact Hwf).
  assert (Hfresh : forall k d, JSMap.get k fresh = Some d <->
             JSMap.get k m = Some d /\ now - DEVICE_TTL cfg <= activityTime d).
  { intros k d. unfold fresh, fresh_devices. rewrite (get_filter _ k Hwf).
    fold m. simpl. destruct (JSMap.get k m) as [d0|]; [|intuition discriminate].
    destruct (stale cfg now d0) eqn:Hs; simpl.
    - apply stale_iff in Hs. split; [discriminate|].
      intros [[= ->] Hle]. lia.
    - apply stale_false_iff in Hs. split.
      + intros [= ->]. now split.
      + now intros [[= ->] _]. }
  assert (Hm' : m' = (if (MAX_DEVICES cfg <? JSMap.size fresh)%nat
                      then delete_keys (map fst (excess cfg fresh)) fresh
                      else fresh)).
  { unfold m', s', cleanupStaleDevices. run_handler.
    apply (sweep_devices_spec cfg now Hwf). }
  assert (Hsize : JSMap.size m' = Nat.min (JSMap.size fresh) (MAX_DEVICES cfg)).
  { rewrite Hm'.
    destruct (Nat.ltb_spec (MAX_DEVICES cfg) (JSMap.size fresh)) as [Hlt|Hge].
    - unfold JSMap.size at 1.
      rewrite (Permutation_length (delete_excess_Permutation cfg Hwf_fresh)).
      apply kept_length.
    - lia. }
  assert (Hsub : forall k d, JSMap.get k m' = Some d -> JSMap.get k fresh = Some d).
  { intros k d. rewrite Hm'.
    destruct (MAX_DEVICES cfg <? JSMap.size fresh)%nat; [|auto].
    rewrite delete_keys_filter, (get_filter _ k Hwf_fresh).
    destruct (JSMap.get k fresh) as [d0|]; [|discriminate].
    now destruct (negb _). }
  repeat match goal with |- _ /\ _ => split end; auto.
  - now apply evict_stale_fresh.
  - lia.
  - intros k d k' d' Hd Hd' Hnone.
    pose proof (Hsub _ _ Hd) as Hdf. apply Hfresh in Hdf. destruct Hdf as [_ Hdle].
    destruct (Z.lt_ge_cases (activityTime d') (now - DEVICE_TTL cfg)) as [Hold|Hnew];
      [lia|].
    assert (Hd'f : JSMap.get k' fresh = Some d') by (apply Hfresh; now split).
    rewrite Hm' in Hd, Hnone.
    destruct (MAX_DEVICES cfg <? JSMap.size fresh)%nat; [|congruence].
    pose proof (delete_excess_Permutation cfg Hwf_fresh) as Hperm.
    assert (Hwf' : JSMap.wf (delete_keys (map fst (excess cfg fresh)) fresh))
      by now apply wf_delete_keys.
    apply JSMapFacts.get_In in Hd, Hd'f.
    apply (Permutation_in _ Hperm) in Hd.
    destruct (excess_or_kept cfg fresh _ Hd'f) as [Hex|Hkept].
    + apply (excess_below_kept cfg fresh _ _ Hex Hd).
    + apply (Permutation_in _ (Permutation_sym Hperm)) in Hkept.
      apply (JSMapFacts.In_get _ _ Hwf') in Hkept. congruence.
Qed.

Lemma crowded_wf : JSMap.wf (devices Scenario.crowded).
Proof.
  unfold JSMap.wf. simpl.
  repeat (constructor; [simpl; intuition discriminate|]). constructor.
Qed.

(** Five devices, one past the TTL, capacity two: [b] goes for its age,
    then [c] and [e] as the least recently active of the four left. *)
Lemma cleanupStaleDevices_evicts_stale_then_excess_witness :
  let s' := exec (cleanupStaleDevices Scenario.small_cfg 5000) Scenario.crowded in
  JSMap.keys (devices s') = ["a"; "d"] /\
  (JSMap.size (devices s') <= 2)%nat.
Proof.
  pose proof (@cleanupStaleDevices_evicts_stale_then_excess Scenario.small_cfg
                5000 Scenario.crowded crowded_wf) as H.
  cbv zeta in H. destruct H as (_ & _ & Hm' & _ & Hle & _).
  split.
  - rewrite Hm'. reflexivity.
  - exact Hle.
Defined.

(* ================================================================== *)
(** ** Liveness pings *)
(* ================================================================== *)






(* ================================================================== *)
(** ** Broadcast of registry changes *)
(* ================================================================== *)

(** The sweep of the registry emits nothing, whatever it removes. *)
Lemma cleanupStaleDevices_emits_nothing cfg now s :
  emitted (exec (cleanupStaleDevices cfg now) s) = emitted s.
Proof. reflexivity. Qed.

(** C4, at the failing input.  The device registered at [t0] is evicted by
    the sweep that runs just after its TTL: the registry changes from one
    record to none while two observers are connected, and no [devices]
    event is emitted. *)
Theorem sweep_evicts_without_broadcast :
  let s := Scenario.registered in
  let now := Scenario.t0 + DEVICE_TTL CLEANUP_CONFIG + 1 in
  let s' := exec (cleanupStaleDevices CLEANUP_CONFIG now) s in
  JSMap.keys (devices s) = ["dev-1"] /\
  devices s' = [] /\
  connected_sockets s' = ["sock-A"; "sock-W"] /\
  emitted s' = emitted s.
Proof. vm_compute. repeat split; reflexivity. Qed.

(** The sibling paths do broadcast: both socket registrations, the HTTP
    registration and the disconnect of a registered socket end with the
    snapshot of the registry they leave behind, sent with [io.emit]. *)
Lemma on_register_broadcasts sid (data : RegisterData.t) uuid now s :
  let s' := exec (on_register sid (Some data) uuid now) s in
  let deviceId := str_or (RegisterData.deviceId data) uuid in
  devices s' = JSMap.set deviceId (registered_device sid deviceId data now) (devices s) /\
  emitted s' = emitted s ++ [SocketEmit sid "registered" (PRegistered deviceId);
                             IoEmit "devices" (PDevices (snapshot s'))].
Proof.
  unfold on_register. run_handler. split; [reflexivity|].
  now rewrite <- app_assoc.
Qed.

Lemma on_register_device_broadcasts sid (data : RegisterData.t) uuid now s :
  let s' := exec (on_register_device sid (Some data) uuid now) s in
  let deviceId := str_or (RegisterData.deviceId data) uuid in
  devices s' = JSMap.set deviceId (registered_device sid deviceId data now) (devices s) /\
  emitted s' = emitted s ++ [SocketEmit sid "registered" (PRegistered deviceId);
                             IoEmit "devices" (PDevices (snapshot s'))].
Proof.
  unfold on_register_device. run_handler. split; [reflexivity|].
  now rewrite <- app_assoc.
Qed.

Lemma ftp_register_broadcasts res deviceId deviceName ipAddress now s :
  truthy deviceId = true -> truthy ipAddress = true ->
  let s' := exec (ftp_register res deviceId deviceName ipAddress now) s in
  emitted s' = emitted s ++ [IoEmit "devices" (PDevices (snapshot s'))].
Proof.
  intros Hd Hi. unfold ftp_register. rewrite Hd, Hi. run_handler. reflexivity.
Qed.

(* ================================================================== *)
(** ** Transport disconnect *)
(* ================================================================== *)

(** When a socket disconnects, the handler deletes the registry record
    stored under the socket's own [deviceId] and broadcasts the new
    snapshot (it does nothing when the socket has no [deviceId]); every
    other record stays, and the correlation table, the timers, the
    promises, the settle calls and the open responses are exactly what they
    were: no pending entry is resolved, rejected or removed. *)
Theorem disconnect_frame :
  forall (sid : string) (s : Server),
    let s' := exec (disconnect sid) s in
    completion (disconnect sid) s = Normal tt /\
    pendingRequests s' = pendingRequests s /\
    timers s' = timers s /\
    promises s' = promises s /\
    settleCalls s' = settleCalls s /\
    responses s' = responses s /\
    (if truthy (socket_deviceId sid s) then
       devices s' = JSMap.delete (str_or (socket_deviceId sid s) "") (devices s) /\
       emitted s' = emitted s ++ [IoEmit "devices" (PDevices (snapshot s'))]
     else devices s' = devices s /\ emitted s' = emitted s) /\
    (forall k, socket_deviceId sid s <> Some k ->
               JSMap.get k (devices s') = JSMap.get k (devices s)).
Proof.
  intros sid s. unfold disconnect, transport_close, on_disconnect.
  run_handler. rewrite socket_deviceId_set_sockets_self. simpl.
  destruct (truthy (socket_deviceId sid s)) eqn:Ht; simpl.
  - repeat split; auto.
    intros k Hk. apply JSMapFacts.get_delete_neq.
    unfold truthy, str_or in *. destruct (socket_deviceId sid s) as [d|]; [|discriminate].
    destruct (d =? "")%string; [discriminate|]. congruence.
  - repeat split; auto.
Qed.

(* ================================================================== *)
(** ** Signaling relay *)
(* ================================================================== *)

(** C5.  An offer, answer or ICE candidate for a [targetDeviceId] that has
    no record emits nothing.  When a record is found the handler emits
    [{fromDeviceId, payload}] once, to the room named by the record's
    [socketId]: a socket receives it exactly when it is connected and its
    id is that [socketId], so for a record whose [socketId] is [null]
    nobody receives it.  The registry, the correlation table and the
    sockets are left as they were. *)
Theorem signaling_relay_forwarding :
  forall (k : SignalKind) (sid : string) (data : SignalData.t) (s : Server),
    let s' := exec (on_signal k sid data) s in
    completion (on_signal k sid data) s = Normal tt /\
    devices s' = devices s /\
    pendingRequests s' = pendingRequests s /\
    sockets s' = sockets s /\
    match JSMap.get (SignalData.targetDeviceId data) (devices s) with
    | None => emitted s' = emitted s
    | Some target =>
        let e := IoToEmit (Device.socketId target) (signal_event k)
                   (signal_payload k (socket_deviceId sid s)
                                   (SignalData.payload data)) in
        emitted s' = emitted s ++ [e] /\
        (forall receiver,
            In receiver (recipients s' e) <->
            Device.socketId target = Some receiver /\
            In receiver (connected_sockets s))
    end.
Proof.
  intros k sid data s.
  assert (Hrec : forall (target : Device.t) ev pl receiver,
             In receiver (recipients s (IoToEmit (Device.socketId target) ev pl)) <->
             Device.socketId target = Some receiver /\
             In receiver (connected_sockets s)).
  { intros target ev pl receiver. simpl.
    destruct (Device.socketId target) as [handle|]; simpl.
    - rewrite filter_In, String.eqb_eq. split.
      + intros [Hin ->]. now split.
      + intros [[= ->] Hin]. now split.
    - split; [tauto | intros [[=] _]]. }
  destruct k; unfold on_signal, on_offer, on_answer, on_ice_candidate;
    unfold exec, completion; rewrite !bind_get_state;
    destruct (JSMap.get (SignalData.targetDeviceId data) (devices s))
      as [target|]; cbv zeta;
    (repeat match goal with |- _ /\ _ => split end);
    try reflexivity;
    intro receiver;
    match goal with
    | |- In _ (recipients _ (IoToEmit _ ?ev ?pl)) <-> _ =>
        exact (Hrec target ev pl receiver)
    end.
Qed.

(** The scenario of the HTTP-registered device: an offer aimed at it is
    emitted to the [null] room and nobody receives it. *)
Example offer_to_ftp_only_reaches_nobody :
  let s' := exec (on_offer "sock-A" (SignalData.mk "dev-2" (JStr "v=0")))
                 Scenario.ftp_only in
  emitted s' =
    emitted Scenario.ftp_only
    ++ [IoToEmit None "offer" (POffer (Some "dev-1") (JStr "v=0"))] /\
  recipients s' (IoToEmit None "offer" (POffer (Some "dev-1") (JStr "v=0"))) = [].
Proof. vm_compute. split; reflexivity. Qed.

(* ================================================================== *)
(** ** Browse: failures detected at request time *)
(* ================================================================== *)

(** C8 as the spec states it fails for the empty device id: no record is
    stored under it, yet the answer is the 400 of a missing parameter, not
    [NotFound]. *)
Lemma browse_empty_deviceId_is_not_NotFound :
  JSMap.get "" (devices initial) = None /\
  error_kind (res_get 0 (exec (browse 0 (Some "") (Some "/") Scenario.t0 "a1b2c3d4e")
                              initial))
  = Some InvalidInput.
Proof. vm_compute. split; reflexivity. Qed.

(** C8, amended.  For a device id that is not empty, browse answers at once
    with [NotFound] (404) when the registry has no record for it, and with
    [NotConnected] (400) when the record's [socketId] is [null]; a missing
    or empty device id is answered with [InvalidInput] (400) before the
    registry is consulted.  In all three cases the handler returns
    normally, no request id is generated, nothing is emitted, and registry,
    correlation table, timers and promises are unchanged. *)
Theorem browse_fails_at_request_time :
  forall (s : Server) (res : nat) (deviceId : string) (path : option string)
         (now : Z) (random : string),
    deviceId <> "" ->
    let run d := exec (browse res d path now random) s in
    (JSMap.get deviceId (devices s) = None ->
       completion (browse res (Some deviceId) path now random) s = Normal tt /\
       error_kind (res_get res (run (Some deviceId))) = Some NotFound /\
       nothing_allocated s (run (Some deviceId))) /\
    (forall device,
       JSMap.get deviceId (devices s) = Some device ->
       Device.socketId device = None ->
       completion (browse res (Some deviceId) path now random) s = Normal tt /\
       error_kind (res_get res (run (Some deviceId))) = Some NotConnected /\
       nothing_allocated s (run (Some deviceId))) /\
    (error_kind (res_get res (run None)) = Some InvalidInput /\
     nothing_allocated s (run None) /\
     error_kind (res_get res (run (Some ""))) = Some InvalidInput /\
     nothing_allocated s (run (Some ""))).
Proof.
  intros s res deviceId path now random Hd run.
  subst run. unfold browse.
  rewrite (truthy_Some_nonempty Hd), (str_or_Some_nonempty _ Hd).
  cbn [negb truthy String.eqb].
  split; [|split].
  - intro Hget. unfold exec, completion. rewrite !bind_get_state, Hget.
    fold (exec (res_status res 404 ;;
                res_json res (ReplyError "Device not found or offline")) s).
    fold (completion (res_status res 404 ;;
                res_json res (ReplyError "Device not found or offline")) s).
    destruct (status_json_error res 404 "Device not found or offline" s)
      as (Hc & Hn & Hs & Hj).
    repeat split; try apply Hn; auto. eapply error_kind_404; eauto.
  - intros device Hget Hsock.
    unfold exec, completion. rewrite !bind_get_state, Hget, Hsock.
    cbn [negb truthy].
    fold (exec (res_status res 400 ;;
                res_json res (ReplyError "Device not connected via WebSocket")) s).
    fold (completion (res_status res 400 ;;
                res_json res (ReplyError "Device not connected via WebSocket")) s).
    destruct (status_json_error res 400 "Device not connected via WebSocket" s)
      as (Hc & Hn & Hs & Hj).
    repeat split; try apply Hn; auto.
    now rewrite (error_kind_400 _ Hs Hj).
  - destruct (status_json_error res 400 "deviceId is required" s)
      as (Hc & Hn & Hs & Hj).
    repeat split; try apply Hn; now rewrite (error_kind_400 _ Hs Hj).
Qed.

Lemma browse_fails_at_request_time_witness :
  let run d := exec (browse 5 d (Some "/") Scenario.t0 "a1b2c3d4e") Scenario.ftp_only in
  error_kind (res_get 5 (run (Some "dev-9"))) = Some NotFound /\
  error_kind (res_get 5 (run (Some "dev-2"))) = Some NotConnected.
Proof.
  assert (Hne9 : "dev-9" <> "") by discriminate.
  assert (Hne2 : "dev-2" <> "") by discriminate.
  split.
  - apply (browse_fails_at_request_time Scenario.ftp_only 5 (Some "/")
             Scenario.t0 "a1b2c3d4e" Hne9). reflexivity.
  - eapply (browse_fails_at_request_time Scenario.ftp_only 5 (Some "/")
              Scenario.t0 "a1b2c3d4e" Hne2); reflexivity.
Defined.

(* ================================================================== *)
(** ** Allocation of correlation ids *)
(* ================================================================== *)

(** A browse request that passes the checks parks [{resolve, reject,
    timestamp}] of a new promise under a generated id, schedules the
    30-second timeout closure for it, and sends the tagged request to the
    device's socket. *)
Lemma browse_allocates res deviceId device handle path now random s :
  deviceId <> "" ->
  JSMap.get deviceId (devices s) = Some device ->
  Device.socketId device = Some handle ->
  handle <> "" ->
  let requestId := generateRequestId now random in
  let p := nextPromise s in
  let s' := exec (browse res (Some deviceId) path now random) s in
  JSMap.get requestId (pendingRequests s')
  = Some (PendingRequest.mk (Some p) (Some p) (Some now) None None None) /\
  JSMap.get (nextTimer s) (timers s')
  = Some (mkTimer (BrowseTimeout requestId p) (now + 30000)) /\
  JSMap.get p (promises s') = Some (BrowseAwait res) /\
  emitted s' =
    emitted s ++ [IoToEmit (Some handle) "ftp-list-request"
                    (PListRequest requestId
                       (match path with Some p => p | None => "/" end))].
Proof.
  intros Hd Hget Hsock Hh. unfold browse.
  rewrite (truthy_Some_nonempty Hd), (str_or_Some_nonempty _ Hd).
  cbn [negb]. unfold exec. rewrite bind_get_state, Hget, Hsock.
  rewrite (truthy_Some_nonempty Hh). cbn [negb].
  unfold new_promise, setTimeout. run_handler.
  rewrite !JSMapFacts.get_set_eq. repeat split; reflexivity.
Qed.

(** A download request that passes the checks parks [{response, startTime,
    timeoutId}] under a generated id, with the 10-minute closure as its
    timer. *)
Lemma header_value_ok_app (a b : string) :
  header_value_ok (a ++ b) = header_value_ok a && header_value_ok b.
Proof.
  induction a as [|c a IH]; simpl; [reflexivity|].
  now rewrite IH, andb_assoc.
Qed.

(** The value of [Content-Disposition] is refused exactly when the file
    name is. *)
Lemma content_disposition_ok (f : string) :
  header_value_ok ("attachment; filename=" ++ dquote ++ f ++ dquote)
  = header_value_ok f.
Proof.
  rewrite !header_value_ok_app.
  change (header_value_ok "attachment; filename=") with true.
  change (header_value_ok dquote) with true.
  now rewrite andb_true_r.
Qed.

Lemma content_type_ok : header_value_ok "application/octet-stream" = true.
Proof. reflexivity. Qed.

Lemma transfer_encoding_ok : header_value_ok "chunked" = true.
Proof. reflexivity. Qed.

(** Setting a header on a response whose headers were not sent, with a
    value Node accepts. *)
Lemma res_setHeader_run {B} r h v (k : unit -> Handler B) s :
  Res.headersSent (res_get r s) = false ->
  header_value_ok v = true ->
  bind (res_setHeader r h v) k s
  = k tt (set_responses
            (JSMap.set r
               (Res.mk (Res.headersSent (res_get r s)) (Res.statusCode (res_get r s))
                       (Res.headers (res_get r s) ++ [(h, v)])
                       (Res.body (res_get r s)) (Res.json (res_get r s))
                       (Res.ended (res_get r s)))) s).
Proof.
  intros Hsent Hv. unfold res_setHeader, res_update, modify, bind, get_state.
  simpl. rewrite Hv, Hsent. simpl. rewrite Hsent. reflexivity.
Qed.

(** Setting a header to a value Node refuses throws and changes nothing. *)
Lemma res_setHeader_refused {B} r h v (k : unit -> Handler B) s :
  header_value_ok v = false ->
  exists message,
    bind (res_setHeader r h v) k s = (Throw message, s) /\
    (Res.headersSent (res_get r s) = false ->
     message = ("Invalid character in header content [" ++ dquote ++ h ++ dquote
                ++ "]")%string).
Proof.
  intro Hv. unfold res_setHeader, bind, get_state. simpl. rewrite Hv.
  destruct (Res.headersSent (res_get r s)); eexists; split;
    first [reflexivity | discriminate].
Qed.

(** The [try] block of the download endpoint on a fresh response and a file
    name a header can carry: the three headers are set and nothing is
    caught. *)
Ltac download_try_block Hsent Hok :=
  unfold catch;
  rewrite res_setHeader_run;
    [ | exact Hsent | rewrite content_disposition_ok; exact Hok ];
  rewrite res_setHeader_run;
    [ | repeat first [rewrite res_get_set | progress cbn [Res.headersSent]];
        exact Hsent
      | exact content_type_ok ];
  rewrite res_setHeader_run;
    [ | repeat first [rewrite res_get_set | progress cbn [Res.headersSent]];
        exact Hsent
      | exact transfer_encoding_ok ].

Lemma download_allocates res deviceId device handle path filename now random s :
  deviceId <> "" -> path <> "" ->
  JSMap.get deviceId (devices s) = Some device ->
  Device.socketId device = Some handle ->
  handle <> "" ->
  Res.headersSent (res_get res s) = false ->
  header_value_ok (str_or filename "download") = true ->
  let requestId := generateRequestId now random in
  let tid := nextTimer s in
  let s' := exec (download res (Some deviceId) (Some path) filename now random) s in
  JSMap.get requestId (pendingRequests s')
  = Some (PendingRequest.mk None None None (Some res) (Some now) (Some tid)) /\
  JSMap.get tid (timers s')
  = Some (mkTimer (DownloadTimeout requestId res) (now + 600000)) /\
  emitted s' =
    emitted s ++ [IoToEmit (Some handle) "ftp-download-request"
                    (PDownloadRequest requestId path)].
Proof.
  intros Hd Hp Hget Hsock Hh Hsent Hok. unfold download.
  rewrite (truthy_Some_nonempty Hd), (truthy_Some_nonempty Hp),
    (str_or_Some_nonempty _ Hd), (str_or_Some_nonempty _ Hp).
  cbn [negb orb]. unfold exec. rewrite bind_get_state, Hget, Hsock.
  rewrite (truthy_Some_nonempty Hh). cbn [negb].
  download_try_block Hsent Hok.
  unfold setTimeout. run_handler.
  rewrite !JSMapFacts.get_set_eq. repeat split; reflexivity.
Qed.

(* ================================================================== *)
(** ** Resolution of a correlation id *)
(* ================================================================== *)

(** For an id that is not pending, the two response handlers return
    normally and only add their broadcast. *)
Lemma list_response_unknown_id sid data s :
  JSMap.get (ListResponse.requestId data) (pendingRequests s) = None ->
  on_ftp_list_response sid data s
  = (Normal tt,
     add_emitted (IoEmit "ftp-list-response"
        (PListResponse (ListResponse.requestId data) (socket_deviceId sid s)
           (ListResponse.files data) (ListResponse.error data))) s).
Proof.
  intro Hget. unfold on_ftp_list_response.
  rewrite bind_get_state, Hget. reflexivity.
Qed.

Lemma chunk_unknown_id sid data s :
  JSMap.get (DownloadChunk.requestId data) (pendingRequests s) = None ->
  on_ftp_download_chunk sid data s
  = (Normal tt,
     add_emitted (IoEmit "ftp-download-chunk"
        (PDownloadChunk (DownloadChunk.requestId data) (socket_deviceId sid s)
           (DownloadChunk.chunk data) (DownloadChunk.isLast data)
           (DownloadChunk.error data))) s).
Proof.
  intro Hget. unfold on_ftp_download_chunk.
  rewrite bind_get_state, Hget. reflexivity.
Qed.

(** Once the id is gone, a response event only adds its broadcast and a
    timeout closure does nothing. *)
Lemma resolution_of_absent_id requestId p ev s :
  JSMap.get requestId (pendingRequests s) = None ->
  exists s', resolution_handler requestId p ev s = (Normal tt, s') /\
             same_but_emitted s s'.
Proof.
  intro Hget. destruct ev as [sid files error|]; simpl.
  - rewrite list_response_unknown_id by exact Hget.
    eexists; split; [reflexivity|]. unfold same_but_emitted; simpl.
    repeat split; reflexivity.
  - unfold browse_timeout. rewrite bind_get_state, (has_get_None _ _ Hget).
    eexists; split; [reflexivity|]. apply same_but_emitted_refl.
Qed.

Lemma later_resolutions_are_noops requestId p later :
  forall s,
    JSMap.get requestId (pendingRequests s) = None ->
    exists s', run_all (map (resolution_handler requestId p) later) s
               = (Normal tt, s') /\
               same_but_emitted s s'.
Proof.
  induction later as [|ev later IH]; intros s Hget.
  - exists s. split; [reflexivity | apply same_but_emitted_refl].
  - destruct (resolution_of_absent_id requestId p ev s Hget) as (s1 & Hrun & Hsame).
    destruct (IH s1) as (s2 & Hrest & Hsame2).
    + destruct Hsame as (_ & -> & _). exact Hget.
    + exists s2. split.
      * simpl map. now rewrite (@run_all_cons _ _ _ _ Hrun).
      * eapply same_but_emitted_trans; eauto.
Qed.

(** The first resolution: one settle call with its outcome, and the entry
    is deleted. *)
Lemma first_resolution requestId request p ev s :
  JSMap.get requestId (pendingRequests s) = Some request ->
  PendingRequest.resolve request = Some p ->
  PendingRequest.reject request = Some p ->
  exists s1,
    resolution_handler requestId p ev s = (Normal tt, s1) /\
    settleCalls s1 = settleCalls s ++ [(p, resolution_outcome ev)] /\
    pendingRequests s1 = JSMap.delete requestId (pendingRequests s).
Proof.
  intros Hget Hres Hrej. destruct ev as [sid files error|]; simpl.
  - unfold on_ftp_list_response; simpl. rewrite bind_get_state, Hget.
    unfold call_reject, call_resolve. rewrite Hres, Hrej.
    destruct (truthy error).
    + destruct (settle_spec p (Rejected (str_or error "")) s)
        as (s1 & Hs & Hcalls & Hpend & _).
      unfold bind. rewrite Hs. simpl.
      eexists; split; [reflexivity|]. simpl. now rewrite Hcalls, Hpend.
    + destruct (settle_spec p (Fulfilled files) s)
        as (s1 & Hs & Hcalls & Hpend & _).
      unfold bind. rewrite Hs. simpl.
      eexists; split; [reflexivity|]. simpl. now rewrite Hcalls, Hpend.
  - unfold browse_timeout. rewrite bind_get_state, (has_get_Some _ _ Hget).
    unfold bind, modify.
    destruct (settle_spec p (Rejected "Request timeout")
                (set_pendingRequests (JSMap.delete requestId) s))
      as (s1 & Hs & Hcalls & Hpend & _).
    rewrite Hs. eexists; split; [reflexivity|]. now rewrite Hcalls, Hpend.
Qed.

Lemma promise_state_app p calls o :
  promise_state p (calls ++ [(p, o)]) =
    match promise_state p calls with
    | Some o' => Some o'
    | None => Some o
    end.
Proof.
  unfold promise_state. induction calls as [|[q o'] calls IH]; simpl.
  - now rewrite Nat.eqb_refl.
  - destruct (Nat.eqb q p); [reflexivity | exact IH].
Qed.

(** For a pending entry whose [resolve] and [reject] settle the promise
    [p], as browse stores them, whichever comes first of a device response for the id
    (resolving with the files, or rejecting with the error) and the timeout
    closure of the request makes exactly one settle call, with its own
    outcome, and deletes the entry.  Every later response event or timeout
    firing for that id returns normally and changes nothing but the log of
    emitted events: no further settle call, the entry is not inserted
    again, and the state of the promise stays the one the first resolution
    gave it (or the one it already had). *)
Theorem correlation_id_resolves_at_most_once :
  forall (s : Server) (requestId : string) (request : PendingRequest.t)
         (p : nat) (first : Resolution) (later : list Resolution),
    JSMap.get requestId (pendingRequests s) = Some request ->
    PendingRequest.resolve request = Some p ->
    PendingRequest.reject request = Some p ->
    let s1 := exec (resolution_handler requestId p first) s in
    let rest := run_all (map (resolution_handler requestId p) later) in
    let s2 := exec rest s1 in
    completion (resolution_handler requestId p first) s = Normal tt /\
    settleCalls s1 = settleCalls s ++ [(p, resolution_outcome first)] /\
    pendingRequests s1 = JSMap.delete requestId (pendingRequests s) /\
    JSMap.get requestId (pendingRequests s1) = None /\
    completion rest s1 = Normal tt /\
    same_but_emitted s1 s2 /\
    JSMap.get requestId (pendingRequests s2) = None /\
    promise_state p (settleCalls s2) =
      match promise_state p (settleCalls s) with
      | Some o => Some o
      | None => Some (resolution_outcome first)
      end.
Proof.
  intros s requestId request p first later Hget Hres Hrej s1 rest s2.
  destruct (@first_resolution requestId request p first s Hget Hres Hrej) as (s1' & Hrun & Hcalls & Hpend).
  assert (Hs1 : s1 = s1') by (unfold s1, exec; now rewrite Hrun).
  assert (Hgone : JSMap.get requestId (pendingRequests s1) = None).
  { rewrite Hs1, Hpend. apply JSMapFacts.get_delete_eq. }
  destruct (later_resolutions_are_noops requestId p later s1 Hgone)
    as (s2' & Hrest & Hsame).
  assert (Hs2 : s2 = s2') by (unfold s2, rest, exec; now rewrite Hrest).
  repeat split.
  - unfold completion. now rewrite Hrun.
  - now rewrite Hs1.
  - now rewrite Hs1.
  - exact Hgone.
  - unfold completion, rest. now rewrite Hrest.
  - rewrite Hs2. apply Hsame.
  - rewrite Hs2. apply Hsame.
  - rewrite Hs2. apply Hsame.
  - rewrite Hs2. apply Hsame.
  - rewrite Hs2. apply Hsame.
  - rewrite Hs2. apply Hsame.
  - rewrite Hs2. apply Hsame.
  - rewrite Hs2. apply Hsame.
  - rewrite Hs2. apply Hsame.
  - rewrite Hs2. destruct Hsame as (_ & -> & _). exact Hgone.
  - rewrite Hs2. destruct Hsame as (_ & _ & _ & _ & _ & _ & _ & -> & _).
    rewrite Hs1, Hcalls. apply promise_state_app.
Qed.

Lemma correlation_id_resolves_at_most_once_witness :
  let first := ResponseArrives "sock-A" (JArr [JStr "DCIM"]) None in
  let later := [TimeoutFires; ResponseArrives "sock-A" (JArr []) (Some "late")] in
  let s1 := exec (resolution_handler Scenario.browse_id 0 first) Scenario.browsing in
  let s2 := exec (run_all (map (resolution_handler Scenario.browse_id 0) later)) s1 in
  settleCalls s1 = [(0%nat, Fulfilled (JArr [JStr "DCIM"]))] /\
  same_but_emitted s1 s2.
Proof.
  pose proof (@correlation_id_resolves_at_most_once Scenario.browsing
                Scenario.browse_id
                (PendingRequest.mk (Some 0%nat) (Some 0%nat) (Some Scenario.t0)
                                   None None None)
                0%nat (ResponseArrives "sock-A" (JArr [JStr "DCIM"]) None)
                [TimeoutFires; ResponseArrives "sock-A" (JArr []) (Some "late")]
                eq_refl eq_refl eq_refl) as H.
  cbv zeta in H. destruct H as (_ & Hcalls & _ & _ & _ & Hsame & _).
  split; [exact Hcalls | exact Hsame].
Defined.

(** C1, at the failing input.  The id of a download in flight is in the
    table, but a list response for it resolves nothing: the handler finds
    the entry, calls its [resolve] (or, for a response with an error, its
    [reject]), which the download entry does not have, and throws.  No
    result is delivered (no settle call, the HTTP response is neither
    written nor ended) and the entry is not removed.  A second response for
    the id is therefore no no-op: it finds the entry again and throws
    again. *)
Theorem list_response_leaves_download_unresolved :
  let s := Scenario.downloading in
  let answer := ListResponse.mk Scenario.download_id (JArr [JStr "DCIM"]) None in
  let failure :=
    ListResponse.mk Scenario.download_id JNull (Some "no such directory") in
  let s1 := exec (on_ftp_list_response "sock-A" answer) s in
  let s2 := exec (on_ftp_list_response "sock-A" answer) s1 in
  JSMap.has Scenario.download_id (pendingRequests s) = true /\
  completion (on_ftp_list_response "sock-A" answer) s
  = Throw "TypeError: pendingRequest.resolve is not a function" /\
  completion (on_ftp_list_response "sock-A" failure) s
  = Throw "TypeError: pendingRequest.reject is not a function" /\
  JSMap.has Scenario.download_id (pendingRequests s1) = true /\
  JSMap.has Scenario.download_id
    (pendingRequests (exec (on_ftp_list_response "sock-A" failure) s)) = true /\
  settleCalls s1 = [] /\
  Res.json (res_get 7 s1) = None /\
  Res.body (res_get 7 s1) = [] /\
  Res.ended (res_get 7 s1) = 0%nat /\
  completion (on_ftp_list_response "sock-A" answer) s1
  = Throw "TypeError: pendingRequest.resolve is not a function" /\
  JSMap.has Scenario.download_id (pendingRequests s2) = true.
Proof. vm_compute. repeat split; reflexivity. Qed.

(* ================================================================== *)
(** ** The pending-request sweep *)
(* ================================================================== *)

Lemma cleanup_request_spec cfg now removed e s :
  exists s1,
    cleanup_request cfg now removed e s
    = (Normal (if expired cfg now e then S removed else removed), s1) /\
    pendingRequests s1
    = (if expired cfg now e
       then JSMap.delete (fst e) (pendingRequests s)
       else pendingRequests s) /\
    timers s1 = timers s /\
    emitted s1 = emitted s.
Proof.
  unfold cleanup_request, expired.
  destruct (now - num_or (PendingRequest.timestamp (snd e)) 0
            >? PENDING_REQUEST_TIMEOUT cfg).
  - destruct (PendingRequest.reject (snd e)) as [p|].
    + destruct (settle_spec p (Rejected "Request timeout") s)
        as (s1 & Hs & _ & Hpend & _ & _ & Htim & _ & Hem).
      unfold bind at 1. rewrite Hs. run_handler.
      eexists; split; [reflexivity|]. simpl. now rewrite Hpend, Htim, Hem.
    + run_handler. eexists; split; [reflexivity|]. simpl. auto.
  - eexists; split; [reflexivity|]. auto.
Qed.

Lemma cleanup_requests_fold cfg now (l : list (string * PendingRequest.t)) :
  forall removed s,
    exists s',
      fold_handler (cleanup_request cfg now) l removed s
      = (Normal (removed + List.length (filter (expired cfg now) l))%nat, s') /\
      pendingRequests s'
      = delete_keys (map fst (filter (expired cfg now) l)) (pendingRequests s) /\
      timers s' = timers s /\
      emitted s' = emitted s.
Proof.
  induction l as [|e l IH]; intros removed s; simpl.
  - exists s. rewrite Nat.add_0_r. repeat split; reflexivity.
  - destruct (cleanup_request_spec cfg now removed e s)
      as (s1 & Hstep & Hpend & Htim & Hem).
    unfold bind. rewrite Hstep.
    destruct (IH (if expired cfg now e then S removed else removed) s1)
      as (s' & Hrest & Hpend' & Htim' & Hem').
    exists s'. rewrite Hrest, Hpend', Htim', Hem', Hpend, Htim, Hem.
    destruct (expired cfg now e); simpl; repeat split; try reflexivity.
    f_equal. f_equal. lia.
Qed.

(** The sweep deletes the entries that pass its age test, and only those
    keys; it touches neither timers nor sockets. *)
Lemma cleanupPendingRequests_spec cfg now s :
  let gone := filter (expired cfg now) (pendingRequests s) in
  exists s',
    cleanupPendingRequests cfg now s = (Normal (List.length gone), s') /\
    pendingRequests s' = delete_keys (map fst gone) (pendingRequests s) /\
    timers s' = timers s /\
    emitted s' = emitted s.
Proof.
  unfold cleanupPendingRequests. rewrite bind_get_state.
  apply (cleanup_requests_fold cfg now (JSMap.entries (pendingRequests s)) 0 s).
Qed.

(** X27.  Any entry without a [timestamp] is swept as soon as the clock is
    past the configured age, whenever it was created: that is every
    download entry, on every run of the sweep. *)
Lemma sweep_deletes_entries_without_timestamp cfg now s requestId request :
  JSMap.get requestId (pendingRequests s) = Some request ->
  PendingRequest.timestamp request = None ->
  PENDING_REQUEST_TIMEOUT cfg < now ->
  JSMap.get requestId (pendingRequests (exec (cleanupPendingRequests cfg now) s))
  = None.
Proof.
  intros Hget Hts Hnow.
  destruct (cleanupPendingRequests_spec cfg now s) as (s' & Hrun & Hpend & _).
  unfold exec. rewrite Hrun. simpl. rewrite Hpend.
  apply get_delete_keys_mem. apply in_map_iff.
  exists (requestId, request). split; [reflexivity|].
  apply filter_In. split; [now apply JSMapFacts.get_In|].
  unfold expired. simpl. rewrite Hts. simpl.
  rewrite Z.gtb_ltb. apply Z.ltb_lt. lia.
Qed.

(** X28.  An entry with a [timestamp], as browse makes them, outlives the
    sweep as long as it is not older than the configured age. *)
Lemma sweep_keeps_young_timestamped_entries cfg now s requestId request t :
  JSMap.wf (pendingRequests s) ->
  JSMap.get requestId (pendingRequests s) = Some request ->
  PendingRequest.timestamp request = Some t ->
  t <> 0 ->
  now - t <= PENDING_REQUEST_TIMEOUT cfg ->
  JSMap.get requestId (pendingRequests (exec (cleanupPendingRequests cfg now) s))
  = Some request.
Proof.
  intros Hwf Hget Hts Ht Hage.
  destruct (cleanupPendingRequests_spec cfg now s) as (s' & Hrun & Hpend & _).
  unfold exec. rewrite Hrun. simpl. rewrite Hpend.
  rewrite delete_keys_filter, (get_filter _ requestId Hwf), Hget. simpl.
  destruct (mem_key requestId _) eqn:Hm; [|reflexivity].
  exfalso. apply mem_key_In, in_map_iff in Hm.
  destruct Hm as ([k e] & Hk & Hin). simpl in Hk. subst k.
  apply filter_In in Hin. destruct Hin as [Hin Hexp].
  apply (JSMapFacts.In_get _ _ Hwf) in Hin.
  assert (e = request) by congruence. subst e.
  unfold expired in Hexp. simpl in Hexp. rewrite Hts in Hexp. simpl in Hexp.
  destruct (Z.eqb_spec t 0); [contradiction|].
  rewrite Z.gtb_ltb in Hexp. apply Z.ltb_lt in Hexp. lia.
Qed.

(** C3, at the failing input.  A download started at [t0] stores
    [{response, startTime, timeoutId}]: it has no [timestamp], so the sweep
    computes its age as [now - 0].  One second later the sweep deletes the
    entry; the response is left open and the ten-minute timer stays
    scheduled. *)
Theorem sweep_drops_download_in_flight :
  let s := Scenario.downloading in
  let now := Scenario.t0 + 1000 in
  let s' := exec (cleanupPendingRequests CLEANUP_CONFIG now) s in
  JSMap.get Scenario.download_id (pendingRequests s)
  = Some (PendingRequest.mk None None None (Some 7%nat) (Some Scenario.t0)
                            (Some 0%nat)) /\
  now - Scenario.t0 < 600000 /\
  completion (cleanupPendingRequests CLEANUP_CONFIG now) s = Normal 1%nat /\
  JSMap.get Scenario.download_id (pendingRequests s') = None /\
  Res.ended (res_get 7 s') = 0%nat /\
  timers s' = timers s.
Proof. vm_compute. repeat split; reflexivity. Qed.

(* ================================================================== *)
(** ** Streaming relay *)
(* ================================================================== *)

Lemma decode_empty : Base64.decode "" = [].
Proof. reflexivity. Qed.

Lemma str_or_Some_truthy c b : truthy (Some c) = true -> str_or (Some c) b = c.
Proof.
  unfold truthy, str_or. now destruct (c =? "")%string.
Qed.

Lemma truthy_false_empty c : truthy (Some c) = false -> c = "".
Proof.
  unfold truthy. destruct (String.eqb_spec c ""); [auto | discriminate].
Qed.

(** A chunk that is not the last one: its bytes are appended to the sink,
    the entry and the timer stay. *)
Lemma chunk_not_last sid requestId request r c s :
  JSMap.get requestId (pendingRequests s) = Some request ->
  PendingRequest.response request = Some r ->
  exists s1,
    on_ftp_download_chunk sid (DownloadChunk.mk requestId (Some c) false None) s
    = (Normal tt, s1) /\
    pendingRequests s1 = pendingRequests s /\
    timers s1 = timers s /\
    devices s1 = devices s /\
    Res.body (res_get r s1) = Res.body (res_get r s) ++ Base64.decode c /\
    Res.ended (res_get r s1) = Res.ended (res_get r s).
Proof.
  intros Hget Hresp. unfold on_ftp_download_chunk.
  cbn [DownloadChunk.requestId DownloadChunk.chunk DownloadChunk.isLast
       DownloadChunk.error].
  rewrite bind_get_state, Hget, Hresp. cbn [truthy the_response].
  destruct (negb (c =? "")%string) eqn:Hc.
  - rewrite (str_or_Some_truthy c "" Hc). run_handler.
    eexists; split; [reflexivity|]. simpl.
    res_simpl. simpl. repeat split; reflexivity.
  - run_handler. eexists; split; [reflexivity|]. simpl.
    rewrite (truthy_false_empty c Hc), decode_empty, app_nil_r.
    repeat split; reflexivity.
Qed.

(** The last chunk: its bytes are appended, the sink is ended once, the
    timer is cleared and the entry deleted. *)
Lemma chunk_last sid requestId request r c s :
  JSMap.get requestId (pendingRequests s) = Some request ->
  PendingRequest.response request = Some r ->
  exists s1,
    on_ftp_download_chunk sid (DownloadChunk.mk requestId (Some c) true None) s
    = (Normal tt, s1) /\
    pendingRequests s1 = JSMap.delete requestId (pendingRequests s) /\
    timers s1 = match PendingRequest.timeoutId request with
                | Some tid => JSMap.delete tid (timers s)
                | None => timers s
                end /\
    devices s1 = devices s /\
    Res.body (res_get r s1) = Res.body (res_get r s) ++ Base64.decode c /\
    Res.ended (res_get r s1) = S (Res.ended (res_get r s)).
Proof.
  intros Hget Hresp. unfold on_ftp_download_chunk.
  cbn [DownloadChunk.requestId DownloadChunk.chunk DownloadChunk.isLast
       DownloadChunk.error].
  rewrite bind_get_state, Hget, Hresp. cbn [truthy the_response].
  destruct (negb (c =? "")%string) eqn:Hc.
  - rewrite (str_or_Some_truthy c "" Hc).
    destruct (PendingRequest.timeoutId request) as [tid|]; run_handler;
      (eexists; split; [reflexivity|]); simpl;
      repeat (res_simpl; simpl); repeat split; reflexivity.
  - rewrite (truthy_false_empty c Hc), decode_empty, app_nil_r.
    destruct (PendingRequest.timeoutId request) as [tid|]; run_handler;
      (eexists; split; [reflexivity|]); simpl;
      repeat (res_simpl; simpl); repeat split; reflexivity.
Qed.

(** C2.  For a pending download entry with the sink [r] and the timer
    [tid], the chunk events [(c1, false), ..., (cn, true)] without error
    all return normally; afterwards the sink holds, after what it held, the
    decoded bytes of [c1], ..., [cn] in that order, it was ended exactly
    once, the timer [tid] is cleared, and the entry is gone from the table,
    which is otherwise unchanged. *)
Theorem download_chunks_reach_sink_in_order :
  forall (s : Server) (sid requestId : string) (request : PendingRequest.t)
         (r tid : nat) (cs : list string) (last : string),
    JSMap.get requestId (pendingRequests s) = Some request ->
    PendingRequest.response request = Some r ->
    PendingRequest.timeoutId request = Some tid ->
    let events := map (on_ftp_download_chunk sid) (chunk_events requestId cs last) in
    let s' := exec (run_all events) s in
    completion (run_all events) s = Normal tt /\
    Res.body (res_get r s') =
      Res.body (res_get r s) ++ List.concat (map Base64.decode (cs ++ [last])) /\
    Res.ended (res_get r s') = S (Res.ended (res_get r s)) /\
    timers s' = JSMap.delete tid (timers s) /\
    JSMap.get tid (timers s') = None /\
    pendingRequests s' = JSMap.delete requestId (pendingRequests s) /\
    JSMap.get requestId (pendingRequests s') = None.
Proof.
  intros s sid requestId request r tid cs last Hget Hresp Htid.
  cbv zeta. revert s Hget.
  induction cs as [|c cs IH]; intros s Hget.
  - destruct (@chunk_last sid requestId request r last s Hget Hresp)
      as (s1 & Hrun & Hpend & Htim & _ & Hbody & Hend).
    rewrite Htid in Htim.
    unfold chunk_events, exec, completion. simpl map.
    rewrite (@run_all_cons _ _ _ _ Hrun). simpl.
    rewrite app_nil_r, Hbody, Hend, Htim, Hpend.
    repeat split; auto using JSMapFacts.get_delete_eq.
  - destruct (@chunk_not_last sid requestId request r c s Hget Hresp)
      as (s1 & Hrun & Hpend & Htim & _ & Hbody & Hend).
    assert (Hget1 : JSMap.get requestId (pendingRequests s1) = Some request)
      by now rewrite Hpend.
    specialize (IH s1 Hget1).
    unfold chunk_events, exec, completion in *. simpl map.
    rewrite (@run_all_cons _ _ _ _ Hrun).
    destruct IH as (Hc & Hb & He & Ht & Htg & Hp & Hpg).
    rewrite Hc, Hb, He, Ht, Hp, Hbody, Hend, Htim, Hpend.
    simpl List.concat. rewrite app_assoc.
    repeat split; auto using JSMapFacts.get_delete_eq.
Qed.

(** The scenario of the spec: chunks [AA==] and [QkI=]. *)
Lemma download_chunks_reach_sink_in_order_witness :
  let events := map (on_ftp_download_chunk "sock-A")
                    (chunk_events Scenario.download_id ["AA=="] "QkI=") in
  let s' := exec (run_all events) Scenario.downloading in
  Res.body (res_get 7 s') = [0; 66; 66] /\
  Res.ended (res_get 7 s') = 1%nat /\
  timers s' = [] /\
  pendingRequests s' = [].
Proof.
  pose proof (@download_chunks_reach_sink_in_order Scenario.downloading "sock-A"
                Scenario.download_id
                (PendingRequest.mk None None None (Some 7%nat) (Some Scenario.t0)
                                   (Some 0%nat))
                7%nat 0%nat ["AA=="] "QkI=" eq_refl eq_refl eq_refl) as H.
  cbv zeta in H. destruct H as (_ & Hbody & Hend & Htim & _ & Hpend & _).
  split; [|split; [|split]].
  - rewrite Hbody. reflexivity.
  - rewrite Hend. reflexivity.
  - rewrite Htim. reflexivity.
  - rewrite Hpend. reflexivity.
Defined.

(** Once the id is gone, a chunk is only broadcast and the timeout closure
    does nothing. *)
Lemma sink_event_for_absent_id requestId r ev s :
  JSMap.get requestId (pendingRequests s) = None ->
  exists s', sink_handler requestId r ev s = (Normal tt, s') /\
             same_but_emitted s s'.
Proof.
  intro Hget. destruct ev as [sid chunk isLast error|]; simpl.
  - rewrite chunk_unknown_id by exact Hget.
    eexists; split; [reflexivity|]. unfold same_but_emitted; simpl.
    repeat split; reflexivity.
  - unfold download_timeout. rewrite bind_get_state, (has_get_None _ _ Hget).
    eexists; split; [reflexivity|]. apply same_but_emitted_refl.
Qed.

Lemma later_sink_events_are_noops requestId r later :
  forall s,
    JSMap.get requestId (pendingRequests s) = None ->
    exists s', run_all (map (sink_handler requestId r) later) s = (Normal tt, s') /\
               same_but_emitted s s'.
Proof.
  induction later as [|ev later IH]; intros s Hget.
  - exists s. split; [reflexivity | apply same_but_emitted_refl].
  - destruct (sink_event_for_absent_id requestId r ev s Hget) as (s1 & Hrun & Hsame).
    destruct (IH s1) as (s2 & Hrest & Hsame2).
    + destruct Hsame as (_ & -> & _). exact Hget.
    + exists s2. split.
      * simpl map. now rewrite (@run_all_cons _ _ _ _ Hrun).
      * eapply same_but_emitted_trans; eauto.
Qed.

(** The event that ends a download ends the sink once and deletes the
    entry. *)
Lemma sink_closed_once requestId request r ev s :
  JSMap.get requestId (pendingRequests s) = Some request ->
  PendingRequest.response request = Some r ->
  closes_sink ev = true ->
  exists s1,
    sink_handler requestId r ev s = (Normal tt, s1) /\
    Res.ended (res_get r s1) = S (Res.ended (res_get r s)) /\
    pendingRequests s1 = JSMap.delete requestId (pendingRequests s).
Proof.
  intros Hget Hresp Hclose. destruct ev as [sid chunk isLast error|]; simpl.
  - unfold on_ftp_download_chunk.
    cbn [DownloadChunk.requestId DownloadChunk.chunk DownloadChunk.isLast
         DownloadChunk.error].
    rewrite bind_get_state, Hget, Hresp. simpl in Hclose.
    destruct (truthy error).
    + destruct (PendingRequest.timeoutId request) as [tid|]; run_handler;
        res_simpl; destruct (Res.headersSent (res_get r s)); simpl;
        (eexists; split; [reflexivity|]); simpl;
        repeat (res_simpl; simpl); split; reflexivity.
    + simpl in Hclose. subst isLast.
      destruct (truthy chunk);
        destruct (PendingRequest.timeoutId request) as [tid|]; run_handler;
        (eexists; split; [reflexivity|]); simpl;
        repeat (res_simpl; simpl); split; reflexivity.
  - unfold download_timeout. rewrite bind_get_state, (has_get_Some _ _ Hget).
    run_handler. res_simpl.
    destruct (Res.headersSent (res_get r s)); simpl;
      (eexists; split; [reflexivity|]); simpl;
      repeat (res_simpl; simpl); split; reflexivity.
Qed.

(** X9.  A download is closed at most once: after the event that ends it,
    no chunk and no timeout firing for its id writes to the sink, ends it
    again or brings the entry back. *)
Lemma download_closes_sink_at_most_once requestId request r first later s :
  JSMap.get requestId (pendingRequests s) = Some request ->
  PendingRequest.response request = Some r ->
  closes_sink first = true ->
  let s1 := exec (sink_handler requestId r first) s in
  let s2 := exec (run_all (map (sink_handler requestId r) later)) s1 in
  Res.ended (res_get r s1) = S (Res.ended (res_get r s)) /\
  JSMap.get requestId (pendingRequests s1) = None /\
  completion (run_all (map (sink_handler requestId r) later)) s1 = Normal tt /\
  same_but_emitted s1 s2.
Proof.
  intros Hget Hresp Hclose s1 s2.
  destruct (@sink_closed_once requestId request r first s Hget Hresp Hclose) as (s1' & Hrun & Hend & Hpend).
  assert (Hs1 : s1 = s1') by (unfold s1, exec; now rewrite Hrun).
  assert (Hgone : JSMap.get requestId (pendingRequests s1) = None).
  { rewrite Hs1, Hpend. apply JSMapFacts.get_delete_eq. }
  destruct (later_sink_events_are_noops requestId r later s1 Hgone)
    as (s2' & Hrest & Hsame).
  assert (Hs2 : s2 = s2') by (unfold s2, exec; now rewrite Hrest).
  split; [now rewrite Hs1|]. split; [exact Hgone|].
  split; [unfold completion; now rewrite Hrest | now rewrite Hs2].
Qed.

(* ================================================================== *)
(** ** Re-emission of device responses *)
(* ================================================================== *)

(** C10, at the failing input.  A list response that carries the id of a
    download in flight finds an entry without [resolve]: the call throws
    before [io.emit] is reached, so nothing is broadcast; the state is
    what it was. *)
Theorem list_response_for_download_id_throws :
  let data := ListResponse.mk Scenario.download_id (JArr []) None in
  on_ftp_list_response "sock-A" data Scenario.downloading
  = (Throw "TypeError: pendingRequest.resolve is not a function",
     Scenario.downloading).
Proof. vm_compute. reflexivity. Qed.

(** The same slip on the other handler: a chunk event that carries the id
    of a browse request deletes the entry and throws on the missing
    response, again before the broadcast. *)
Lemma chunk_for_browse_id_throws :
  let data := DownloadChunk.mk Scenario.browse_id (Some "AA==") true None in
  completion (on_ftp_download_chunk "sock-A" data) Scenario.browsing
  = Throw "TypeError: Cannot read properties of undefined" /\
  emitted (exec (on_ftp_download_chunk "sock-A" data) Scenario.browsing)
  = emitted Scenario.browsing.
Proof. vm_compute. split; reflexivity. Qed.

(** Once the payload is destructured, the list-response handler throws
    exactly when the id names a pending entry that lacks the function it is
    about to call. *)
Lemma list_response_body_completion sid data s :
  completion (on_ftp_list_response sid data) s =
    match JSMap.get (ListResponse.requestId data) (pendingRequests s) with
    | None => Normal tt
    | Some request =>
        if truthy (ListResponse.error data) then
          match PendingRequest.reject request with
          | Some _ => Normal tt
          | None => Throw "TypeError: pendingRequest.reject is not a function"
          end
        else
          match PendingRequest.resolve request with
          | Some _ => Normal tt
          | None => Throw "TypeError: pendingRequest.resolve is not a function"
          end
    end.
Proof.
  unfold completion, on_ftp_list_response. rewrite bind_get_state.
  destruct (JSMap.get (ListResponse.requestId data) (pendingRequests s))
    as [request|]; [|reflexivity].
  unfold call_reject, call_resolve.
  destruct (truthy (ListResponse.error data)).
  - destruct (PendingRequest.reject request) as [p|]; [|reflexivity].
    destruct (settle_spec p (Rejected (str_or (ListResponse.error data) "")) s)
      as (s1 & Hs & _).
    unfold bind. now rewrite Hs.
  - destruct (PendingRequest.resolve request) as [p|]; [|reflexivity].
    destruct (settle_spec p (Fulfilled (ListResponse.files data)) s)
      as (s1 & Hs & _).
    unfold bind. now rewrite Hs.
Qed.

(** Once the payload is destructured, the chunk handler throws exactly when
    the id names a pending entry without a [response] and the event makes it
    touch the response. *)
Lemma chunk_body_completion sid data s :
  completion (on_ftp_download_chunk sid data) s =
    match JSMap.get (DownloadChunk.requestId data) (pendingRequests s) with
    | None => Normal tt
    | Some request =>
        match PendingRequest.response request with
        | Some _ => Normal tt
        | None =>
            if truthy (DownloadChunk.error data)
               || truthy (DownloadChunk.chunk data)
               || DownloadChunk.isLast data
            then Throw "TypeError: Cannot read properties of undefined"
            else Normal tt
        end
    end.
Proof.
  unfold completion, on_ftp_download_chunk. rewrite bind_get_state.
  destruct (JSMap.get (DownloadChunk.requestId data) (pendingRequests s))
    as [request|]; [|reflexivity].
  destruct (PendingRequest.response request) as [r|];
    destruct (truthy (DownloadChunk.error data));
    destruct (PendingRequest.timeoutId request) as [tid|];
    destruct (truthy (DownloadChunk.chunk data));
    destruct (DownloadChunk.isLast data);
    run_handler; try reflexivity;
    match goal with
    | |- context [Res.headersSent ?x] => destruct (Res.headersSent x); reflexivity
    end.
Qed.

(** X25.  The [ftp-list-response] listener throws exactly when the event
    has no payload (and then nothing at all has changed), or the id names a
    pending entry that lacks the function the handler is about to call:
    [reject] for a response with an error, [resolve] otherwise. *)
Theorem list_response_completion :
  forall (sid : string) (data : option ListResponse.t) (s : Server),
    completion (ftp_list_response_listener sid data) s =
      match data with
      | None =>
          Throw "TypeError: Cannot destructure property 'requestId' of 'data'"
      | Some data =>
          match JSMap.get (ListResponse.requestId data) (pendingRequests s) with
          | None => Normal tt
          | Some request =>
              if truthy (ListResponse.error data) then
                match PendingRequest.reject request with
                | Some _ => Normal tt
                | None => Throw "TypeError: pendingRequest.reject is not a function"
                end
              else
                match PendingRequest.resolve request with
                | Some _ => Normal tt
                | None => Throw "TypeError: pendingRequest.resolve is not a function"
                end
          end
      end /\
    (data = None -> exec (ftp_list_response_listener sid data) s = s).
Proof.
  intros sid [data|] s; simpl ftp_list_response_listener.
  - split; [apply list_response_body_completion | discriminate].
  - split; reflexivity.
Qed.

(** X26.  The [ftp-download-chunk] listener throws exactly when the event
    has no payload (and then nothing at all has changed), or the id names a
    pending entry without a [response] and the event has an error, a
    non-empty chunk or [isLast] set. *)
Theorem chunk_completion :
  forall (sid : string) (data : option DownloadChunk.t) (s : Server),
    completion (ftp_download_chunk_listener sid data) s =
      match data with
      | None =>
          Throw "TypeError: Cannot destructure property 'requestId' of 'data'"
      | Some data =>
          match JSMap.get (DownloadChunk.requestId data) (pendingRequests s) with
          | None => Normal tt
          | Some request =>
              match PendingRequest.response request with
              | Some _ => Normal tt
              | None =>
                  if truthy (DownloadChunk.error data)
                     || truthy (DownloadChunk.chunk data)
                     || DownloadChunk.isLast data
                  then Throw "TypeError: Cannot read properties of undefined"
                  else Normal tt
              end
          end
      end /\
    (data = None -> exec (ftp_download_chunk_listener sid data) s = s).
Proof.
  intros sid [data|] s; simpl ftp_download_chunk_listener.
  - split; [apply chunk_body_completion | discriminate].
  - split; reflexivity.
Qed.

(** When the handlers run to their end, the broadcast is their last act and
    carries the whole payload. *)
Lemma list_response_broadcast_on_return sid data s s' :
  on_ftp_list_response sid data s = (Normal tt, s') ->
  emitted s' =
    removelast (emitted s')
    ++ [IoEmit "ftp-list-response"
          (PListResponse (ListResponse.requestId data) (socket_deviceId sid s')
             (ListResponse.files data) (ListResponse.error data))].
Proof.
  unfold on_ftp_list_response. rewrite bind_get_state.
  unfold bind at 1.
  match goal with |- context [match ?h s with _ => _ end] =>
    destruct (h s) as [[[]|err] s1] eqn:Hh end; [|discriminate].
  rewrite bind_get_state. unfold io_emit, modify.
  intros [= <-]. simpl. now rewrite removelast_last.
Qed.

Lemma chunk_broadcast_on_return sid data s s' :
  on_ftp_download_chunk sid data s = (Normal tt, s') ->
  emitted s' =
    removelast (emitted s')
    ++ [IoEmit "ftp-download-chunk"
          (PDownloadChunk (DownloadChunk.requestId data) (socket_deviceId sid s')
             (DownloadChunk.chunk data) (DownloadChunk.isLast data)
             (DownloadChunk.error data))].
Proof.
  unfold on_ftp_download_chunk. rewrite bind_get_state.
  unfold bind at 1.
  match goal with |- context [match ?h s with _ => _ end] =>
    destruct (h s) as [[[]|err] s1] eqn:Hh end; [|discriminate].
  rewrite bind_get_state. unfold io_emit, modify.
  intros [= <-]. simpl. now rewrite removelast_last.
Qed.

(* ================================================================== *)
(** ** Reachable states: one entry per key *)
(* ================================================================== *)

Lemma keeps_wf_ret {A} (a : A) : keeps_wf (ret a).
Proof. intros s Hs. exact Hs. Qed.

Lemma keeps_wf_throw {A} (e : string) : keeps_wf (@throw A e).
Proof. intros s Hs. exact Hs. Qed.

Lemma keeps_wf_get_state : keeps_wf get_state.
Proof. intros s Hs. exact Hs. Qed.

Lemma keeps_wf_bind {A B} (h : Handler A) (k : A -> Handler B) :
  keeps_wf h -> (forall a, keeps_wf (k a)) -> keeps_wf (bind h k).
Proof.
  intros Hh Hk s Hs. unfold bind. specialize (Hh s Hs).
  destruct (h s) as [[a|e] s1]; simpl in *; [now apply Hk | exact Hh].
Qed.

Lemma keeps_wf_try_catch (h : Handler unit) : keeps_wf h -> keeps_wf (try_catch h).
Proof.
  intros Hh s Hs. unfold try_catch. specialize (Hh s Hs).
  now destruct (h s) as [[[]|e] s1].
Qed.

Lemma keeps_wf_catch {A} (h : Handler A) (k : string -> Handler A) :
  keeps_wf h -> (forall e, keeps_wf (k e)) -> keeps_wf (catch h k).
Proof.
  intros Hh Hk s Hs. unfold catch. specialize (Hh s Hs).
  destruct (h s) as [[a|e] s1]; simpl in *; [exact Hh | now apply Hk].
Qed.

Lemma keeps_wf_modify (f : Server -> Server) :
  (forall s, maps_wf s -> maps_wf (f s)) -> keeps_wf (modify f).
Proof. intros Hf s Hs. now apply Hf. Qed.

Lemma keeps_wf_new_promise k : keeps_wf (new_promise k).
Proof. intros s Hs. exact Hs. Qed.

Lemma keeps_wf_setTimeout cb delay now : keeps_wf (setTimeout cb delay now).
Proof. intros s Hs. exact Hs. Qed.

Lemma keeps_wf_fold_handler {A B} (body : B -> A -> Handler B) (l : list A) :
  (forall acc x, keeps_wf (body acc x)) ->
  forall acc, keeps_wf (fold_handler body l acc).
Proof.
  intro Hbody. induction l as [|x l IH]; intro acc; simpl.
  - apply keeps_wf_ret.
  - apply keeps_wf_bind; [apply Hbody | exact IH].
Qed.

(** One step of the syntax-directed proof that a handler keeps the maps
    well formed. *)
Ltac keeps_wf_step :=
  lazymatch goal with
  | |- keeps_wf (bind _ _) => apply keeps_wf_bind; [|intro]
  | |- keeps_wf (ret _) => apply keeps_wf_ret
  | |- keeps_wf (throw _) => apply keeps_wf_throw
  | |- keeps_wf get_state => apply keeps_wf_get_state
  | |- keeps_wf (try_catch _) => apply keeps_wf_try_catch
  | |- keeps_wf (catch _ _) => apply keeps_wf_catch; [|intro]
  | |- keeps_wf (new_promise _) => apply keeps_wf_new_promise
  | |- keeps_wf (setTimeout _ _ _) => apply keeps_wf_setTimeout
  | |- keeps_wf (fold_handler _ _ _) => apply keeps_wf_fold_handler; intros
  | |- keeps_wf (modify _) =>
      apply keeps_wf_modify; intros ? [? ?]; split; simpl;
      auto using JSMapFacts.wf_set, JSMapFacts.wf_delete
  | |- keeps_wf (match ?x with _ => _ end) => destruct x
  | |- keeps_wf (let _ := _ in _) => cbv zeta
  end.

Ltac keeps_wf_auto :=
  repeat first
    [ keeps_wf_step
    | progress unfold call_resolve, call_reject, the_response, settle,
        browse_continue, broadcastDeviceList, set_socket_deviceId,
        res_status, res_json, res_write, res_end, res_setHeader, res_update,
        clearTimeout, io_emit, io_to_emit, socket_emit ].

Lemma keeps_wf_settle p o : keeps_wf (settle p o).
Proof. keeps_wf_auto. Qed.

Lemma keeps_wf_cleanupStaleDevices cfg now : keeps_wf (cleanupStaleDevices cfg now).
Proof.
  intros s [Hd Hp]. unfold cleanupStaleDevices. run_handler. split; simpl; auto.
  rewrite (sweep_devices_spec cfg now Hd).
  destruct (MAX_DEVICES cfg <? _)%nat.
  - apply wf_delete_keys, wf_filter, Hd.
  - apply wf_filter, Hd.
Qed.

Lemma keeps_wf_cleanupPendingRequests cfg now :
  keeps_wf (cleanupPendingRequests cfg now).
Proof.
  unfold cleanupPendingRequests, cleanup_request. keeps_wf_auto.
Qed.

Lemma keeps_wf_handle ev : keeps_wf (handle ev).
Proof.
  destruct ev as [sid|sid data uuid now|sid data uuid now|sid|k sid data
                  |sid data now|sid data|sid data|sid
                  |res deviceId deviceName ipAddress now
                  |res deviceId path now random
                  |res deviceId path filename now random|tid|now];
    simpl handle.
  - unfold on_connection. keeps_wf_auto.
  - unfold on_register. keeps_wf_auto.
  - unfold on_register_device. keeps_wf_auto.
  - unfold on_get_devices. keeps_wf_auto.
  - destruct k; simpl; unfold on_offer, on_answer, on_ice_candidate;
      keeps_wf_auto.
  - unfold on_ping. keeps_wf_auto.
  - unfold ftp_list_response_listener, on_ftp_list_response. keeps_wf_auto.
  - unfold ftp_download_chunk_listener, on_ftp_download_chunk. keeps_wf_auto.
  - unfold disconnect, transport_close, on_disconnect. keeps_wf_auto.
  - unfold ftp_register. keeps_wf_auto.
  - unfold browse. keeps_wf_auto.
  - unfold download. keeps_wf_auto.
  - unfold fire_timer, run_callback, browse_timeout, download_timeout.
    keeps_wf_auto.
  - unfold runPeriodicCleanup.
    apply keeps_wf_bind; [apply keeps_wf_cleanupStaleDevices | intro].
    apply keeps_wf_bind; [apply keeps_wf_cleanupPendingRequests | intro].
    apply keeps_wf_ret.
Qed.

(** In every state the server can reach, the registry has at most one
    record per device id and the correlation table at most one entry per
    request id. *)
Lemma reachable_maps_wf s : reachable s -> maps_wf s.
Proof.
  induction 1 as [|s ev _ IH].
  - split; apply JSMapFacts.wf_empty.
  - unfold exec. apply keeps_wf_handle. exact IH.
Qed.

(* ================================================================== *)
(** ** The scenarios end to end *)
(* ================================================================== *)

(** The device answers the browse request: the caller gets the files, the
    entry is gone, and the timeout that fires later finds nothing to do. *)
Example browse_answered_then_timer_fires :
  let answer := ListResponse.mk Scenario.browse_id (JArr [JStr "DCIM"]) None in
  let s1 := exec (on_ftp_list_response "sock-A" answer) Scenario.browsing in
  let s2 := exec (fire_timer 0) s1 in
  Res.json (res_get 5 s1) = Some (ReplyFiles (JArr [JStr "DCIM"])) /\
  pendingRequests s1 = [] /\
  res_get 5 s2 = res_get 5 s1 /\
  settleCalls s2 = settleCalls s1.
Proof. vm_compute. repeat split; reflexivity. Qed.

(** No answer arrives: when the timer fires the caller gets [Timeout] and
    the entry is gone; the answer that comes too late is only broadcast. *)
Example browse_times_out_then_late_answer :
  let answer := ListResponse.mk Scenario.browse_id (JArr [JStr "DCIM"]) None in
  let s1 := exec (fire_timer 0) Scenario.browsing in
  let s2 := exec (on_ftp_list_response "sock-A" answer) s1 in
  error_kind (res_get 5 s1) = Some Timeout /\
  pendingRequests s1 = [] /\
  res_get 5 s2 = res_get 5 s1 /\
  settleCalls s2 = settleCalls s1 /\
  pendingRequests s2 = [].
Proof. vm_compute. repeat split; reflexivity. Qed.

(** The device reports an error before any byte was written: the download
    is answered with 500 and the error, the timer is cleared, the entry is
    gone. *)
Example download_fails_before_first_byte :
  let failure := DownloadChunk.mk Scenario.download_id None false (Some "EACCES") in
  let s1 := exec (on_ftp_download_chunk "sock-A" failure) Scenario.downloading in
  error_kind (res_get 7 s1) = Some RemoteError /\
  Res.ended (res_get 7 s1) = 1%nat /\
  timers s1 = [] /\
  pendingRequests s1 = [].
Proof. vm_compute. repeat split; reflexivity. Qed.

(* ================================================================== *)
(** ** Registration *)
(* ================================================================== *)

Lemma keys_set {V} (k : string) (v : V) (m : JSMap.t string V) :
  JSMap.keys (JSMap.set k v m)
  = if JSMap.has k m then JSMap.keys m else JSMap.keys m ++ [k].
Proof.
  unfold JSMap.has. destruct (JSMap.get k m) as [v0|] eqn:Hget.
  - apply JSMapFacts.keys_set_present. congruence.
  - now apply JSMapFacts.keys_set_absent.
Qed.

(** X1.  Both socket registrations ([register] when the flag is [false],
    [register_device] when it is [true]) store, under the id of the event
    or else the generated one, a record with the name and type of the event
    (or their defaults), the socket as handle, status [online] and the
    current time as activity time; they bind the socket to that id.  A
    record already stored under the id is replaced where it stands, a new
    one goes last, and no other record and no pending request is touched.
    An event without data changes nothing at all. *)
Theorem register_then_lookup :
  forall (device_event : bool) (sid : string) (data : RegisterData.t)
         (uuid : string) (now : Z) (s : Server),
    let h := if device_event then on_register_device else on_register in
    let s' := exec (h sid (Some data) uuid now) s in
    let deviceId := str_or (RegisterData.deviceId data) uuid in
    completion (h sid (Some data) uuid now) s = Normal tt /\
    JSMap.get deviceId (devices s')
    = Some (Device.mk deviceId
              (str_or (RegisterData.deviceName data) "Unknown Device")
              (str_or (RegisterData.deviceType data) "unknown")
              (Some sid) "online" (Some now) (Some now)
              (if truthy (RegisterData.ipAddress data)
               then RegisterData.ipAddress data else None)) /\
    socket_deviceId sid s' = Some deviceId /\
    (forall k, k <> deviceId ->
               JSMap.get k (devices s') = JSMap.get k (devices s)) /\
    JSMap.keys (devices s')
    = (if JSMap.has deviceId (devices s)
       then JSMap.keys (devices s)
       else JSMap.keys (devices s) ++ [deviceId]) /\
    pendingRequests s' = pendingRequests s /\
    h sid None uuid now s = (Normal tt, s).
Proof.
  intros device_event sid data uuid now s.
  destruct device_event; cbv zeta; unfold on_register_device, on_register;
    run_handler; rewrite JSMapFacts.get_set_eq;
    (repeat match goal with |- _ /\ _ => split end);
    try reflexivity.
  - unfold socket_deviceId; simpl. now rewrite JSMapFacts.get_set_eq.
  - intros k Hk. now apply JSMapFacts.get_set_neq.
  - apply keys_set.
  - unfold socket_deviceId; simpl. now rewrite JSMapFacts.get_set_eq.
  - intros k Hk. now apply JSMapFacts.get_set_neq.
  - apply keys_set.
Qed.

Lemma In_set {V} (k : string) (v : V) (m : JSMap.t string V) (e : string * V) :
  In e (JSMap.set k v m) -> e = (k, v) \/ In e m.
Proof.
  induction m as [|[k' v'] m IH]; simpl.
  - intros [<-|[]]. now left.
  - destruct (String.eqb k k'); simpl.
    + intros [<-|Hin]; [now left | right; now right].
    + intros [<-|Hin]; [right; now left|].
      destruct (IH Hin) as [->|Hin']; [now left | right; now right].
Qed.

Lemma In_delete {V} (k : string) (m : JSMap.t string V) (e : string * V) :
  In e (JSMap.delete k m) -> In e m.
Proof. unfold JSMap.delete. intro Hin. now apply filter_In in Hin. Qed.

Lemma In_delete_key {V} (k : string) (m : JSMap.t string V) (e : string * V) :
  In e (JSMap.delete k m) -> fst e <> k.
Proof.
  unfold JSMap.delete. intro Hin. apply filter_In in Hin.
  destruct Hin as [_ Hk]. simpl in Hk. intros <-.
  now rewrite String.eqb_refl in Hk.
Qed.

Lemma exec_seq {A} (h1 : Handler A) (h2 : Handler unit) (s : Server) (a : A) :
  completion h1 s = Normal a ->
  exec (h1 ;; h2) s = exec h2 (exec h1 s) /\
  completion (h1 ;; h2) s = completion h2 (exec h1 s).
Proof.
  unfold exec, completion, bind. destruct (h1 s) as [[a0|e] s1]; simpl.
  - now split.
  - discriminate.
Qed.

(** What a socket registration leaves in the registry and on the socket. *)
Lemma on_register_state sid (data : RegisterData.t) uuid now s :
  let deviceId := str_or (RegisterData.deviceId data) uuid in
  let s' := exec (on_register sid (Some data) uuid now) s in
  completion (on_register sid (Some data) uuid now) s = Normal tt /\
  devices s' = JSMap.set deviceId (registered_device sid deviceId data now) (devices s) /\
  sockets s' = JSMap.set sid (Socket.mk (Some deviceId) (socket_connected sid s))
                         (sockets s) /\
  pendingRequests s' = pendingRequests s.
Proof. unfold on_register. run_handler. repeat split; reflexivity. Qed.

(** What a disconnect leaves in the registry and on the socket. *)
Lemma disconnect_state sid s :
  let s' := exec (disconnect sid) s in
  devices s' = (if truthy (socket_deviceId sid s)
                then JSMap.delete (str_or (socket_deviceId sid s) "") (devices s)
                else devices s) /\
  sockets s' = JSMap.set sid (Socket.mk (socket_deviceId sid s) false) (sockets s).
Proof.
  unfold disconnect, transport_close, on_disconnect. run_handler.
  rewrite socket_deviceId_set_sockets_self. simpl.
  destruct (truthy (socket_deviceId sid s)); simpl; split; reflexivity.
Qed.

(** What a disconnect of a socket with a device id emits. *)
Lemma disconnect_emits sid s :
  truthy (socket_deviceId sid s) = true ->
  let s' := exec (disconnect sid) s in
  emitted s'
  = emitted s ++ [IoEmit "devices" (PDevices (map deviceInfo
                                                (JSMap.values (devices s'))))].
Proof.
  intro Ht. unfold disconnect, transport_close, on_disconnect. run_handler.
  rewrite socket_deviceId_set_sockets_self. simpl. rewrite Ht. reflexivity.
Qed.

(** X2.  The disconnect handler deletes by device id, not by socket.  In a
    registry whose records are stored under their own id, when socket A
    registered an id, the connected socket B registered the same id after
    it, and A then disconnects: the record that names B as handle is
    deleted, although B is still connected and bound to the id, and the
    device list broadcast by the disconnect, which B receives, has no item
    with that id. *)
Theorem late_disconnect_removes_successor :
  forall (sidA sidB d uuidA uuidB : string) (dataA dataB : RegisterData.t)
         (tA tB : Z) (s : Server),
    d <> "" ->
    sidA <> sidB ->
    RegisterData.deviceId dataA = Some d ->
    RegisterData.deviceId dataB = Some d ->
    socket_connected sidB s = true ->
    (forall k r, In (k, r) (JSMap.entries (devices s)) -> Device.id r = k) ->
    let s2 := exec (on_register sidA (Some dataA) uuidA tA ;;
                    on_register sidB (Some dataB) uuidB tB) s in
    let s3 := exec (disconnect sidA) s2 in
    option_map Device.socketId (JSMap.get d (devices s2)) = Some (Some sidB) /\
    JSMap.get d (devices s3) = None /\
    socket_deviceId sidB s3 = Some d /\
    socket_connected sidB s3 = true /\
    (exists listed,
        emitted s3 = emitted s2 ++ [IoEmit "devices" (PDevices listed)] /\
        listed = map deviceInfo (JSMap.values (devices s3)) /\
        (forall i, In i listed -> DeviceInfo.id i <> d) /\
        In sidB (recipients s3 (IoEmit "devices" (PDevices listed)))).
Proof.
  intros sidA sidB d uuidA uuidB dataA dataB tA tB s Hd Hab HA HB Hconn Hkeyed.
  cbv zeta.
  destruct (on_register_state sidA dataA uuidA tA s) as (Hc1 & Hd1 & Hs1 & _).
  destruct (@exec_seq unit (on_register sidA (Some dataA) uuidA tA)
              (on_register sidB (Some dataB) uuidB tB) s tt Hc1) as [-> _].
  set (s1 := exec (on_register sidA (Some dataA) uuidA tA) s) in *.
  destruct (on_register_state sidB dataB uuidB tB s1) as (_ & Hd2 & Hs2 & _).
  set (s2 := exec (on_register sidB (Some dataB) uuidB tB) s1) in *.
  destruct (disconnect_state sidA s2) as (Hd3 & Hs3).
  rewrite HA, (str_or_Some_nonempty _ Hd) in Hd1, Hs1.
  rewrite HB, (str_or_Some_nonempty _ Hd) in Hd2, Hs2.
  assert (HA2 : socket_deviceId sidA s2 = Some d).
  { unfold socket_deviceId. rewrite Hs2, JSMapFacts.get_set_neq by exact Hab.
    now rewrite Hs1, JSMapFacts.get_set_eq. }
  pose proof (@disconnect_emits sidA s2) as Hem.
  rewrite HA2 in Hem. specialize (Hem (truthy_Some_nonempty Hd)). cbv zeta in Hem.
  rewrite HA2, (truthy_Some_nonempty Hd), (str_or_Some_nonempty _ Hd) in Hd3.
  assert (Hconn1 : socket_connected sidB s1 = true).
  { unfold socket_connected in *. rewrite Hs1.
    rewrite JSMapFacts.get_set_neq by congruence. exact Hconn. }
  assert (Hsock3 : JSMap.get sidB (sockets (exec (disconnect sidA) s2))
                   = Some (Socket.mk (Some d) true)).
  { rewrite Hs3, JSMapFacts.get_set_neq by congruence.
    rewrite Hs2, JSMapFacts.get_set_eq. now rewrite Hconn1. }
  split; [now rewrite Hd2, JSMapFacts.get_set_eq|].
  split; [rewrite Hd3; apply JSMapFacts.get_delete_eq|].
  split; [unfold socket_deviceId; now rewrite Hsock3|].
  split; [unfold socket_connected; now rewrite Hsock3|].
  eexists. split; [exact Hem|]. split; [reflexivity|]. split.
  - intros i Hin. unfold JSMap.values in Hin. rewrite map_map in Hin.
    apply in_map_iff in Hin. destruct Hin as ([k r] & <- & Hin). simpl.
    rewrite Hd3 in Hin. pose proof (@In_delete_key _ _ _ _ Hin) as Hk.
    apply In_delete in Hin. simpl in Hk.
    rewrite Hd2 in Hin. apply In_set in Hin.
    destruct Hin as [[= -> _]|Hin]; [now elim Hk|].
    rewrite Hd1 in Hin. apply In_set in Hin.
    destruct Hin as [[= -> _]|Hin]; [now elim Hk|].
    now rewrite (Hkeyed k r Hin).
  - unfold recipients, connected_sockets, JSMap.entries.
    apply in_map_iff. exists (sidB, Socket.mk (Some d) true).
    split; [reflexivity|]. apply filter_In. split; [|reflexivity].
    now apply JSMapFacts.get_In.
Qed.

Lemma late_disconnect_removes_successor_witness :
  let data := RegisterData.mk (Some "dev-1") (Some "Pixel 7") None None in
  let s := exec (on_connection "sock-A" ;; on_connection "sock-B") initial in
  let s2 := exec (on_register "sock-A" (Some data) "u1" 10 ;;
                  on_register "sock-B" (Some data) "u2" 20) s in
  let s3 := exec (disconnect "sock-A") s2 in
  JSMap.get "dev-1" (devices s3) = None /\
  socket_deviceId "sock-B" s3 = Some "dev-1" /\
  socket_connected "sock-B" s3 = true.
Proof.
  assert (Hd : "dev-1" <> "") by discriminate.
  assert (Hab : "sock-A" <> "sock-B") by discriminate.
  assert (Hkeyed : forall k r,
            In (k, r)
               (JSMap.entries
                  (devices (exec (on_connection "sock-A" ;; on_connection "sock-B")
                                 initial))) ->
            Device.id r = k)
    by (intros k r []).
  pose proof (@late_disconnect_removes_successor "sock-A" "sock-B" "dev-1" "u1" "u2"
                (RegisterData.mk (Some "dev-1") (Some "Pixel 7") None None)
                (RegisterData.mk (Some "dev-1") (Some "Pixel 7") None None)
                10 20
                (exec (on_connection "sock-A" ;; on_connection "sock-B") initial)
                Hd Hab eq_refl eq_refl eq_refl Hkeyed) as H.
  cbv zeta in H. destruct H as (_ & Hgone & Hbound & Hconn & _).
  cbv zeta. split; [exact Hgone|]. split; [exact Hbound | exact Hconn].
Defined.

(** X3.  The HTTP registration rejects a request without [deviceId] or
    without [ipAddress] with a 400 and leaves the registry and the
    observers alone.  Otherwise it stores, under the id, a record of type
    [ftp-only] with no socket, replacing whatever was stored there,
    broadcasts the new snapshot and answers with the id; the correlation
    table is not touched either way. *)
Theorem ftp_register_effect :
  forall (res : nat) (deviceId deviceName ipAddress : option string) (now : Z)
         (s : Server),
    let s' := exec (ftp_register res deviceId deviceName ipAddress now) s in
    let d := str_or deviceId "" in
    completion (ftp_register res deviceId deviceName ipAddress now) s = Normal tt /\
    pendingRequests s' = pendingRequests s /\
    (if truthy deviceId && truthy ipAddress then
       devices s' =
         JSMap.set d (Device.mk d (str_or deviceName "Unknown Device") "ftp-only"
                        None "online" (Some now) (Some now) ipAddress)
                   (devices s) /\
       emitted s' = emitted s ++ [IoEmit "devices" (PDevices (snapshot s'))] /\
       Res.json (res_get res s') = Some (ReplySuccess d)
     else
       devices s' = devices s /\
       emitted s' = emitted s /\
       error_kind (res_get res s') = Some InvalidInput).
Proof.
  intros res deviceId deviceName ipAddress now s. cbv zeta. unfold ftp_register.
  destruct (truthy deviceId), (truthy ipAddress); simpl.
  - run_handler. res_simpl. simpl. repeat split; reflexivity.
  - destruct (status_json_error res 400 "deviceId and ipAddress are required" s)
      as (Hc & Hn & Hs & Hj).
    repeat split; try apply Hn; auto. now rewrite (error_kind_400 _ Hs Hj).
  - destruct (status_json_error res 400 "deviceId and ipAddress are required" s)
      as (Hc & Hn & Hs & Hj).
    repeat split; try apply Hn; auto. now rewrite (error_kind_400 _ Hs Hj).
  - destruct (status_json_error res 400 "deviceId and ipAddress are required" s)
      as (Hc & Hn & Hs & Hj).
    repeat split; try apply Hn; auto. now rewrite (error_kind_400 _ Hs Hj).
Qed.

Lemma ftp_register_state res d deviceName ip now s :
  d <> "" -> ip <> "" ->
  let s' := exec (ftp_register res (Some d) deviceName (Some ip) now) s in
  devices s' =
    JSMap.set d (Device.mk d (str_or deviceName "Unknown Device") "ftp-only"
                   None "online" (Some now) (Some now) (Some ip))
              (devices s) /\
  pendingRequests s' = pendingRequests s /\
  timers s' = timers s.
Proof.
  intros Hd Hi. unfold ftp_register.
  rewrite (truthy_Some_nonempty Hd), (truthy_Some_nonempty Hi),
    (str_or_Some_nonempty _ Hd).
  run_handler. repeat split; reflexivity.
Qed.

(** X4.  An HTTP registration under an id takes the push handle of that id
    away: whatever record the id had, a browse that follows is answered
    with [NotConnected] and allocates nothing, until a socket registers the
    id again. *)
Theorem ftp_register_takes_handle_away :
  forall (res1 res2 : nat) (d ip : string) (deviceName path : option string)
         (now1 now2 : Z) (random : string) (s : Server),
    d <> "" ->
    ip <> "" ->
    let s1 := exec (ftp_register res1 (Some d) deviceName (Some ip) now1) s in
    let s2 := exec (browse res2 (Some d) path now2 random) s1 in
    option_map Device.socketId (JSMap.get d (devices s1)) = Some None /\
    error_kind (res_get res2 s2) = Some NotConnected /\
    pendingRequests s2 = pendingRequests s /\
    timers s2 = timers s /\
    emitted s2 = emitted s1.
Proof.
  intros res1 res2 d ip deviceName path now1 now2 random s Hd Hi. cbv zeta.
  destruct (ftp_register_state res1 deviceName now1 s Hd Hi) as (Hdev & Hpend & Htim).
  set (s1 := exec (ftp_register res1 (Some d) deviceName (Some ip) now1) s) in *.
  split; [now rewrite Hdev, JSMapFacts.get_set_eq|].
  unfold browse.
  rewrite (truthy_Some_nonempty Hd), (str_or_Some_nonempty _ Hd).
  cbn [negb]. unfold exec at 1 2 3 4. rewrite bind_get_state.
  rewrite Hdev, JSMapFacts.get_set_eq. cbn [Device.socketId truthy negb].
  destruct (status_json_error res2 400 "Device not connected via WebSocket" s1)
    as (_ & Hn & Hs & Hj).
  unfold exec in Hn, Hs, Hj. destruct Hn as (_ & Hp & Ht & _ & _ & _ & _ & He).
  split; [|split; [|split]].
  - now rewrite (error_kind_400 _ Hs Hj).
  - now rewrite Hp.
  - now rewrite Ht.
  - exact He.
Qed.

Lemma ftp_register_takes_handle_away_witness :
  let s1 := exec (ftp_register 3 (Some "dev-1") None (Some "10.0.0.9") 50)
                 Scenario.registered in
  let s2 := exec (browse 5 (Some "dev-1") (Some "/") 60 "a1b2c3d4e") s1 in
  error_kind (res_get 5 s2) = Some NotConnected /\
  pendingRequests s2 = [].
Proof.
  assert (Hd : "dev-1" <> "") by discriminate.
  assert (Hi : "10.0.0.9" <> "") by discriminate.
  pose proof (@ftp_register_takes_handle_away 3 5 "dev-1" "10.0.0.9" None (Some "/")
                50 60 "a1b2c3d4e" Scenario.registered Hd Hi) as H.
  cbv zeta in H. destruct H as (_ & Hk & Hp & _).
  split; [exact Hk | exact Hp].
Defined.

(* ================================================================== *)
(** ** Download: failures detected at request time *)
(* ================================================================== *)

Lemma status_json_error_sink res code message s :
  let s' := exec (res_status res code ;; res_json res (ReplyError message)) s in
  Res.headers (res_get res s') = Res.headers (res_get res s) /\
  Res.body (res_get res s') = Res.body (res_get res s) /\
  Res.ended (res_get res s') = S (Res.ended (res_get res s)).
Proof. run_handler. rewrite !res_get_set. simpl. repeat split; reflexivity. Qed.

(** X6.  A download for a device id and a path that are not empty is
    answered at once with [NotFound] (404) when the registry has no record
    for the id and with [NotConnected] (400) when the record has no socket;
    a request without device id or without path is answered with
    [InvalidInput] (400).  In each case no request id is generated, no
    entry, timer or promise is made, nothing is emitted, none of the
    download headers is set and no byte is written: the response is ended
    once with the error. *)
Theorem download_fails_at_request_time :
  forall (s : Server) (res : nat) (deviceId path : string)
         (filename : option string) (now : Z) (random : string),
    deviceId <> "" ->
    path <> "" ->
    let run d p := exec (download res d p filename now random) s in
    let clean s' :=
      nothing_allocated s s' /\
      Res.headers (res_get res s') = Res.headers (res_get res s) /\
      Res.body (res_get res s') = Res.body (res_get res s) /\
      Res.ended (res_get res s') = S (Res.ended (res_get res s)) in
    (JSMap.get deviceId (devices s) = None ->
       error_kind (res_get res (run (Some deviceId) (Some path))) = Some NotFound /\
       clean (run (Some deviceId) (Some path))) /\
    (forall device,
       JSMap.get deviceId (devices s) = Some device ->
       Device.socketId device = None ->
       error_kind (res_get res (run (Some deviceId) (Some path)))
       = Some NotConnected /\
       clean (run (Some deviceId) (Some path))) /\
    (error_kind (res_get res (run None (Some path))) = Some InvalidInput /\
     clean (run None (Some path))) /\
    (error_kind (res_get res (run (Some deviceId) None)) = Some InvalidInput /\
     clean (run (Some deviceId) None)).
Proof.
  intros s res deviceId path filename now random Hd Hp. cbv zeta.
  unfold download.
  rewrite (truthy_Some_nonempty Hd), (truthy_Some_nonempty Hp),
    (str_or_Some_nonempty _ Hd).
  cbn [negb orb truthy].
  split; [|split; [|split]].
  - intro Hget. unfold exec. rewrite !bind_get_state, Hget.
    fold (exec (res_status res 404 ;;
                res_json res (ReplyError "Device not found or offline")) s).
    destruct (status_json_error res 404 "Device not found or offline" s)
      as (_ & Hn & Hs & Hj).
    destruct (status_json_error_sink res 404 "Device not found or offline" s)
      as (Hh & Hb & He).
    split; [eapply error_kind_404; eauto|]. split; [exact Hn|].
    split; [exact Hh|]. split; [exact Hb | exact He].
  - intros device Hget Hsock. unfold exec. rewrite !bind_get_state, Hget, Hsock.
    cbn [negb truthy].
    fold (exec (res_status res 400 ;;
                res_json res (ReplyError "Device not connected via WebSocket")) s).
    destruct (status_json_error res 400 "Device not connected via WebSocket" s)
      as (_ & Hn & Hs & Hj).
    destruct (status_json_error_sink res 400 "Device not connected via WebSocket" s)
      as (Hh & Hb & He).
    split; [now rewrite (error_kind_400 _ Hs Hj)|]. split; [exact Hn|].
    split; [exact Hh|]. split; [exact Hb | exact He].
  - destruct (status_json_error res 400 "deviceId and path are required" s)
      as (_ & Hn & Hs & Hj).
    destruct (status_json_error_sink res 400 "deviceId and path are required" s)
      as (Hh & Hb & He).
    split; [now rewrite (error_kind_400 _ Hs Hj)|]. split; [exact Hn|].
    split; [exact Hh|]. split; [exact Hb | exact He].
  - destruct (status_json_error res 400 "deviceId and path are required" s)
      as (_ & Hn & Hs & Hj).
    destruct (status_json_error_sink res 400 "deviceId and path are required" s)
      as (Hh & Hb & He).
    split; [now rewrite (error_kind_400 _ Hs Hj)|]. split; [exact Hn|].
    split; [exact Hh|]. split; [exact Hb | exact He].
Qed.

Lemma download_fails_at_request_time_witness :
  let run d p := exec (download 7 d p None Scenario.t0 "k3x9q2m1z") Scenario.ftp_only in
  error_kind (res_get 7 (run (Some "dev-9") (Some "/a.txt"))) = Some NotFound /\
  error_kind (res_get 7 (run (Some "dev-2") (Some "/a.txt"))) = Some NotConnected.
Proof.
  assert (Hd9 : "dev-9" <> "") by discriminate.
  assert (Hd2 : "dev-2" <> "") by discriminate.
  assert (Hp : "/a.txt" <> "") by discriminate.
  cbv zeta. split.
  - apply (@download_fails_at_request_time Scenario.ftp_only 7 "dev-9" "/a.txt" None
             Scenario.t0 "k3x9q2m1z" Hd9 Hp). reflexivity.
  - eapply (@download_fails_at_request_time Scenario.ftp_only 7 "dev-2" "/a.txt" None
              Scenario.t0 "k3x9q2m1z" Hd2 Hp); reflexivity.
Defined.

(* ================================================================== *)
(** ** Browse, from the request to the answer *)
(* ================================================================== *)

(** The state a browse request that passes the checks leaves behind. *)
Lemma browse_success_state res d device handle path now random s :
  d <> "" ->
  JSMap.get d (devices s) = Some device ->
  Device.socketId device = Some handle ->
  handle <> "" ->
  let requestId := generateRequestId now random in
  let p := nextPromise s in
  browse res (Some d) path now random s
  = (Normal tt,
     mkServer (devices s)
       (JSMap.set requestId
          (PendingRequest.mk (Some p) (Some p) (Some now) None None None)
          (pendingRequests s))
       (sockets s)
       (JSMap.set (nextTimer s) (mkTimer (BrowseTimeout requestId p) (now + 30000))
                  (timers s))
       (S (nextTimer s))
       (JSMap.set p (BrowseAwait res) (promises s))
       (S p) (settleCalls s) (responses s)
       (emitted s ++ [IoToEmit (Some handle) "ftp-list-request"
                        (PListRequest requestId
                           (match path with Some x => x | None => "/" end))])).
Proof.
  intros Hd Hget Hsock Hh. unfold browse.
  rewrite (truthy_Some_nonempty Hd), (str_or_Some_nonempty _ Hd).
  cbn [negb]. rewrite bind_get_state, Hget, Hsock.
  rewrite (truthy_Some_nonempty Hh). reflexivity.
Qed.

(** The first settle call for a promise the browse endpoint awaits writes
    the answer of the request. *)
Lemma settle_first p o res s :
  settled p (settleCalls s) = false ->
  JSMap.get p (promises s) = Some (BrowseAwait res) ->
  exists s',
    settle p o s = (Normal tt, s') /\
    pendingRequests s' = pendingRequests s /\
    timers s' = timers s /\
    emitted s' = emitted s /\
    Res.json (res_get res s')
    = Some (match o with
            | Fulfilled files => ReplyFiles files
            | Rejected message => ReplyError message
            end) /\
    Res.statusCode (res_get res s')
    = (match o with
       | Fulfilled _ => Res.statusCode (res_get res s)
       | Rejected _ => 500
       end) /\
    Res.ended (res_get res s') = S (Res.ended (res_get res s)).
Proof.
  intros Hfresh Hawait. unfold settle. rewrite bind_get_state.
  unfold bind at 1, modify at 1. rewrite Hfresh, Hawait.
  destruct o as [files|message]; run_handler;
    (eexists; split; [reflexivity|]); simpl;
    rewrite !res_get_set; simpl; repeat split; reflexivity.
Qed.

(** X7.  A browse for a registered device with a socket sends one
    [ftp-list-request], tagged with the generated id, to the room of that
    socket.  Whatever then happens first to that id decides the answer of
    the HTTP request, which is ended exactly once: a response with files
    gives [{files}], a response with an error gives 500 with that error, the
    timeout closure gives 500 with [Request timeout]; the entry is gone
    afterwards. *)
Theorem browse_caller_gets_first_outcome :
  forall (s : Server) (res : nat) (d handle random : string) (device : Device.t)
         (path : option string) (now : Z) (first : Resolution),
    d <> "" ->
    JSMap.get d (devices s) = Some device ->
    Device.socketId device = Some handle ->
    handle <> "" ->
    settled (nextPromise s) (settleCalls s) = false ->
    let requestId := generateRequestId now random in
    let s1 := exec (browse res (Some d) path now random) s in
    let s2 := exec (resolution_handler requestId (nextPromise s) first) s1 in
    emitted s1 =
      emitted s ++ [IoToEmit (Some handle) "ftp-list-request"
                      (PListRequest requestId
                         (match path with Some x => x | None => "/" end))] /\
    Res.ended (res_get res s1) = Res.ended (res_get res s) /\
    Res.json (res_get res s2)
    = Some (match resolution_outcome first with
            | Fulfilled files => ReplyFiles files
            | Rejected message => ReplyError message
            end) /\
    Res.statusCode (res_get res s2)
    = (match resolution_outcome first with
       | Fulfilled _ => Res.statusCode (res_get res s)
       | Rejected _ => 500
       end) /\
    Res.ended (res_get res s2) = S (Res.ended (res_get res s)) /\
    JSMap.get requestId (pendingRequests s2) = None.
Proof.
  intros s res d handle random device path now first Hd Hget Hsock Hh Hfresh.
  cbv zeta.
  pose proof (@browse_success_state res d device handle path now random s
                Hd Hget Hsock Hh) as Hb.
  cbv zeta in Hb.
  set (requestId := generateRequestId now random) in *.
  set (p := nextPromise s) in *.
  set (entry := PendingRequest.mk (Some p) (Some p) (Some now) None None None) in *.
  match type of Hb with _ = (_, ?st) => set (s1 := st) in * end.
  assert (Hs1 : exec (browse res (Some d) path now random) s = s1)
    by (unfold exec; now rewrite Hb).
  rewrite !Hs1. clear Hb Hs1.
  split; [reflexivity|]. split; [reflexivity|].
  assert (Hentry : JSMap.get requestId (pendingRequests s1) = Some entry)
    by (unfold s1; simpl; apply JSMapFacts.get_set_eq).
  assert (Hawait : forall f, JSMap.get p (promises (set_pendingRequests f s1))
                             = Some (BrowseAwait res))
    by (intro; unfold s1; simpl; apply JSMapFacts.get_set_eq).
  assert (Hfresh1 : forall f, settled p (settleCalls (set_pendingRequests f s1)) = false)
    by (intro; exact Hfresh).
  assert (Hres1 : forall f, res_get res (set_pendingRequests f s1) = res_get res s)
    by reflexivity.
  destruct first as [sid files error|]; unfold exec; simpl resolution_handler.
  - unfold on_ftp_list_response.
    cbn [ListResponse.requestId ListResponse.files ListResponse.error].
    rewrite bind_get_state, Hentry. unfold call_reject, call_resolve, entry.
    cbn [PendingRequest.reject PendingRequest.resolve resolution_outcome].
    destruct (truthy error).
    + destruct (@settle_first p (Rejected (str_or error "")) res
                  (set_pendingRequests (fun m => m) s1) (Hfresh1 _) (Hawait _))
        as (s' & Hs & Hpend & _ & _ & Hj & Hst & He).
      change (set_pendingRequests (fun m => m) s1) with s1 in Hs.
      unfold bind. rewrite Hs. simpl. res_simpl.
      split; [exact Hj|]. split; [exact Hst|]. split; [exact He|].
      apply JSMapFacts.get_delete_eq.
    + destruct (@settle_first p (Fulfilled files) res
                  (set_pendingRequests (fun m => m) s1) (Hfresh1 _) (Hawait _))
        as (s' & Hs & Hpend & _ & _ & Hj & Hst & He).
      change (set_pendingRequests (fun m => m) s1) with s1 in Hs.
      unfold bind. rewrite Hs. simpl. res_simpl.
      split; [exact Hj|]. split; [exact Hst|]. split; [exact He|].
      apply JSMapFacts.get_delete_eq.
  - unfold browse_timeout. rewrite !bind_get_state, (has_get_Some _ _ Hentry).
    destruct (@settle_first p (Rejected "Request timeout") res
                (set_pendingRequests (JSMap.delete requestId) s1)
                (Hfresh1 _) (Hawait _))
      as (s' & Hs & Hpend & _ & _ & Hj & Hst & He).
    assert (Hrun : (modify (set_pendingRequests (JSMap.delete requestId)) ;;
                    settle p (Rejected "Request timeout")) s1 = (Normal tt, s'))
      by exact Hs.
    rewrite !Hrun. simpl.
    split; [exact Hj|]. split; [exact Hst|]. split; [exact He|].
    rewrite Hpend. apply JSMapFacts.get_delete_eq.
Qed.

Lemma browse_caller_gets_first_outcome_witness :
  let s1 := exec (browse 5 (Some "dev-1") (Some "/") Scenario.t0 "a1b2c3d4e")
                 Scenario.registered in
  let s2 := exec (resolution_handler (generateRequestId Scenario.t0 "a1b2c3d4e")
                    (nextPromise Scenario.registered)
                    (ResponseArrives "sock-A" (JArr []) (Some "EACCES"))) s1 in
  Res.json (res_get 5 s2) = Some (ReplyError "EACCES") /\
  Res.statusCode (res_get 5 s2) = 500.
Proof.
  assert (Hd : "dev-1" <> "") by discriminate.
  assert (Hh : "sock-A" <> "") by discriminate.
  pose proof (@browse_caller_gets_first_outcome Scenario.registered 5 "dev-1"
                "sock-A" "a1b2c3d4e"
                (registered_device "sock-A" "dev-1" Scenario.pixel Scenario.t0)
                (Some "/") Scenario.t0
                (ResponseArrives "sock-A" (JArr []) (Some "EACCES"))
                Hd eq_refl eq_refl Hh eq_refl) as H.
  cbv zeta in H. destruct H as (_ & _ & Hj & Hst & _).
  cbv zeta. split; [exact Hj | exact Hst].
Defined.

(* ================================================================== *)
(** ** Download, from the request to the last chunk *)
(* ================================================================== *)

(** The state a download request that passes the checks leaves behind. *)
Lemma download_success_state res d device handle path filename now random s :
  d <> "" ->
  path <> "" ->
  JSMap.get d (devices s) = Some device ->
  Device.socketId device = Some handle ->
  handle <> "" ->
  Res.headersSent (res_get res s) = false ->
  header_value_ok (str_or filename "download") = true ->
  let requestId := generateRequestId now random in
  let s1 := exec (download res (Some d) (Some path) filename now random) s in
  completion (download res (Some d) (Some path) filename now random) s = Normal tt /\
  JSMap.get requestId (pendingRequests s1)
  = Some (PendingRequest.mk None None None (Some res) (Some now)
                            (Some (nextTimer s))) /\
  timers s1 = JSMap.set (nextTimer s)
                (mkTimer (DownloadTimeout requestId res) (now + 600000)) (timers s) /\
  emitted s1 = emitted s ++ [IoToEmit (Some handle) "ftp-download-request"
                               (PDownloadRequest requestId path)] /\
  res_get res s1 =
    Res.mk (Res.headersSent (res_get res s)) (Res.statusCode (res_get res s))
           (Res.headers (res_get res s)
            ++ [("Content-Disposition",
                 ("attachment; filename=" ++ dquote ++ str_or filename "download"
                  ++ dquote)%string);
                ("Content-Type", "application/octet-stream");
                ("Transfer-Encoding", "chunked")])
           (Res.body (res_get res s)) (Res.json (res_get res s))
           (Res.ended (res_get res s)).
Proof.
  intros Hd Hp Hget Hsock Hh Hsent Hok. cbv zeta. unfold download.
  rewrite (truthy_Some_nonempty Hd), (truthy_Some_nonempty Hp),
    (str_or_Some_nonempty _ Hd), (str_or_Some_nonempty _ Hp).
  cbn [negb orb]. unfold exec, completion. rewrite !bind_get_state, Hget, Hsock.
  rewrite (truthy_Some_nonempty Hh). cbn [negb].
  download_try_block Hsent Hok.
  unfold setTimeout. run_handler. unfold res_get. simpl.
  rewrite !JSMapFacts.get_set_eq. simpl. rewrite <- !app_assoc. simpl.
  repeat split; reflexivity.
Qed.

(** One chunk without error on an entry with a sink: the sink after it. *)
Lemma chunk_without_error sid requestId request r c isLast s :
  JSMap.get requestId (pendingRequests s) = Some request ->
  PendingRequest.response request = Some r ->
  exists s1,
    on_ftp_download_chunk sid (DownloadChunk.mk requestId (Some c) isLast None) s
    = (Normal tt, s1) /\
    pendingRequests s1 = (if isLast then JSMap.delete requestId (pendingRequests s)
                          else pendingRequests s) /\
    timers s1 = (if isLast
                 then match PendingRequest.timeoutId request with
                      | Some tid => JSMap.delete tid (timers s)
                      | None => timers s
                      end
                 else timers s) /\
    Res.headers (res_get r s1) = Res.headers (res_get r s) /\
    Res.json (res_get r s1) = Res.json (res_get r s) /\
    Res.statusCode (res_get r s1) = Res.statusCode (res_get r s) /\
    Res.body (res_get r s1) = Res.body (res_get r s) ++ Base64.decode c /\
    Res.ended (res_get r s1) = (if isLast then S (Res.ended (res_get r s))
                                else Res.ended (res_get r s)).
Proof.
  intros Hget Hresp. unfold on_ftp_download_chunk.
  cbn [DownloadChunk.requestId DownloadChunk.chunk DownloadChunk.isLast
       DownloadChunk.error].
  rewrite bind_get_state, Hget, Hresp. cbn [truthy the_response].
  destruct (negb (c =? "")%string) eqn:Hc.
  - rewrite (str_or_Some_truthy c "" Hc).
    destruct isLast; destruct (PendingRequest.timeoutId request) as [tid|];
      run_handler; (eexists; split; [reflexivity|]); simpl;
      repeat (res_simpl; simpl); repeat split; reflexivity.
  - rewrite (truthy_false_empty c Hc), decode_empty, app_nil_r.
    destruct isLast; destruct (PendingRequest.timeoutId request) as [tid|];
      run_handler; (eexists; split; [reflexivity|]); simpl;
      repeat (res_simpl; simpl); repeat split; reflexivity.
Qed.

Lemma chunks_stream sid requestId request r tid cs last :
  PendingRequest.response request = Some r ->
  PendingRequest.timeoutId request = Some tid ->
  forall s,
    JSMap.get requestId (pendingRequests s) = Some request ->
    exists s',
      run_all (map (on_ftp_download_chunk sid) (chunk_events requestId cs last)) s
      = (Normal tt, s') /\
      pendingRequests s' = JSMap.delete requestId (pendingRequests s) /\
      timers s' = JSMap.delete tid (timers s) /\
      Res.headers (res_get r s') = Res.headers (res_get r s) /\
      Res.json (res_get r s') = Res.json (res_get r s) /\
      Res.statusCode (res_get r s') = Res.statusCode (res_get r s) /\
      Res.body (res_get r s')
      = Res.body (res_get r s) ++ List.concat (map Base64.decode (cs ++ [last])) /\
      Res.ended (res_get r s') = S (Res.ended (res_get r s)).
Proof.
  intros Hresp Htid. induction cs as [|c cs IH]; intros s Hget.
  - destruct (@chunk_without_error sid requestId request r last true s Hget Hresp)
      as (s1 & Hrun & Hp & Ht & Hh & Hj & Hst & Hb & He).
    rewrite Htid in Ht. exists s1. unfold chunk_events. simpl map.
    rewrite (@run_all_cons _ _ _ _ Hrun). simpl. rewrite app_nil_r.
    repeat split; assumption.
  - destruct (@chunk_without_error sid requestId request r c false s Hget Hresp)
      as (s1 & Hrun & Hp & Ht & Hh & Hj & Hst & Hb & He).
    destruct (IH s1) as (s' & Hrun' & Hp' & Ht' & Hh' & Hj' & Hst' & Hb' & He').
    { now rewrite Hp. }
    exists s'. unfold chunk_events in *. simpl map.
    rewrite (@run_all_cons _ _ _ _ Hrun), Hrun'.
    rewrite Hp', Ht', Hh', Hj', Hst', Hb', He', Hp, Ht, Hh, Hj, Hst, Hb, He.
    simpl List.concat. rewrite app_assoc. repeat split; reflexivity.
Qed.

(** X8.  A download for a registered device with a socket, on a response
    whose headers are not sent yet and with a file name a header can carry
    (or none), sends one [ftp-download-request],
    tagged with the generated id, to the room of that socket, and sets the
    three download headers.  When the chunks
    [(c1, false), ..., (cn, true)] for that id have arrived, the HTTP
    response holds the decoded bytes in their order, was ended exactly once
    and carries no JSON body; the entry is gone, and the ten-minute timer
    was cleared, so that its firing is no longer anything. *)
Theorem download_streams_to_caller :
  forall (s : Server) (res : nat) (d handle random path sid last : string)
         (device : Device.t) (filename : option string) (now : Z)
         (cs : list string),
    d <> "" ->
    path <> "" ->
    JSMap.get d (devices s) = Some device ->
    Device.socketId device = Some handle ->
    handle <> "" ->
    Res.headersSent (res_get res s) = false ->
    header_value_ok (str_or filename "download") = true ->
    let requestId := generateRequestId now random in
    let s1 := exec (download res (Some d) (Some path) filename now random) s in
    let events := map (on_ftp_download_chunk sid) (chunk_events requestId cs last) in
    let s2 := exec (run_all events) s1 in
    emitted s1 = emitted s ++ [IoToEmit (Some handle) "ftp-download-request"
                                 (PDownloadRequest requestId path)] /\
    completion (run_all events) s1 = Normal tt /\
    Res.headers (res_get res s2)
    = Res.headers (res_get res s)
      ++ [("Content-Disposition",
           ("attachment; filename=" ++ dquote ++ str_or filename "download"
            ++ dquote)%string);
          ("Content-Type", "application/octet-stream");
          ("Transfer-Encoding", "chunked")] /\
    Res.body (res_get res s2)
    = Res.body (res_get res s) ++ List.concat (map Base64.decode (cs ++ [last])) /\
    Res.ended (res_get res s2) = S (Res.ended (res_get res s)) /\
    Res.json (res_get res s2) = Res.json (res_get res s) /\
    JSMap.get requestId (pendingRequests s2) = None /\
    JSMap.get (nextTimer s) (timers s2) = None /\
    fire_timer (nextTimer s) s2 = (Normal tt, s2).
Proof.
  intros s res d handle random path sid last device filename now cs
         Hd Hp Hget Hsock Hh Hsent Hok. cbv zeta.
  destruct (@download_success_state res d device handle path filename now random s
              Hd Hp Hget Hsock Hh Hsent Hok) as (_ & Hentry & Htim & Hem & Hres).
  set (s1 := exec (download res (Some d) (Some path) filename now random) s) in *.
  destruct (@chunks_stream sid (generateRequestId now random)
              (PendingRequest.mk None None None (Some res) (Some now)
                                 (Some (nextTimer s)))
              res (nextTimer s) cs last eq_refl eq_refl s1 Hentry)
    as (s2 & Hrun & Hp2 & Ht2 & Hh2 & Hj2 & _ & Hb2 & He2).
  unfold exec, completion. rewrite Hrun. simpl.
  assert (Hgone : JSMap.get (nextTimer s) (timers s2) = None)
    by (rewrite Ht2; apply JSMapFacts.get_delete_eq).
  rewrite Hh2, Hj2, Hb2, He2, Hp2, Hres. simpl.
  split; [exact Hem|]. split; [reflexivity|]. split; [reflexivity|].
  split; [reflexivity|]. split; [reflexivity|]. split; [reflexivity|].
  split; [apply JSMapFacts.get_delete_eq|]. split; [exact Hgone|].
  unfold fire_timer. now rewrite bind_get_state, Hgone.
Qed.

Lemma download_streams_to_caller_witness :
  let s1 := exec (download 7 (Some "dev-1") (Some "/sdcard/video.mp4") None
                    Scenario.t0 "k3x9q2m1z") Scenario.registered in
  let events := map (on_ftp_download_chunk "sock-A")
                    (chunk_events (generateRequestId Scenario.t0 "k3x9q2m1z")
                                  ["AA=="] "QkI=") in
  let s2 := exec (run_all events) s1 in
  Res.body (res_get 7 s2) = [0; 66; 66] /\
  Res.ended (res_get 7 s2) = 1%nat.
Proof.
  assert (Hd : "dev-1" <> "") by discriminate.
  assert (Hp : "/sdcard/video.mp4" <> "") by discriminate.
  assert (Hh : "sock-A" <> "") by discriminate.
  pose proof (@download_streams_to_caller Scenario.registered 7 "dev-1" "sock-A"
                "k3x9q2m1z" "/sdcard/video.mp4" "sock-A" "QkI="
                (registered_device "sock-A" "dev-1" Scenario.pixel Scenario.t0)
                None Scenario.t0 ["AA=="] Hd Hp eq_refl eq_refl Hh eq_refl eq_refl)
    as H.
  cbv zeta in H. destruct H as (_ & _ & _ & Hb & He & _).
  cbv zeta. split; [rewrite Hb; reflexivity | rewrite He; reflexivity].
Defined.

(* ================================================================== *)
(** ** Downloads that fail *)
(* ================================================================== *)

(** X10.  A download that ends in failure, by a chunk event carrying an
    error or by its ten-minute timeout: what was already written stays and
    the response is ended exactly once.  If nothing had been sent, the
    caller gets status 500 with the message as JSON; if bytes had been
    sent, the response is only ended, without any sign of the failure, and
    its status stays what it was. *)
Theorem download_failure_reply :
  forall (requestId : string) (request : PendingRequest.t) (r : nat)
         (ev : SinkEvent) (message : string) (s : Server),
    JSMap.get requestId (pendingRequests s) = Some request ->
    PendingRequest.response request = Some r ->
    match ev with
    | ChunkArrives _ _ _ error => truthy error = true /\ message = str_or error ""
    | SinkTimeoutFires => message = "Request timeout"
    end ->
    let s' := exec (sink_handler requestId r ev) s in
    completion (sink_handler requestId r ev) s = Normal tt /\
    JSMap.get requestId (pendingRequests s') = None /\
    Res.body (res_get r s') = Res.body (res_get r s) /\
    Res.headers (res_get r s') = Res.headers (res_get r s) /\
    Res.ended (res_get r s') = S (Res.ended (res_get r s)) /\
    (if Res.headersSent (res_get r s)
     then Res.statusCode (res_get r s') = Res.statusCode (res_get r s) /\
          Res.json (res_get r s') = Res.json (res_get r s)
     else Res.statusCode (res_get r s') = 500 /\
          Res.json (res_get r s') = Some (ReplyError message)).
Proof.
  intros requestId request r ev message s Hget Hresp Hev. cbv zeta.
  destruct ev as [sid chunk isLast error|]; simpl sink_handler.
  - destruct Hev as [Herr ->]. unfold exec, completion, on_ftp_download_chunk.
    cbn [DownloadChunk.requestId DownloadChunk.chunk DownloadChunk.isLast
         DownloadChunk.error].
    rewrite bind_get_state, Hget, Hresp, Herr.
    destruct (PendingRequest.timeoutId request) as [tid|]; run_handler;
      res_simpl; destruct (Res.headersSent (res_get r s)) eqn:Hsent; simpl;
      repeat (res_simpl; simpl);
      rewrite ?JSMapFacts.get_delete_eq, ?Hsent; repeat split; reflexivity.
  - subst message. unfold exec, completion, download_timeout.
    rewrite bind_get_state, (has_get_Some _ _ Hget). run_handler. res_simpl.
    destruct (Res.headersSent (res_get r s)) eqn:Hsent; simpl;
      repeat (res_simpl; simpl);
      rewrite ?JSMapFacts.get_delete_eq, ?Hsent; repeat split; reflexivity.
Qed.

Lemma download_failure_reply_witness :
  let s' := exec (sink_handler Scenario.download_id 7
                    (ChunkArrives "sock-A" None false (Some "File not found")))
                 Scenario.downloading in
  Res.statusCode (res_get 7%nat s') = 500 /\
  Res.json (res_get 7%nat s') = Some (ReplyError "File not found") /\
  Res.ended (res_get 7%nat s') = 1%nat.
Proof.
  pose proof (@download_failure_reply Scenario.download_id
                (PendingRequest.mk None None None (Some 7%nat) (Some Scenario.t0)
                                   (Some 0%nat))
                7%nat (ChunkArrives "sock-A" None false (Some "File not found"))
                "File not found" Scenario.downloading
                eq_refl eq_refl (conj eq_refl eq_refl)) as H.
  cbv zeta in H. destruct H as (_ & _ & _ & _ & He & Hst & Hj).
  cbv zeta. split; [exact Hst|]. split; [exact Hj|]. exact He.
Defined.

(** The download of the examples, ended by an error and followed by a late
    chunk and by the timeout. *)
Lemma download_closes_sink_at_most_once_witness :
  let first := ChunkArrives "sock-A" None false (Some "File not found") in
  let later := [ChunkArrives "sock-A" (Some "QkI=") true None; SinkTimeoutFires] in
  let s1 := exec (sink_handler Scenario.download_id 7%nat first) Scenario.downloading in
  let s2 := exec (run_all (map (sink_handler Scenario.download_id 7) later)) s1 in
  Res.ended (res_get 7%nat s1) = S (Res.ended (res_get 7%nat Scenario.downloading)) /\
  JSMap.get Scenario.download_id (pendingRequests s1) = None /\
  completion (run_all (map (sink_handler Scenario.download_id 7) later)) s1
  = Normal tt /\
  same_but_emitted s1 s2.
Proof.
  exact (@download_closes_sink_at_most_once Scenario.download_id
           (PendingRequest.mk None None None (Some 7%nat) (Some Scenario.t0)
                              (Some 0%nat))
           7%nat (ChunkArrives "sock-A" None false (Some "File not found"))
           [ChunkArrives "sock-A" (Some "QkI=") true None; SinkTimeoutFires]
           Scenario.downloading eq_refl eq_refl eq_refl).
Defined.

(* ================================================================== *)
(** ** Timers *)
(* ================================================================== *)

(** The closures of the two endpoints never touch the timers. *)
Lemma run_callback_timers cb s :
  exists s', run_callback cb s = (Normal tt, s') /\ timers s' = timers s.
Proof.
  destruct cb as [requestId p | requestId r]; simpl.
  - unfold browse_timeout. rewrite bind_get_state.
    destruct (JSMap.has requestId (pendingRequests s)).
    + destruct (settle_spec p (Rejected "Request timeout")
                  (set_pendingRequests (JSMap.delete requestId) s))
        as (s1 & Hs & _ & _ & _ & _ & Htim & _).
      exists s1. split; [exact Hs | exact Htim].
    + exists s. split; reflexivity.
  - unfold download_timeout. rewrite bind_get_state.
    destruct (JSMap.has requestId (pendingRequests s)).
    + run_handler. res_simpl.
      destruct (Res.headersSent (res_get r s)); eexists; split; reflexivity.
    + exists s. split; reflexivity.
Qed.

(** X11.  A timer fires at most once: its firing never throws, takes the
    timer out of the table and leaves the other timers alone, so that a
    second firing of the same timer changes nothing. *)
Theorem timer_fires_at_most_once :
  forall (tid : nat) (s : Server),
    let s' := exec (fire_timer tid) s in
    completion (fire_timer tid) s = Normal tt /\
    JSMap.get tid (timers s') = None /\
    (forall tid', tid' <> tid ->
       JSMap.get tid' (timers s') = JSMap.get tid' (timers s)) /\
    fire_timer tid s' = (Normal tt, s').
Proof.
  intros tid s. cbv zeta.
  assert (Hfirst : exists s1,
             fire_timer tid s = (Normal tt, s1) /\
             (timers s1 = JSMap.delete tid (timers s) \/
              (timers s1 = timers s /\ JSMap.get tid (timers s) = None))).
  { unfold fire_timer. rewrite bind_get_state.
    destruct (JSMap.get tid (timers s)) as [t|] eqn:Hget.
    - destruct (run_callback_timers (callback t)
                  (set_timers (JSMap.delete tid) s)) as (s1 & Hrun & Htim).
      exists s1. split; [exact Hrun | left; exact Htim].
    - exists s. split; [reflexivity | right; split; reflexivity]. }
  destruct Hfirst as (s1 & Hrun & Htim).
  unfold exec, completion. rewrite Hrun. simpl.
  assert (Hgone : JSMap.get tid (timers s1) = None).
  { destruct Htim as [-> | [-> Hnone]];
      [apply JSMapFacts.get_delete_eq | exact Hnone]. }
  split; [reflexivity|]. split; [exact Hgone|]. split.
  - intros tid' Hneq. destruct Htim as [-> | [-> _]]; [|reflexivity].
    now apply JSMapFacts.get_delete_neq.
  - unfold fire_timer. now rewrite bind_get_state, Hgone.
Qed.

(** The request a timer was set for. *)
Lemma run_callback_answered cb s :
  JSMap.get (match cb with
             | BrowseTimeout requestId _ => requestId
             | DownloadTimeout requestId _ => requestId
             end) (pendingRequests s) = None ->
  run_callback cb s = (Normal tt, s).
Proof.
  destruct cb as [requestId p | requestId r]; simpl; intro Hget.
  - unfold browse_timeout. now rewrite bind_get_state, (has_get_None _ _ Hget).
  - unfold download_timeout. now rewrite bind_get_state, (has_get_None _ _ Hget).
Qed.

(** X12.  The timer of a request that is no longer pending is inert: when
    it fires, it is taken out of the table and nothing else changes: no
    promise is settled, no response is written, nothing is emitted. *)
Theorem timer_of_answered_request_is_inert :
  forall (tid : nat) (t : Timer) (requestId : string) (s : Server),
    JSMap.get tid (timers s) = Some t ->
    requestId = match callback t with
                | BrowseTimeout k _ => k
                | DownloadTimeout k _ => k
                end ->
    JSMap.get requestId (pendingRequests s) = None ->
    fire_timer tid s = (Normal tt, set_timers (JSMap.delete tid) s).
Proof.
  intros tid t requestId s Hget -> Hgone.
  unfold fire_timer. rewrite bind_get_state, Hget.
  change ((modify (set_timers (JSMap.delete tid)) ;; run_callback (callback t)) s)
    with (run_callback (callback t) (set_timers (JSMap.delete tid) s)).
  apply run_callback_answered. exact Hgone.
Qed.

Lemma timer_of_answered_request_is_inert_witness :
  let data := ListResponse.mk Scenario.browse_id (JArr []) None in
  let s := exec (on_ftp_list_response "sock-A" data) Scenario.browsing in
  fire_timer 0 s = (Normal tt, set_timers (JSMap.delete 0%nat) s).
Proof.
  cbv zeta.
  exact (@timer_of_answered_request_is_inert 0%nat
           (mkTimer (BrowseTimeout Scenario.browse_id 0%nat)
                    (Scenario.t0 + 30000))
           Scenario.browse_id
           (exec (on_ftp_list_response "sock-A"
                    (ListResponse.mk Scenario.browse_id (JArr []) None))
                 Scenario.browsing)
           eq_refl eq_refl eq_refl).
Defined.

(* ================================================================== *)
(** ** Responses of a device and the other requests *)
(* ================================================================== *)

Lemma get_delete_other {V} (k k' : string) (m : JSMap.t string V) :
  k' <> k -> JSMap.get k' (JSMap.delete k m) = JSMap.get k' m.
Proof. intro Hneq. now apply JSMapFacts.get_delete_neq. Qed.

(** X13.  A response event of a device acts on the entry of its own id
    only, whether the handler returns or throws: the registry and the
    sockets stay as they are and every other pending request keeps its
    entry.  A list response leaves all timers; a chunk event clears at most
    the timer stored in its own entry. *)
Theorem device_response_touches_only_its_entry :
  forall (sid : string) (answer : ListResponse.t) (piece : DownloadChunk.t)
         (s : Server),
    (let s' := exec (on_ftp_list_response sid answer) s in
     devices s' = devices s /\
     sockets s' = sockets s /\
     timers s' = timers s /\
     forall k, k <> ListResponse.requestId answer ->
       JSMap.get k (pendingRequests s') = JSMap.get k (pendingRequests s)) /\
    (let s' := exec (on_ftp_download_chunk sid piece) s in
     devices s' = devices s /\
     sockets s' = sockets s /\
     (forall k, k <> DownloadChunk.requestId piece ->
        JSMap.get k (pendingRequests s') = JSMap.get k (pendingRequests s)) /\
     forall tid,
       (forall request,
          JSMap.get (DownloadChunk.requestId piece) (pendingRequests s)
          = Some request ->
          PendingRequest.timeoutId request <> Some tid) ->
       JSMap.get tid (timers s') = JSMap.get tid (timers s)).
Proof.
  intros sid answer piece s. split; cbv zeta.
  - unfold exec, on_ftp_list_response. rewrite bind_get_state.
    destruct (JSMap.get (ListResponse.requestId answer) (pendingRequests s))
      as [request|]; [|simpl; repeat split; reflexivity].
    unfold call_reject, call_resolve.
    assert (Hsettle : forall p o,
      let s' := snd (((settle p o ;;
                       modify (set_pendingRequests
                                 (JSMap.delete (ListResponse.requestId answer)))) ;;
                      s' <- get_state ;;
                      io_emit "ftp-list-response"
                        (PListResponse (ListResponse.requestId answer)
                           (socket_deviceId sid s') (ListResponse.files answer)
                           (ListResponse.error answer))) s) in
      devices s' = devices s /\ sockets s' = sockets s /\ timers s' = timers s /\
      forall k, k <> ListResponse.requestId answer ->
        JSMap.get k (pendingRequests s') = JSMap.get k (pendingRequests s)).
    { intros p o. cbv zeta.
      destruct (settle_spec p o s) as (s1 & Hs & _ & Hp & Hd & Hso & Ht & _).
      match goal with |- context [snd (?h s)] =>
        assert (Hrun : exists e,
                  h s = (Normal tt,
                         add_emitted e
                           (set_pendingRequests
                              (JSMap.delete (ListResponse.requestId answer)) s1)))
      end.
      { unfold bind. rewrite Hs. eexists. reflexivity. }
      destruct Hrun as (e & Hrun). rewrite !Hrun. simpl.
      rewrite Hp, Hd, Hso, Ht. split; [reflexivity|]. split; [reflexivity|].
      split; [reflexivity|]. intros k Hk. now apply get_delete_other. }
    destruct (truthy (ListResponse.error answer)).
    + destruct (PendingRequest.reject request) as [p|];
        [apply Hsettle | simpl; repeat split; reflexivity].
    + destruct (PendingRequest.resolve request) as [p|];
        [apply Hsettle | simpl; repeat split; reflexivity].
  - unfold exec, on_ftp_download_chunk. rewrite bind_get_state.
    destruct (JSMap.get (DownloadChunk.requestId piece) (pendingRequests s))
      as [request|] eqn:Hget; [|simpl; repeat split; reflexivity].
    assert (Hother : forall tid,
              (forall request0, Some request = Some request0 ->
                 PendingRequest.timeoutId request0 <> Some tid) ->
              forall t, PendingRequest.timeoutId request = Some t ->
                JSMap.get tid (JSMap.delete t (timers s)) = JSMap.get tid (timers s)).
    { intros tid Hno t Ht. apply JSMapFacts.get_delete_neq.
      intros ->. exact (Hno request eq_refl Ht). }
    destruct (PendingRequest.response request) as [r|];
      destruct (truthy (DownloadChunk.error piece));
      destruct (PendingRequest.timeoutId request) as [t|];
      destruct (truthy (DownloadChunk.chunk piece));
      destruct (DownloadChunk.isLast piece);
      run_handler; res_simpl;
      try (destruct (Res.headersSent (res_get r s)); simpl);
      (split; [reflexivity|]); (split; [reflexivity|]);
      (split; [intros k Hk; try reflexivity; now apply get_delete_other|]);
      intros tid Hno; try reflexivity; now apply (Hother tid Hno).
Qed.

(* ================================================================== *)
(** ** Monitored apps: the endpoints *)
(* ================================================================== *)

Lemma same_package_eq a b : Apps.same_package a b = true <-> a = b.
Proof.
  destruct a as [x|], b as [y|]; simpl; split; try discriminate; try reflexivity.
  - intro H. apply String.eqb_eq in H. now subst.
  - intros [= ->]. apply String.eqb_refl.
Qed.

Lemma findIndex_None {A} (p : A -> bool) (l : list A) :
  findIndex p l = None -> forall x, In x l -> p x = false.
Proof.
  induction l as [|y l IH]; simpl; [tauto|].
  destruct (p y) eqn:Hp; [discriminate|].
  destruct (findIndex p l); [discriminate|].
  intros _ x [<-|Hin]; auto.
Qed.

Lemma findIndex_Some {A} (p : A -> bool) (l : list A) :
  forall i, findIndex p l = Some i ->
    exists l1 x l2,
      l = l1 ++ x :: l2 /\ List.length l1 = i /\ p x = true /\
      forall y, In y l1 -> p y = false.
Proof.
  induction l as [|y l IH]; simpl; [discriminate|].
  intros i. destruct (p y) eqn:Hp.
  - intros [= <-]. exists [], y, l. simpl. tauto.
  - destruct (findIndex p l) as [j|]; [|discriminate].
    intros [= <-]. destruct (IH j eq_refl) as (l1 & x & l2 & -> & Hlen & Hx & Hl1).
    exists (y :: l1), x, l2. simpl. repeat split; auto.
    intros z [<-|Hz]; auto.
Qed.

Lemma assign_middle {A} (a x : A) (l1 l2 : list A) :
  assign (List.length l1) a (l1 ++ x :: l2) = l1 ++ a :: l2.
Proof. induction l1 as [|y l1 IH]; simpl; [reflexivity | now rewrite IH]. Qed.

Lemma existsb_false {A} (p : A -> bool) (l : list A) :
  (forall x, In x l -> p x = false) -> existsb p l = false.
Proof.
  induction l as [|y l IH]; simpl; [reflexivity|].
  intro H. rewrite (H y) by now left. apply IH. auto.
Qed.

Lemma existsb_over_map {A B} (f : A -> B) (p : B -> bool) (l : list A) :
  existsb p (map f l) = existsb (fun x => p (f x)) l.
Proof. induction l as [|y l IH]; simpl; [reflexivity | now rewrite IH]. Qed.

Lemma apps_of_set d l t (m : Apps.Store) :
  Apps.apps_of d (JSMap.set d (Apps.mkData l t) m) = l.
Proof. unfold Apps.apps_of. now rewrite JSMapFacts.get_set_eq. Qed.

(** What [update] stores for the device. *)
Lemma update_apps d app now m :
  d <> "" ->
  let before := Apps.apps_of d m in
  Apps.update (Some d) (Some app) now m
  = (Apps.Ok,
     JSMap.set d
       (Apps.mkData
          match findIndex (fun a => Apps.same_package (Apps.packageName a)
                                      (Apps.packageName app)) before with
          | Some i => assign i app before
          | None => before ++ [app]
          end now) m).
Proof.
  intro Hd. unfold Apps.update, Apps.apps_of.
  rewrite (truthy_Some_nonempty Hd), (str_or_Some_nonempty _ Hd).
  destruct (JSMap.get d m); reflexivity.
Qed.

(** X14.  [/api/apps/update] is an upsert keyed by the package name.  For
    a package the device already lists, the first descriptor with that
    name is replaced where it stands, so the list of package names does not
    change; for a new package the descriptor is appended.  Either way the
    descriptor sent is in the list afterwards, descriptors of other
    packages are neither added nor lost, a list without repeated package
    names stays one, the time of the update is recorded, and the data of
    other devices is not touched. *)
Theorem apps_update_upserts :
  forall (d : string) (app : Apps.App) (now : Z) (m : Apps.Store),
    d <> "" ->
    let r := Apps.update (Some d) (Some app) now m in
    let before := Apps.apps_of d m in
    let after := Apps.apps_of d (snd r) in
    fst r = Apps.Ok /\
    In app after /\
    Apps.packages after
    = (if existsb (fun p => Apps.same_package p (Apps.packageName app))
                  (Apps.packages before)
       then Apps.packages before
       else Apps.packages before ++ [Apps.packageName app]) /\
    (forall a, Apps.packageName a <> Apps.packageName app ->
               (In a after <-> In a before)) /\
    (NoDup (Apps.packages before) -> NoDup (Apps.packages after)) /\
    option_map Apps.lastUpdate (JSMap.get d (snd r)) = Some now /\
    (forall d', d' <> d -> JSMap.get d' (snd r) = JSMap.get d' m).
Proof.
  intros d app now m Hd. cbv zeta. rewrite (update_apps app now m Hd).
  cbv zeta. cbn [fst snd].
  set (before := Apps.apps_of d m).
  set (p := fun a => Apps.same_package (Apps.packageName a) (Apps.packageName app)).
  assert (Hafter : forall l,
            Apps.apps_of d (JSMap.set d (Apps.mkData l now) m) = l).
  { intro l. unfold Apps.apps_of. now rewrite JSMapFacts.get_set_eq. }
  rewrite Hafter, JSMapFacts.get_set_eq. unfold Apps.packages.
  rewrite existsb_over_map. fold p.
  split; [reflexivity|].
  destruct (findIndex p before) as [i|] eqn:Hfind.
  - destruct (findIndex_Some p before Hfind)
      as (l1 & x & l2 & Hsplit & Hlen & Hx & Hl1).
    subst i. rewrite Hsplit, assign_middle.
    assert (Hpkg : Apps.packageName x = Apps.packageName app)
      by (apply same_package_eq; exact Hx).
    assert (Hnames : map Apps.packageName (l1 ++ app :: l2)
                     = map Apps.packageName (l1 ++ x :: l2))
      by (rewrite !map_app; simpl; now rewrite Hpkg).
    assert (Hex : existsb p (l1 ++ x :: l2) = true).
    { apply existsb_exists. exists x. split; [|exact Hx].
      apply in_or_app. right. now left. }
    rewrite Hex, Hnames.
    split; [apply in_or_app; right; now left|].
    split; [reflexivity|]. split.
    + intros a Ha. rewrite !in_app_iff. simpl.
      split; (intros [H|[H|H]]; [now left | subst a; congruence | now right; right]).
    + split; [auto|]. split; [reflexivity|].
      intros d' Hneq. now apply JSMapFacts.get_set_neq.
  - pose proof (findIndex_None p before Hfind) as Hnone.
    rewrite (existsb_false p before Hnone), map_app. simpl.
    split; [apply in_or_app; right; now left|].
    split; [reflexivity|]. split.
    + intros a Ha. rewrite in_app_iff. simpl.
      split; [intros [H|[H|[]]]; [exact H | subst a; congruence] | now left].
    + split.
      * intro Hnd. apply NoDup_app; [exact Hnd | repeat constructor; simpl; tauto |].
        intros pk Hin [<-|[]]. apply in_map_iff in Hin.
        destruct Hin as (a & Ha & Hin). specialize (Hnone a Hin).
        unfold p in Hnone. rewrite (proj2 (same_package_eq _ _) Ha) in Hnone.
        discriminate.
      * split; [reflexivity|].
        intros d' Hneq. now apply JSMapFacts.get_set_neq.
Qed.

Lemma apps_update_upserts_witness :
  let chat1 := Apps.mkApp (Some "org.chat") (Some "Chat") JNull in
  let chat2 := Apps.mkApp (Some "org.chat") (Some "Chat 2") JNull in
  let maps := Apps.mkApp (Some "org.maps") (Some "Maps") JNull in
  let m := [("dev-1", Apps.mkData [chat1; maps] 5)] in
  let r := Apps.update (Some "dev-1") (Some chat2) 9 m in
  Apps.packages (Apps.apps_of "dev-1" (snd r)) = [Some "org.chat"; Some "org.maps"] /\
  In chat2 (Apps.apps_of "dev-1" (snd r)).
Proof.
  assert (Hd : "dev-1" <> "") by discriminate.
  pose proof (@apps_update_upserts "dev-1"
                (Apps.mkApp (Some "org.chat") (Some "Chat 2") JNull) 9
                [("dev-1", Apps.mkData
                             [Apps.mkApp (Some "org.chat") (Some "Chat") JNull;
                              Apps.mkApp (Some "org.maps") (Some "Maps") JNull] 5)]
                Hd) as H.
  cbv zeta in H. destruct H as (_ & Hin & Hpk & _).
  cbv zeta. split; [rewrite Hpk; reflexivity | exact Hin].
Defined.

(** What [remove] stores for a device with data. *)
Lemma remove_apps d pkg now m :
  d <> "" -> pkg <> "" ->
  Apps.remove (Some d) (Some pkg) now m
  = match JSMap.get d m with
    | Some data =>
        (Apps.Ok,
         JSMap.set d
           (Apps.mkData
              (filter (fun a => negb (Apps.same_package (Apps.packageName a)
                                        (Some pkg)))
                      (Apps.apps data)) now) m)
    | None => (Apps.Ok, m)
    end.
Proof.
  intros Hd Hp. unfold Apps.remove.
  rewrite (truthy_Some_nonempty Hd), (truthy_Some_nonempty Hp),
    (str_or_Some_nonempty _ Hd).
  reflexivity.
Qed.

(** X15.  [/api/apps/remove] takes every descriptor with the package name
    out of the list of the device and keeps the others; it answers with
    success also when the device has no data, and then stores nothing; the
    data of other devices is not touched. *)
Theorem apps_remove_drops_package :
  forall (d pkg : string) (now : Z) (m : Apps.Store),
    d <> "" ->
    pkg <> "" ->
    let r := Apps.remove (Some d) (Some pkg) now m in
    let before := Apps.apps_of d m in
    let after := Apps.apps_of d (snd r) in
    fst r = Apps.Ok /\
    (forall a, In a after <-> In a before /\ Apps.packageName a <> Some pkg) /\
    ~ In (Some pkg) (Apps.packages after) /\
    (JSMap.get d m = None -> snd r = m) /\
    (forall d', d' <> d -> JSMap.get d' (snd r) = JSMap.get d' m).
Proof.
  intros d pkg now m Hd Hp. cbv zeta. rewrite (remove_apps now m Hd Hp).
  unfold Apps.apps_of.
  assert (Hkeep : forall a : Apps.App,
            negb (Apps.same_package (Apps.packageName a) (Some pkg)) = true
            <-> Apps.packageName a <> Some pkg).
  { intro a. rewrite negb_true_iff, <- not_true_iff_false, same_package_eq.
    reflexivity. }
  destruct (JSMap.get d m) as [data|] eqn:Hget; cbn [fst snd].
  - rewrite JSMapFacts.get_set_eq. cbn [Apps.apps].
    split; [reflexivity|]. split.
    { intro a. rewrite filter_In, Hkeep. reflexivity. }
    split.
    { unfold Apps.packages. intro Hin. apply in_map_iff in Hin.
      destruct Hin as (a & Ha & Hin). apply filter_In in Hin.
      destruct Hin as [_ Hin]. apply Hkeep in Hin. contradiction. }
    split; [discriminate|].
    intros d' Hneq. now apply JSMapFacts.get_set_neq.
  - rewrite Hget. simpl. split; [reflexivity|]. split; [tauto|].
    split; [tauto|]. split; reflexivity.
Qed.

Lemma apps_remove_drops_package_witness :
  let chat := Apps.mkApp (Some "org.chat") (Some "Chat") JNull in
  let maps := Apps.mkApp (Some "org.maps") (Some "Maps") JNull in
  let m := [("dev-1", Apps.mkData [chat; maps; chat] 5)] in
  let r := Apps.remove (Some "dev-1") (Some "org.chat") 9 m in
  ~ In (Some "org.chat") (Apps.packages (Apps.apps_of "dev-1" (snd r))).
Proof.
  assert (Hd : "dev-1" <> "") by discriminate.
  assert (Hp : "org.chat" <> "") by discriminate.
  pose proof (@apps_remove_drops_package "dev-1" "org.chat" 9
                [("dev-1", Apps.mkData
                             [Apps.mkApp (Some "org.chat") (Some "Chat") JNull;
                              Apps.mkApp (Some "org.maps") (Some "Maps") JNull;
                              Apps.mkApp (Some "org.chat") (Some "Chat") JNull] 5)]
                Hd Hp) as H.
  cbv zeta in H. destruct H as (_ & _ & Hno & _).
  cbv zeta. exact Hno.
Defined.

(** X16.  Installing and uninstalling: an update for a package the device
    does not list, followed by the removal of that package, gives back the
    list of descriptors the device had. *)
Theorem apps_update_then_remove :
  forall (d pkg : string) (app : Apps.App) (now now' : Z) (m : Apps.Store),
    d <> "" ->
    pkg <> "" ->
    Apps.packageName app = Some pkg ->
    ~ In (Some pkg) (Apps.packages (Apps.apps_of d m)) ->
    let m1 := snd (Apps.update (Some d) (Some app) now m) in
    let m2 := snd (Apps.remove (Some d) (Some pkg) now' m1) in
    Apps.apps_of d m1 = Apps.apps_of d m ++ [app] /\
    Apps.apps_of d m2 = Apps.apps_of d m.
Proof.
  intros d pkg app now now' m Hd Hp Hname Hnew. cbv zeta.
  rewrite (update_apps app now m Hd). cbv zeta. cbn [snd].
  assert (Hnone : forall a, In a (Apps.apps_of d m) ->
            Apps.same_package (Apps.packageName a) (Some pkg) = false).
  { intros a Hin. apply not_true_iff_false. rewrite same_package_eq.
    intro Ha. apply Hnew. unfold Apps.packages. rewrite <- Ha. now apply in_map. }
  assert (Hfind : findIndex (fun a => Apps.same_package (Apps.packageName a)
                                        (Apps.packageName app))
                            (Apps.apps_of d m) = None).
  { rewrite Hname.
    destruct (findIndex _ (Apps.apps_of d m)) as [i|] eqn:Hf; [|reflexivity].
    destruct (findIndex_Some _ _ Hf) as (l1 & x & l2 & Hsplit & _ & Hx & _).
    rewrite (Hnone x) in Hx; [discriminate|].
    rewrite Hsplit. apply in_or_app. right. now left. }
  rewrite Hfind, (remove_apps now' _ Hd Hp), JSMapFacts.get_set_eq.
  cbn [snd Apps.apps]. rewrite !apps_of_set.
  split; [reflexivity|].
  rewrite filter_app. simpl. rewrite Hname.
  rewrite (proj2 (same_package_eq (Some pkg) (Some pkg)) eq_refl). simpl.
  rewrite app_nil_r. apply filter_all.
  intros a Hin. now rewrite (Hnone a Hin).
Qed.

Lemma apps_update_then_remove_witness :
  let maps := Apps.mkApp (Some "org.maps") (Some "Maps") JNull in
  let chat := Apps.mkApp (Some "org.chat") (Some "Chat") JNull in
  let m := [("dev-1", Apps.mkData [maps] 5)] in
  let m1 := snd (Apps.update (Some "dev-1") (Some chat) 7 m) in
  let m2 := snd (Apps.remove (Some "dev-1") (Some "org.chat") 9 m1) in
  Apps.apps_of "dev-1" m1 = [maps; chat] /\
  Apps.apps_of "dev-1" m2 = [maps].
Proof.
  assert (Hd : "dev-1" <> "") by discriminate.
  assert (Hp : "org.chat" <> "") by discriminate.
  assert (Hnew : ~ In (Some "org.chat")
                   (Apps.packages
                      (Apps.apps_of "dev-1"
                         [("dev-1",
                           Apps.mkData
                             [Apps.mkApp (Some "org.maps") (Some "Maps") JNull]
                             5)]))).
  { simpl. intros [H|[]]. discriminate. }
  exact (@apps_update_then_remove "dev-1" "org.chat"
           (Apps.mkApp (Some "org.chat") (Some "Chat") JNull) 7 9
           [("dev-1", Apps.mkData
                        [Apps.mkApp (Some "org.maps") (Some "Maps") JNull] 5)]
           Hd Hp eq_refl Hnew).
Defined.

Lemma double_of_Z_safe (t : Z) : Z.abs t <= 2 ^ 53 -> Apps.double_of_Z t = t.
Proof.
  intro Ht. unfold Apps.double_of_Z.
  destruct (Z.leb_spec (Z.abs t) (2 ^ 53)); [reflexivity | lia].
Qed.

(** X17.  [/api/apps/sync] replaces what is stored for the device: a
    [list] that follows it answers with the array that was sent, its
    length, and the time stamp of the request when that is an integer of
    at most [2^53] in absolute value (which a double holds exactly), or
    the clock when the request has none (or has [0]).  What [list] answers
    for other devices is what it answered before. *)
Theorem apps_sync_then_list :
  forall (d : string) (apps : list Apps.App) (timestamp : option Z) (now : Z)
         (m : Apps.Store),
    d <> "" ->
    (forall t, timestamp = Some t -> Z.abs t <= 2 ^ 53) ->
    let r := Apps.sync (Some d) (Some apps) timestamp now m in
    fst r = Apps.SyncOk (List.length apps) /\
    Apps.list (Some d) (snd r)
    = Apps.AppList apps
        (Some (match timestamp with
               | Some t => if t =? 0 then now else t
               | None => now
               end))
        (Some (List.length apps)) /\
    (forall d', d' <> d -> Apps.list (Some d') (snd r) = Apps.list (Some d') m).
Proof.
  intros d apps timestamp now m Hd Hsafe. cbv zeta. unfold Apps.sync, Apps.list.
  rewrite (truthy_Some_nonempty Hd), (str_or_Some_nonempty _ Hd).
  cbn [fst snd negb]. rewrite JSMapFacts.get_set_eq. cbn [Apps.apps Apps.lastUpdate].
  split; [reflexivity|]. split.
  { destruct timestamp as [t|]; [|reflexivity].
    simpl. now rewrite (@double_of_Z_safe t (Hsafe t eq_refl)). }
  intros d' Hneq. destruct (truthy (Some d')) eqn:Ht; [|reflexivity].
  cbn [negb].
  assert (Hd' : str_or (Some d') "" = d').
  { apply str_or_Some_nonempty. intros ->. discriminate. }
  rewrite Hd'. now rewrite JSMapFacts.get_set_neq.
Qed.

Lemma apps_sync_then_list_witness :
  let chat := Apps.mkApp (Some "org.chat") (Some "Chat") JNull in
  let r := Apps.sync (Some "dev-1") (Some [chat]) (Some 1700000000000) 42 [] in
  Apps.list (Some "dev-1") (snd r)
  = Apps.AppList [chat] (Some 1700000000000) (Some 1%nat).
Proof.
  assert (Hd : "dev-1" <> "") by discriminate.
  assert (Hsafe : forall t, Some 1700000000000 = Some t -> Z.abs t <= 2 ^ 53).
  { intros t [= <-]. intro H. discriminate H. }
  pose proof (@apps_sync_then_list "dev-1"
                [Apps.mkApp (Some "org.chat") (Some "Chat") JNull]
                (Some 1700000000000) 42 [] Hd Hsafe) as H.
  cbv zeta in H. destruct H as (_ & Hl & _).
  cbv zeta. exact Hl.
Defined.

(** Beyond [2^53] the time stamp that comes back is the double nearest to
    the one sent. *)
Example sync_rounds_a_large_timestamp :
  let chat := Apps.mkApp (Some "org.chat") (Some "Chat") JNull in
  let r := Apps.sync (Some "dev-1") (Some [chat]) (Some 9007199254740993) 42 [] in
  Apps.list (Some "dev-1") (snd r)
  = Apps.AppList [chat] (Some 9007199254740992) (Some 1%nat).
Proof. vm_compute. reflexivity. Qed.

(* ================================================================== *)
(** ** Monitored apps: the sweep *)
(* ================================================================== *)

Section SweepFacts.
Context {V : Type}.
Implicit Types (m : JSMap.t string V).

Variable old : string * V -> bool.

Lemma sweep_fold (l : list (string * V)) :
  forall acc : JSMap.t string V * nat,
    fold_left
      (fun acc e =>
         if old e then (JSMap.delete (fst e) (fst acc), S (snd acc)) else acc)
      l acc
    = (delete_keys (map fst (filter old l)) (fst acc),
       (snd acc + List.length (filter old l))%nat).
Proof.
  induction l as [|e l IH]; intros [m n]; simpl.
  - now rewrite Nat.add_0_r.
  - rewrite IH. destruct (old e); simpl; [|reflexivity].
    f_equal. lia.
Qed.

Lemma delete_old_keys m :
  JSMap.wf m ->
  delete_keys (map fst (filter old m)) m = filter (fun e => negb (old e)) m.
Proof.
  intro Hwf. rewrite delete_keys_filter.
  apply filter_ext_in. intros [k d] Hin. simpl. f_equal.
  destruct (old (k, d)) eqn:Hs.
  - apply mem_key_In. apply in_map_iff.
    exists (k, d). split; [reflexivity|]. apply filter_In. now split.
  - destruct (mem_key k (map fst (filter old m))) eqn:Hm; [|reflexivity].
    apply mem_key_In in Hm. apply in_map_iff in Hm.
    destruct Hm as ([k' d'] & Hk & Hin'). simpl in Hk. subst k'.
    apply filter_In in Hin'. destruct Hin' as [Hin' Hs'].
    apply (JSMapFacts.In_get _ _ Hwf) in Hin.
    apply (JSMapFacts.In_get _ _ Hwf) in Hin'. congruence.
Qed.

Lemma filter_split_length (l : list (string * V)) :
  (List.length (filter old l) + List.length (filter (fun e => negb (old e)) l)
   = List.length l)%nat.
Proof.
  induction l as [|e l IH]; simpl; [reflexivity|].
  destruct (old e); simpl; lia.
Qed.

Variable key : string * V -> Z.
Variable n : nat.

(** Deleting the keys of the first [n] entries in ascending order of [key]
    leaves the other entries, up to order. *)
Lemma delete_first_sorted_Permutation m :
  JSMap.wf m ->
  Permutation (delete_keys (map fst (firstn n (sort_by key m))) m)
              (skipn n (sort_by key m)).
Proof.
  intro Hwf. rewrite delete_keys_filter.
  set (first := firstn n (sort_by key m)).
  set (rest := skipn n (sort_by key m)).
  set (P := fun e : string * V => negb (mem_key (fst e) (map fst first))).
  assert (Hperm : Permutation (sort_by key m) m) by apply sort_by_Permutation.
  eapply Permutation_trans.
  { apply Permutation_filter, Permutation_sym, Hperm. }
  assert (Hsplit : sort_by key m = first ++ rest)
    by (unfold first, rest; now rewrite firstn_skipn).
  rewrite Hsplit at 1. rewrite filter_app.
  rewrite (filter_none P first), (filter_all P rest).
  - apply Permutation_refl.
  - intros e He. subst P. simpl.
    destruct (mem_key (fst e) (map fst first)) eqn:Hm; [|reflexivity].
    exfalso. apply mem_key_In in Hm.
    assert (Hnd : NoDup (map fst first ++ map fst rest)).
    { rewrite <- map_app, <- Hsplit.
      apply (wf_Permutation (Permutation_sym Hperm) Hwf). }
    apply (NoDup_app_disjoint _ _ _ Hnd Hm). now apply in_map.
  - intros e He. subst P. simpl.
    assert (Hm : mem_key (fst e) (map fst first) = true)
      by (apply mem_key_In; now apply in_map).
    now rewrite Hm.
Qed.

Lemma first_or_rest m e :
  In e m -> In e (firstn n (sort_by key m)) \/ In e (skipn n (sort_by key m)).
Proof.
  intro Hin. apply in_app_or. rewrite firstn_skipn.
  apply (Permutation_in _ (Permutation_sym (sort_by_Permutation key m))).
  exact Hin.
Qed.

End SweepFacts.

(** The two steps of the sweep of the monitored apps. *)
Lemma cleanupMonitoredApps_spec cfg now (m : Apps.Store) :
  JSMap.wf m ->
  let fresh := filter (fun e => negb (Apps.stale cfg now (snd e))) m in
  let over := (JSMap.size fresh - MAX_MONITORED_APPS cfg)%nat in
  Apps.cleanupMonitoredApps cfg now m
  = if (MAX_MONITORED_APPS cfg <? JSMap.size fresh)%nat
    then (delete_keys (map fst (firstn over (sort_by Apps.update_time fresh))) fresh,
          (List.length (filter (fun e => Apps.stale cfg now (snd e)) m)
           + List.length (firstn over (sort_by Apps.update_time fresh)))%nat)
    else (fresh, List.length (filter (fun e => Apps.stale cfg now (snd e)) m)).
Proof.
  intros Hwf fresh over. unfold Apps.cleanupMonitoredApps, JSMap.entries.
  rewrite (sweep_fold (fun e => Apps.stale cfg now (snd e))).
  cbn [fst snd]. rewrite (delete_old_keys _ Hwf). fold fresh.
  destruct (MAX_MONITORED_APPS cfg <? JSMap.size fresh)%nat; [|reflexivity].
  etransitivity; [apply (@enforce_max_fold Apps.AppData) | reflexivity].
Qed.

(** X18.  The sweep of the monitored apps, on a map with one entry per
    device.  No entry older than the TTL survives and at most
    [MAX_MONITORED_APPS] entries are left; every survivor is an entry of
    the map before, with its data; an entry that is gone was updated no
    later than every survivor; while the entries within the TTL fit the
    limit, none of them is removed; and the counter is the number of
    entries that went. *)
Theorem cleanupMonitoredApps_evicts_stale_then_oldest :
  forall (cfg : Config) (now : Z) (m : Apps.Store),
    JSMap.wf m ->
    let r := Apps.cleanupMonitoredApps cfg now m in
    let m' := fst r in
    let within_ttl (d : Apps.AppData) :=
      now - Apps.lastUpdate d <= MONITORED_APPS_TTL cfg in
    JSMap.wf m' /\
    (JSMap.size m' <= MAX_MONITORED_APPS cfg)%nat /\
    (forall k d, JSMap.get k m' = Some d ->
                 JSMap.get k m = Some d /\ within_ttl d) /\
    (forall k d k' d',
        JSMap.get k m' = Some d ->
        JSMap.get k' m = Some d' ->
        JSMap.get k' m' = None ->
        Apps.lastUpdate d' <= Apps.lastUpdate d) /\
    ((List.length (filter (fun e => negb (Apps.stale cfg now (snd e))) m)
      <= MAX_MONITORED_APPS cfg)%nat ->
     forall k d, JSMap.get k m = Some d -> within_ttl d ->
                 JSMap.get k m' = Some d) /\
    (snd r + JSMap.size m' = JSMap.size m)%nat.
Proof.
  intros cfg now m Hwf. cbv zeta.
  rewrite (cleanupMonitoredApps_spec cfg now Hwf). cbv zeta.
  set (fresh := filter (fun e => negb (Apps.stale cfg now (snd e))) m).
  set (over := (JSMap.size fresh - MAX_MONITORED_APPS cfg)%nat).
  set (first := firstn over (sort_by Apps.update_time fresh)).
  assert (Hwf_fresh : JSMap.wf fresh) by (apply wf_filter; exact Hwf).
  assert (Hstale : forall d, Apps.stale cfg now d = false
                             <-> now - Apps.lastUpdate d <= MONITORED_APPS_TTL cfg).
  { intro d. unfold Apps.stale. rewrite Z.gtb_ltb, Z.ltb_ge. reflexivity. }
  assert (Hfresh : forall k d, JSMap.get k fresh = Some d <->
             JSMap.get k m = Some d
             /\ now - Apps.lastUpdate d <= MONITORED_APPS_TTL cfg).
  { intros k d. unfold fresh. rewrite (get_filter _ k Hwf). simpl.
    destruct (JSMap.get k m) as [d0|]; [|intuition discriminate].
    destruct (Apps.stale cfg now d0) eqn:Hs; simpl.
    - split; [discriminate|]. intros [[= ->] Hle].
      apply Hstale in Hle. congruence.
    - apply Hstale in Hs. split.
      + intros [= ->]. now split.
      + now intros [[= ->] _]. }
  pose proof (filter_split_length (fun e => Apps.stale cfg now (snd e)) m)
    as Hcount.
  cbv beta in Hcount. fold fresh in Hcount.
  destruct (Nat.ltb_spec (MAX_MONITORED_APPS cfg) (JSMap.size fresh)) as [Hlt|Hge];
    cbn [fst snd].
  - pose proof (delete_first_sorted_Permutation Apps.update_time over Hwf_fresh)
      as Hperm. fold first in Hperm.
    set (m' := delete_keys (map fst first) fresh) in *.
    assert (Hwf' : JSMap.wf m') by (apply wf_delete_keys; exact Hwf_fresh).
    assert (Hlen_first : List.length first = over).
    { unfold first. rewrite length_firstn.
      rewrite (Permutation_length (sort_by_Permutation Apps.update_time fresh)).
      unfold over, JSMap.size. lia. }
    assert (Hsize : (JSMap.size m' + over = JSMap.size fresh)%nat).
    { unfold JSMap.size at 1. rewrite (Permutation_length Hperm), length_skipn.
      rewrite (Permutation_length (sort_by_Permutation Apps.update_time fresh)).
      unfold over, JSMap.size. lia. }
    assert (Hsub : forall k d, JSMap.get k m' = Some d -> JSMap.get k fresh = Some d).
    { intros k d. unfold m'.
      rewrite delete_keys_filter, (get_filter _ k Hwf_fresh).
      destruct (JSMap.get k fresh) as [d0|]; [|discriminate].
      now destruct (negb _). }
    split; [exact Hwf'|]. split; [unfold over in Hsize; lia|].
    split; [intros k d Hd; apply Hfresh, Hsub, Hd|]. split.
    + intros k d k' d' Hd Hd' Hnone.
      pose proof (Hsub _ _ Hd) as Hdf. apply Hfresh in Hdf.
      destruct Hdf as [_ Hdle].
      destruct (Z.lt_ge_cases (MONITORED_APPS_TTL cfg) (now - Apps.lastUpdate d'))
        as [Hold|Hnew]; [lia|].
      assert (Hd'f : JSMap.get k' fresh = Some d') by (apply Hfresh; now split).
      apply JSMapFacts.get_In in Hd, Hd'f.
      apply (Permutation_in _ Hperm) in Hd.
      destruct (first_or_rest Apps.update_time over fresh _ Hd'f) as [Hex|Hkept].
      * apply (@sorted_prefix_le _ Apps.update_time over
                 (sort_by Apps.update_time fresh) (k', d') (k, d)
                 (sort_by_sorted Apps.update_time fresh) Hex Hd).
      * apply (Permutation_in _ (Permutation_sym Hperm)) in Hkept.
        apply (JSMapFacts.In_get _ _ Hwf') in Hkept. congruence.
    + split; [unfold JSMap.size in Hlt; fold fresh; lia|].
      rewrite Hlen_first. unfold JSMap.size in *. lia.
  - split; [exact Hwf_fresh|]. split; [exact Hge|].
    split; [intros k d Hd; apply Hfresh, Hd|]. split.
    + intros k d k' d' Hd Hd' Hnone.
      apply Hfresh in Hd. destruct Hd as [_ Hdle].
      destruct (Z.lt_ge_cases (MONITORED_APPS_TTL cfg) (now - Apps.lastUpdate d'))
        as [Hold|Hnew]; [lia|].
      assert (Hd'f : JSMap.get k' fresh = Some d') by (apply Hfresh; now split).
      congruence.
    + split; [intros _ k d Hd Hle; apply Hfresh; now split|].
      unfold JSMap.size in *. lia.
Qed.

Lemma sample_store_wf :
  JSMap.wf [("a", Apps.mkData [] 5000); ("b", Apps.mkData [] 100);
            ("c", Apps.mkData [] 4000); ("d", Apps.mkData [] 4500)].
Proof.
  unfold JSMap.wf. simpl.
  repeat (constructor; [simpl; intuition discriminate|]). constructor.
Qed.

(** Four devices, one past the TTL, room for two: [b] goes for its age,
    then [c] as the one updated longest ago. *)
Lemma cleanupMonitoredApps_evicts_stale_then_oldest_witness :
  let m := [("a", Apps.mkData [] 5000); ("b", Apps.mkData [] 100);
            ("c", Apps.mkData [] 4000); ("d", Apps.mkData [] 4500)] in
  let r := Apps.cleanupMonitoredApps Scenario.small_cfg 5000 m in
  (JSMap.size (fst r) <= 2)%nat /\
  (snd r + JSMap.size (fst r) = 4)%nat.
Proof.
  pose proof (@cleanupMonitoredApps_evicts_stale_then_oldest Scenario.small_cfg
                5000 _ sample_store_wf) as H.
  cbv zeta in H. destruct H as (_ & Hle & _ & _ & _ & Hcount).
  cbv zeta. split; [exact Hle | exact Hcount].
Defined.

(* ================================================================== *)
(** ** Remote trigger *)
(* ================================================================== *)

(** X20.  [startMirroring] answers [true] exactly when the registry has a
    record for the id, and then emits one [REQUEST_MIRROR] to the room of
    the socket handle stored in the record, with the quality asked for or
    [high].  For a record without a handle, as the HTTP registration makes
    them, the answer is [true] although the room has no member: the request
    reaches no socket. *)
Theorem startMirroring_true_means_record :
  forall (targetDeviceId : string) (quality : option string) (s : Server),
    let r := startMirroring targetDeviceId quality s in
    (fst r = true <-> JSMap.get targetDeviceId (devices s) <> None) /\
    (fst r = false -> snd r = []) /\
    (forall device,
       JSMap.get targetDeviceId (devices s) = Some device ->
       snd r = [(Device.socketId device, str_or quality "high")] /\
       (Device.socketId device = None ->
        fst r = true /\
        forall e, In e (snd r) -> room_members s (fst e) = [])).
Proof.
  intros targetDeviceId quality s. cbv zeta. unfold startMirroring.
  destruct (JSMap.get targetDeviceId (devices s)) as [device|]; cbn [fst snd].
  - split; [split; [discriminate | reflexivity]|].
    split; [discriminate|].
    intros device' [= <-]. split; [reflexivity|].
    intro Hnone. split; [reflexivity|].
    intros e [<-|[]]. cbn [fst]. now rewrite Hnone.
  - split; [split; [discriminate | intro H; now elim H]|].
    split; [reflexivity|]. discriminate.
Qed.

(* ================================================================== *)
(** ** Upload completion *)
(* ================================================================== *)

Section UploadFacts.
Variable path_join : string -> string -> string.
Variables UPLOAD_DIR FINAL_DIR : string.
Variable FS : Type.
Variable fs_rename : string -> string -> FS -> Tus.Outcome FS.
Variable fs_unlink : string -> FS -> FS.
(** The content of the regular file at a path, if there is one. *)
Variable fs_read : FS -> string -> option (list Z).

Let tempPath := Tus.tempPath path_join UPLOAD_DIR.
Let finalPath := Tus.finalPath path_join FINAL_DIR.
Let metaPath := Tus.metaPath path_join UPLOAD_DIR.
Let onUploadFinish :=
  Tus.onUploadFinish path_join UPLOAD_DIR FINAL_DIR fs_rename fs_unlink.

(** X21.  [onUploadFinish], for any file system.  When [fs.rename]
    rejects, the hook throws that error, announces nothing and does not
    touch the [.json] file.  When it resolves, the hook returns, [fs.unlink]
    of the [.json] path being its last act, and with [io] set exactly one
    [ftp-upload-complete] is announced, with the id, the device, the name,
    the size and the final path of the upload.  On a file system where a
    rename that resolves moves the content of a regular file and touches no
    other path, and where unlink frees its path and touches no other, the
    content of the temporary file is then found under the final path,
    unless that is also the path of the upload's own [.json] file, in which
    case it is gone; the temporary path (when it is not the final path) and
    the [.json] path are free, and no other path changes. *)
Theorem onUploadFinish_moves_upload :
  (forall src dst fs fs1 content,
      fs_read fs src = Some content ->
      fs_rename src dst fs = Tus.Done fs1 ->
      fs_read fs1 dst = Some content /\
      (src <> dst -> fs_read fs1 src = None) /\
      (forall p, p <> src -> p <> dst -> fs_read fs1 p = fs_read fs p)) ->
  (forall p fs,
      fs_read (fs_unlink p fs) p = None /\
      (forall q, q <> p -> fs_read (fs_unlink p fs) q = fs_read fs q)) ->
  forall (io : bool) (upload : Tus.Upload) (now : Z) (fs : FS),
    let r := onUploadFinish io upload now fs in
    let fs' := snd (fst r) in
    match fs_rename (tempPath upload) (finalPath upload now) fs with
    | Tus.Failed err => r = (Throw err, fs, [])
    | Tus.Done fs1 =>
        fst (fst r) = Normal tt /\
        fs' = fs_unlink (metaPath upload) fs1 /\
        snd r = (if io
                 then [Tus.mkUploadComplete (Tus.id upload)
                         (Tus.meta Tus.deviceId upload)
                         (Tus.finalName upload now) (Tus.size upload)
                         (finalPath upload now)]
                 else []) /\
        forall content,
          fs_read fs (tempPath upload) = Some content ->
          fs_read fs' (finalPath upload now)
          = (if String.eqb (finalPath upload now) (metaPath upload)
             then None else Some content) /\
          (tempPath upload <> finalPath upload now ->
           fs_read fs' (tempPath upload) = None) /\
          fs_read fs' (metaPath upload) = None /\
          (forall p, p <> tempPath upload -> p <> finalPath upload now ->
                     p <> metaPath upload ->
                     fs_read fs' p = fs_read fs p)
    end.
Proof.
  intros Hrename Hunlink io upload now fs. cbv zeta.
  unfold onUploadFinish, Tus.onUploadFinish.
  fold (tempPath upload) (finalPath upload now) (metaPath upload).
  destruct (fs_rename (tempPath upload) (finalPath upload now) fs)
    as [fs1|err] eqn:Hmove; [|reflexivity].
  cbn [fst snd]. split; [reflexivity|]. split; [reflexivity|].
  split; [reflexivity|].
  intros content Hcontent.
  destruct (Hrename _ _ _ _ _ Hcontent Hmove) as (Hdst & Hsrc & Hother).
  destruct (Hunlink (metaPath upload) fs1) as (Hgone & Hkeep).
  split.
  { destruct (String.eqb_spec (finalPath upload now) (metaPath upload))
      as [Heq|Hneq].
    - rewrite Heq. exact Hgone.
    - rewrite (Hkeep _ Hneq). exact Hdst. }
  split.
  { intro Hneq.
    destruct (String.eqb_spec (tempPath upload) (metaPath upload)) as [Heq|Hneq'].
    - rewrite Heq. exact Hgone.
    - rewrite (Hkeep _ Hneq'). exact (Hsrc Hneq). }
  split; [exact Hgone|].
  intros p Htemp Hfinal Hmeta. rewrite (Hkeep _ Hmeta). now apply Hother.
Qed.


End UploadFacts.

(** The example file system does what the two hypotheses ask. *)
Lemma disk_rename_moves src dst d d1 content :
  Tus.read d src = Some content ->
  Tus.disk_rename src dst d = Tus.Done d1 ->
  Tus.read d1 dst = Some content /\
  (src <> dst -> Tus.read d1 src = None) /\
  (forall p, p <> src -> p <> dst -> Tus.read d1 p = Tus.read d p).
Proof.
  intros Hsrc. unfold Tus.disk_rename. rewrite Hsrc.
  destruct (negb (Tus.is_dir d (Tus.parent dst))); [discriminate|].
  destruct (Tus.is_dir d dst); [discriminate|].
  intros [= <-]. unfold Tus.read. cbn [Tus.files]. split; [|split].
  - apply JSMapFacts.get_set_eq.
  - intro Hneq. rewrite JSMapFacts.get_set_neq by exact Hneq.
    apply JSMapFacts.get_delete_eq.
  - intros p Hps Hpd. rewrite JSMapFacts.get_set_neq by exact Hpd.
    now apply JSMapFacts.get_delete_neq.
Qed.

Lemma disk_unlink_removes p d :
  Tus.read (Tus.disk_unlink p d) p = None /\
  (forall q, q <> p -> Tus.read (Tus.disk_unlink p d) q = Tus.read d q).
Proof.
  unfold Tus.read, Tus.disk_unlink. cbn [Tus.files]. split.
  - apply JSMapFacts.get_delete_eq.
  - intros q Hq. now apply JSMapFacts.get_delete_neq.
Qed.

Lemma onUploadFinish_moves_upload_witness :
  let upload := Tus.mkUpload "u1" 3
                  (Some (Tus.mkMetadata (Some "dev-1") (Some "a.txt"))) in
  let disk := Tus.mkDisk [("tmp/u1", [1; 2; 3]); ("tmp/u1.json", [])]
                         ["tmp"; "done"] in
  let r := Tus.onUploadFinish Tus.plain_join "tmp" "done" Tus.disk_rename
             Tus.disk_unlink true upload 5 disk in
  Tus.read (snd (fst r)) "done/a.txt" = Some [1; 2; 3] /\
  Tus.read (snd (fst r)) "tmp/u1" = None /\
  Tus.read (snd (fst r)) "tmp/u1.json" = None.
Proof.
  pose proof (@onUploadFinish_moves_upload Tus.plain_join "tmp" "done" Tus.Disk
                Tus.disk_rename Tus.disk_unlink Tus.read
                disk_rename_moves disk_unlink_removes true
                (Tus.mkUpload "u1" 3
                   (Some (Tus.mkMetadata (Some "dev-1") (Some "a.txt"))))
                5
                (Tus.mkDisk [("tmp/u1", [1; 2; 3]); ("tmp/u1.json", [])]
                            ["tmp"; "done"])) as H.
  cbv zeta in H.
  change (Tus.disk_rename
            (Tus.tempPath Tus.plain_join "tmp"
               (Tus.mkUpload "u1" 3
                  (Some (Tus.mkMetadata (Some "dev-1") (Some "a.txt")))))
            (Tus.finalPath Tus.plain_join "done"
               (Tus.mkUpload "u1" 3
                  (Some (Tus.mkMetadata (Some "dev-1") (Some "a.txt")))) 5)
            (Tus.mkDisk [("tmp/u1", [1; 2; 3]); ("tmp/u1.json", [])]
                        ["tmp"; "done"]))
    with (Tus.Done (Tus.mkDisk [("tmp/u1.json", []); ("done/a.txt", [1; 2; 3])]
                               ["tmp"; "done"])) in H.
  cbv iota in H. destruct H as (_ & _ & _ & H).
  destruct (H [1; 2; 3] eq_refl) as (Hfinal & Htemp & Hmeta & _).
  cbv zeta. split; [exact Hfinal|]. split; [|exact Hmeta].
  apply Htemp. discriminate.
Defined.


(** A file name that points into a directory that does not exist: the
    rename rejects, the hook throws, nothing is moved and nothing is
    announced. *)
Example upload_into_missing_directory :
  let upload := Tus.mkUpload "u1" 3
                  (Some (Tus.mkMetadata (Some "dev-1") (Some "sub/a.txt"))) in
  let disk := Tus.mkDisk [("tmp/u1", [1; 2; 3]); ("tmp/u1.json", [])]
                         ["tmp"; "done"] in
  Tus.onUploadFinish Tus.plain_join "tmp" "done" Tus.disk_rename
    Tus.disk_unlink true upload 5 disk
  = (Throw "ENOENT", disk, []).
Proof. vm_compute. reflexivity. Qed.

(* ================================================================== *)
(** ** Reachable states: what the maps hold *)
(* ================================================================== *)

Lemma In_delete_keys {V} (ks : list string) (m : JSMap.t string V)
  (e : string * V) :
  In e (delete_keys ks m) -> In e m.
Proof. rewrite delete_keys_filter. intro Hin. now apply filter_In in Hin. Qed.

Lemma In_sweep_devices cfg now m e :
  In e (fst (sweep_devices cfg now m)) -> In e m.
Proof.
  unfold sweep_devices. rewrite evict_stale_spec, enforce_max_spec.
  destruct (MAX_DEVICES cfg <? _)%nat; cbn [fst]; intro Hin.
  - now apply In_delete_keys, In_delete_keys in Hin.
  - now apply In_delete_keys in Hin.
Qed.

Section Keeps.
Variable I : Server -> Prop.

Lemma keeps_ret {A} (a : A) : keeps I (ret a).
Proof. intros s Hs. exact Hs. Qed.

Lemma keeps_throw {A} (e : string) : keeps I (@throw A e).
Proof. intros s Hs. exact Hs. Qed.

Lemma keeps_get_state : keeps I get_state.
Proof. intros s Hs. exact Hs. Qed.

Lemma keeps_bind {A B} (h : Handler A) (k : A -> Handler B) :
  keeps I h -> (forall a, keeps I (k a)) -> keeps I (bind h k).
Proof.
  intros Hh Hk s Hs. unfold bind. specialize (Hh s Hs).
  destruct (h s) as [[a|e] s1]; simpl in *; [now apply Hk | exact Hh].
Qed.

Lemma keeps_try_catch (h : Handler unit) : keeps I h -> keeps I (try_catch h).
Proof.
  intros Hh s Hs. unfold try_catch. specialize (Hh s Hs).
  now destruct (h s) as [[[]|e] s1].
Qed.

Lemma keeps_catch {A} (h : Handler A) (k : string -> Handler A) :
  keeps I h -> (forall e, keeps I (k e)) -> keeps I (catch h k).
Proof.
  intros Hh Hk s Hs. unfold catch. specialize (Hh s Hs).
  destruct (h s) as [[a|e] s1]; simpl in *; [exact Hh | now apply Hk].
Qed.

Lemma keeps_modify (f : Server -> Server) :
  (forall s, I s -> I (f s)) -> keeps I (modify f).
Proof. intros Hf s Hs. now apply Hf. Qed.

Lemma keeps_fold_handler {A B} (body : B -> A -> Handler B) (l : list A) :
  (forall acc x, keeps I (body acc x)) ->
  forall acc, keeps I (fold_handler body l acc).
Proof.
  intro Hbody. induction l as [|x l IH]; intro acc; simpl.
  - apply keeps_ret.
  - apply keeps_bind; [apply Hbody | exact IH].
Qed.

End Keeps.

Lemma keeps_shapes_new_promise k : keeps shapes_ok (new_promise k).
Proof. intros s Hs. exact Hs. Qed.

Lemma keeps_shapes_setTimeout cb delay now :
  keeps shapes_ok (setTimeout cb delay now).
Proof. intros s Hs. exact Hs. Qed.

(** A write to one of the two maps: the entry written has one of the
    shapes, the entries left were there before. *)
Ltac shapes_after_write :=
  let Hd := fresh "Hd" in
  let Hp := fresh "Hp" in
  let Hin := fresh "Hin" in
  intros ? [Hd Hp]; split; simpl; intros ? ? Hin;
  try (apply In_set in Hin; destruct Hin as [Hin|Hin];
       [inversion Hin; subst; clear Hin|]);
  try apply In_delete in Hin;
  first
    [ exact (Hd _ _ Hin)
    | exact (Hp _ _ Hin)
    | unfold record_ok, registered_device; simpl;
      repeat split; (reflexivity || discriminate)
    | left; unfold browse_entry; simpl;
      split; [eexists; split; reflexivity|];
      repeat split; (reflexivity || discriminate)
    | right; unfold download_entry; simpl;
      repeat split; (reflexivity || discriminate) ].

Ltac keeps_shapes_step :=
  lazymatch goal with
  | |- keeps _ (bind _ _) => apply keeps_bind; [|intro]
  | |- keeps _ (ret _) => apply keeps_ret
  | |- keeps _ (throw _) => apply keeps_throw
  | |- keeps _ get_state => apply keeps_get_state
  | |- keeps _ (try_catch _) => apply keeps_try_catch
  | |- keeps _ (catch _ _) => apply keeps_catch; [|intro]
  | |- keeps _ (new_promise _) => apply keeps_shapes_new_promise
  | |- keeps _ (setTimeout _ _ _) => apply keeps_shapes_setTimeout
  | |- keeps _ (fold_handler _ _ _) => apply keeps_fold_handler; intros
  | |- keeps _ (modify _) => apply keeps_modify; shapes_after_write
  | |- keeps _ (match ?x with _ => _ end) => destruct x
  | |- keeps _ (let _ := _ in _) => cbv zeta
  end.

Ltac keeps_shapes_auto :=
  repeat first
    [ keeps_shapes_step
    | progress unfold call_resolve, call_reject, the_response, settle,
        browse_continue, broadcastDeviceList, set_socket_deviceId,
        res_status, res_json, res_write, res_end, res_setHeader, res_update,
        clearTimeout, io_emit, io_to_emit, socket_emit ].

Lemma keeps_shapes_cleanupStaleDevices cfg now :
  keeps shapes_ok (cleanupStaleDevices cfg now).
Proof.
  intros s [Hd Hp]. unfold cleanupStaleDevices. run_handler. split; simpl.
  - intros k d Hin. apply Hd. now apply In_sweep_devices in Hin.
  - exact Hp.
Qed.

Lemma keeps_shapes_handle ev : keeps shapes_ok (handle ev).
Proof.
  destruct ev as [sid|sid data uuid now|sid data uuid now|sid|k sid data
                  |sid data now|sid data|sid data|sid
                  |res deviceId deviceName ipAddress now
                  |res deviceId path now random
                  |res deviceId path filename now random|tid|now];
    simpl handle.
  - unfold on_connection. keeps_shapes_auto.
  - unfold on_register. keeps_shapes_auto.
  - unfold on_register_device. keeps_shapes_auto.
  - unfold on_get_devices. keeps_shapes_auto.
  - destruct k; simpl; unfold on_offer, on_answer, on_ice_candidate;
      keeps_shapes_auto.
  - unfold on_ping. keeps_shapes_auto.
  - unfold ftp_list_response_listener, on_ftp_list_response.
    keeps_shapes_auto.
  - unfold ftp_download_chunk_listener, on_ftp_download_chunk.
    keeps_shapes_auto.
  - unfold disconnect, transport_close, on_disconnect. keeps_shapes_auto.
  - unfold ftp_register. keeps_shapes_auto.
  - unfold browse. keeps_shapes_auto.
  - unfold download. keeps_shapes_auto.
  - unfold fire_timer, run_callback, browse_timeout, download_timeout.
    keeps_shapes_auto.
  - unfold runPeriodicCleanup, cleanupPendingRequests, cleanup_request.
    apply keeps_bind; [apply keeps_shapes_cleanupStaleDevices | intro].
    keeps_shapes_auto.
Qed.

Lemma reachable_shapes_ok s : reachable s -> shapes_ok s.
Proof.
  induction 1 as [|s ev _ IH].
  - split; intros k x [].
  - unfold exec. apply keeps_shapes_handle. exact IH.
Qed.

(** X23.  Whatever sequence of events the server has handled, every record
    of the registry is stored under its own [id], has status [online] and
    both time stamps, and lacks a socket handle only if its type is
    [ftp-only].  So the device list that is broadcast names the keys of the
    registry, in the order of first registration, and says [online] for
    each of them. *)
Theorem reachable_registry_records :
  forall s : Server,
    reachable s ->
    (forall k d, JSMap.get k (devices s) = Some d -> record_ok k d) /\
    map DeviceInfo.id (snapshot s) = JSMap.keys (devices s) /\
    (forall i, In i (snapshot s) -> DeviceInfo.status i = "online").
Proof.
  intros s Hreach. destruct (reachable_shapes_ok Hreach) as [Hd _].
  split; [intros k d Hget; apply Hd; now apply JSMapFacts.get_In|].
  unfold snapshot, JSMap.values, JSMap.keys, JSMap.entries in *.
  split.
  - rewrite !map_map. apply map_ext_in. intros [k d] Hin. simpl.
    apply (Hd k d Hin).
  - intros i Hin. apply in_map_iff in Hin. destruct Hin as (d & <- & Hin).
    apply in_map_iff in Hin. destruct Hin as ([k d'] & Heq & Hin).
    simpl in Heq. subst d'. apply (Hd k d Hin).
Qed.

Lemma reachable_registry_records_witness :
  let s := exec (handle (EvFtpRegister 3 (Some "dev-2") None (Some "10.0.0.9") 20))
             (exec (handle (EvRegister "sock-A" (Some Scenario.pixel) "u" 10))
                (exec (handle (EvConnection "sock-A")) initial)) in
  map DeviceInfo.id (snapshot s) = JSMap.keys (devices s).
Proof.
  cbv zeta.
  assert (Hreach : reachable
            (exec (handle (EvFtpRegister 3 (Some "dev-2") None (Some "10.0.0.9") 20))
               (exec (handle (EvRegister "sock-A" (Some Scenario.pixel) "u" 10))
                  (exec (handle (EvConnection "sock-A")) initial))))
    by (do 3 apply reachable_step; apply reachable_initial).
  destruct (reachable_registry_records Hreach) as (_ & Hids & _).
  exact Hids.
Defined.

(** X24.  Whatever sequence of events the server has handled, every entry
    of the correlation table is one of the two object literals: what
    browse stores ([resolve], [reject] and [timestamp], nothing else) or
    what download stores ([response] and [startTime], neither [resolve],
    [reject] nor [timestamp]).  So the entries without [timestamp] are
    exactly the downloads, and so are the entries without [resolve]. *)
Theorem reachable_pending_entries :
  forall s : Server,
    reachable s ->
    forall k r,
      JSMap.get k (pendingRequests s) = Some r ->
      (browse_entry r \/ download_entry r) /\
      (PendingRequest.timestamp r = None <-> PendingRequest.response r <> None) /\
      (PendingRequest.resolve r = None <-> PendingRequest.response r <> None) /\
      (PendingRequest.reject r = None <-> PendingRequest.response r <> None).
Proof.
  intros s Hreach k r Hget. destruct (reachable_shapes_ok Hreach) as [_ Hp].
  pose proof (Hp k r (JSMapFacts.get_In _ _ Hget)) as Hshape.
  split; [exact Hshape|].
  destruct Hshape as [((p & Hres & Hrej) & Hts & Hresp & _)
                     | (Hres & Hrej & Hts & Hresp & _)].
  - rewrite Hres, Hrej, Hresp.
    repeat split; intro H; try discriminate H; try contradiction; now elim H.
  - rewrite Hres, Hrej, Hts. repeat split; auto.
Qed.

Lemma reachable_pending_entries_witness :
  let s := exec (handle (EvDownload 7 (Some "dev-1") (Some "/a") None 30 "r"))
             (exec (handle (EvRegister "sock-A" (Some Scenario.pixel) "u" 10))
                (exec (handle (EvConnection "sock-A")) initial)) in
  let r := PendingRequest.mk None None None (Some 7%nat) (Some 30) (Some 0%nat) in
  JSMap.get (generateRequestId 30 "r") (pendingRequests s) = Some r /\
  (browse_entry r \/ download_entry r).
Proof.
  cbv zeta.
  assert (Hreach : reachable
            (exec (handle (EvDownload 7 (Some "dev-1") (Some "/a") None 30 "r"))
               (exec (handle (EvRegister "sock-A" (Some Scenario.pixel) "u" 10))
                  (exec (handle (EvConnection "sock-A")) initial))))
    by (do 3 apply reachable_step; apply reachable_initial).
  assert (Hget : JSMap.get (generateRequestId 30 "r")
                   (pendingRequests
                      (exec (handle (EvDownload 7 (Some "dev-1") (Some "/a") None
                                       30 "r"))
                         (exec (handle (EvRegister "sock-A" (Some Scenario.pixel)
                                          "u" 10))
                            (exec (handle (EvConnection "sock-A")) initial))))
                 = Some (PendingRequest.mk None None None (Some 7%nat) (Some 30)
                                           (Some 0%nat)))
    by (vm_compute; reflexivity).
  split; [exact Hget|].
  exact (proj1 (@reachable_pending_entries _ Hreach _ _ Hget)).
Defined.

(* ================================================================== *)
(** ** The pending-request sweep on the scenarios *)
(* ================================================================== *)

(** The download of the examples, one millisecond after it started. *)
Lemma sweep_deletes_entries_without_timestamp_witness :
  JSMap.get Scenario.download_id
    (pendingRequests
       (exec (cleanupPendingRequests CLEANUP_CONFIG (Scenario.t0 + 1))
             Scenario.downloading))
  = None.
Proof.
  exact (@sweep_deletes_entries_without_timestamp CLEANUP_CONFIG (Scenario.t0 + 1)
           Scenario.downloading Scenario.download_id
           (PendingRequest.mk None None None (Some 7%nat) (Some Scenario.t0)
                              (Some 0%nat))
           eq_refl eq_refl eq_refl).
Defined.

Lemma browsing_pending_wf : JSMap.wf (pendingRequests Scenario.browsing).
Proof.
  unfold JSMap.wf. vm_compute. constructor; [simpl; tauto | constructor].
Qed.

(** The browse of the examples, one second after it started. *)
Lemma sweep_keeps_young_timestamped_entries_witness :
  JSMap.get Scenario.browse_id
    (pendingRequests
       (exec (cleanupPendingRequests CLEANUP_CONFIG (Scenario.t0 + 1000))
             Scenario.browsing))
  = Some (PendingRequest.mk (Some 0%nat) (Some 0%nat) (Some Scenario.t0)
                            None None None).
Proof.
  assert (Ht : Scenario.t0 <> 0) by discriminate.
  assert (Hage : Scenario.t0 + 1000 - Scenario.t0
                 <= PENDING_REQUEST_TIMEOUT CLEANUP_CONFIG)
    by (intro H; discriminate H).
  exact (@sweep_keeps_young_timestamped_entries CLEANUP_CONFIG
           (Scenario.t0 + 1000) Scenario.browsing Scenario.browse_id
           (PendingRequest.mk (Some 0%nat) (Some 0%nat) (Some Scenario.t0)
                              None None None)
           Scenario.t0 browsing_pending_wf eq_refl eq_refl Ht Hage).
Defined.

(* ================================================================== *)
(** ** A disconnect with a download in flight *)
(* ================================================================== *)

(** C9, at the failing input.  Device [dev-1] on socket [sock-A] has a
    download in flight since [t0], and [dev-2] is registered over HTTP.
    The disconnect of [sock-A] removes the record of [dev-1] only,
    broadcasts the list that is left and leaves the correlation table and
    the timers as they are.  But the request is not failed later by its own
    timeout: the sweep of the pending requests that the periodic cleanup
    runs, here five minutes after the download started, deletes the entry
    without touching the response, and when the ten-minute timer of the
    request fires it finds no entry and does nothing.  The HTTP response
    is never answered and never ended. *)
Theorem disconnect_then_sweep_leaves_download_open :
  let s0 := exec (download 7 (Some "dev-1") (Some "/sdcard/video.mp4") None
                    Scenario.t0 "k3x9q2m1z") Scenario.ftp_only in
  let s1 := exec (disconnect "sock-A") s0 in
  let s2 := exec (cleanupPendingRequests CLEANUP_CONFIG
                    (Scenario.t0 + CLEANUP_INTERVAL CLEANUP_CONFIG)) s1 in
  let s3 := exec (fire_timer 0) s2 in
  JSMap.keys (devices s0) = ["dev-1"; "dev-2"] /\
  JSMap.keys (devices s1) = ["dev-2"] /\
  emitted s1
  = emitted s0
    ++ [IoEmit "devices"
          (PDevices [DeviceInfo.mk "dev-2" "Tablet" "ftp-only" "online"])] /\
  pendingRequests s1 = pendingRequests s0 /\
  JSMap.keys (pendingRequests s1) = [Scenario.download_id] /\
  timers s1 = timers s0 /\
  option_map dueAt (JSMap.get 0%nat (timers s1)) = Some (Scenario.t0 + 600000) /\
  completion (cleanupPendingRequests CLEANUP_CONFIG
                (Scenario.t0 + CLEANUP_INTERVAL CLEANUP_CONFIG)) s1
  = Normal 1%nat /\
  JSMap.keys (pendingRequests s2) = [] /\
  Res.ended (res_get 7 s2) = 0%nat /\
  devices s2 = devices s1 /\
  timers s2 = timers s1 /\
  completion (fire_timer 0) s2 = Normal tt /\
  Res.statusCode (res_get 7 s3) = Res.statusCode (res_get 7 s0) /\
  Res.json (res_get 7 s3) = None /\
  Res.ended (res_get 7 s3) = 0%nat /\
  JSMap.size (timers s3) = 0%nat.
Proof. vm_compute. repeat split; reflexivity. Qed.

(** X29.  The disconnect handler in general.  For a socket that has a
    device id it deletes the record stored under that id and broadcasts, to
    all sockets, the list made of the records that are left; for a socket
    without device id it changes and emits nothing but the socket's own
    state.  Either way every other record stays, and the correlation table,
    the timers, the promises, the settle calls and the responses are what
    they were. *)
Theorem disconnect_touches_own_record_only :
  forall (sid : string) (s : Server),
    let s' := exec (disconnect sid) s in
    completion (disconnect sid) s = Normal tt /\
    pendingRequests s' = pendingRequests s /\
    timers s' = timers s /\
    promises s' = promises s /\
    settleCalls s' = settleCalls s /\
    responses s' = responses s /\
    match socket_deviceId sid s with
    | Some d =>
        if (d =? "")%string
        then devices s' = devices s /\ emitted s' = emitted s
        else JSMap.get d (devices s') = None /\
             (forall k, k <> d ->
                        JSMap.get k (devices s') = JSMap.get k (devices s)) /\
             emitted s'
             = emitted s
               ++ [IoEmit "devices"
                     (PDevices (map deviceInfo
                                  (JSMap.values (JSMap.delete d (devices s)))))]
    | None => devices s' = devices s /\ emitted s' = emitted s
    end.
Proof.
  intros sid s. unfold disconnect, transport_close, on_disconnect.
  run_handler. rewrite socket_deviceId_set_sockets_self. simpl.
  unfold truthy, str_or. destruct (socket_deviceId sid s) as [d|]; simpl.
  - destruct (d =? "")%string; simpl.
    + repeat split; reflexivity.
    + split; [reflexivity|]. split; [reflexivity|]. split; [reflexivity|].
      split; [reflexivity|]. split; [reflexivity|]. split; [reflexivity|].
      split; [apply JSMapFacts.get_delete_eq|].
      split; [|reflexivity].
      intros k Hk. now apply JSMapFacts.get_delete_neq.
  - repeat split; reflexivity.
Qed.

(* ================================================================== *)
(** ** Download: a file name no header can carry *)
(* ================================================================== *)

(** X30.  A download for a registered device with a socket, with a file
    name that holds a character Node refuses in a header value: setting
    [Content-Disposition] throws, and the [catch] of the endpoint answers
    500 with the message of the error (or does nothing when the headers
    were already sent).  No header is set, no entry and no timer are
    created and nothing is sent to the device. *)
Theorem download_refuses_file_name :
  forall (res : nat) (d handle path name random : string) (device : Device.t)
         (now : Z) (s : Server),
    d <> "" ->
    path <> "" ->
    JSMap.get d (devices s) = Some device ->
    Device.socketId device = Some handle ->
    handle <> "" ->
    name <> "" ->
    header_value_ok name = false ->
    let s' := exec (download res (Some d) (Some path) (Some name) now random) s in
    completion (download res (Some d) (Some path) (Some name) now random) s
    = Normal tt /\
    nothing_allocated s s' /\
    Res.headers (res_get res s') = Res.headers (res_get res s) /\
    Res.body (res_get res s') = Res.body (res_get res s) /\
    (if Res.headersSent (res_get res s)
     then s' = s
     else Res.statusCode (res_get res s') = 500 /\
          Res.json (res_get res s')
          = Some (ReplyError ("Invalid character in header content ["
                              ++ dquote ++ "Content-Disposition" ++ dquote
                              ++ "]")%string) /\
          Res.ended (res_get res s') = S (Res.ended (res_get res s))).
Proof.
  intros res d handle path name random device now s Hd Hp Hget Hsock Hh Hn Hbad.
  cbv zeta. unfold download.
  rewrite (truthy_Some_nonempty Hd), (truthy_Some_nonempty Hp),
    (str_or_Some_nonempty _ Hd), (str_or_Some_nonempty _ Hp).
  cbn [negb orb]. unfold exec, completion. rewrite !bind_get_state, Hget, Hsock.
  rewrite (truthy_Some_nonempty Hh). cbn [negb].
  unfold catch.
  match goal with |- context [bind (res_setHeader res ?h ?v) ?k s] =>
    destruct (@res_setHeader_refused unit res h v k s) as (message & Hrun & Hmsg)
  end.
  { now rewrite content_disposition_ok, (str_or_Some_nonempty _ Hn). }
  rewrite !Hrun. run_handler.
  destruct (Res.headersSent (res_get res s)) eqn:Hsent; simpl.
  - split; [reflexivity|]. split; [repeat split; reflexivity|].
    split; [reflexivity|]. split; reflexivity.
  - rewrite (Hmsg eq_refl). res_simpl. simpl. res_simpl. simpl.
    split; [reflexivity|]. split; [repeat split; reflexivity|].
    repeat split; reflexivity.
Qed.

Lemma download_refuses_file_name_witness :
  let name := String "a" (String (ascii_of_nat 10) "b") in
  let s' := exec (download 7 (Some "dev-1") (Some "/sdcard/video.mp4") (Some name)
                    Scenario.t0 "k3x9q2m1z") Scenario.registered in
  Res.statusCode (res_get 7 s') = 500 /\
  pendingRequests s' = pendingRequests Scenario.registered /\
  emitted s' = emitted Scenario.registered.
Proof.
  assert (Hd : "dev-1" <> "") by discriminate.
  assert (Hp : "/sdcard/video.mp4" <> "") by discriminate.
  assert (Hh : "sock-A" <> "") by discriminate.
  assert (Hn : String "a" (String (ascii_of_nat 10) "b") <> "") by discriminate.
  pose proof (@download_refuses_file_name 7 "dev-1" "sock-A" "/sdcard/video.mp4"
                (String "a" (String (ascii_of_nat 10) "b")) "k3x9q2m1z"
                (registered_device "sock-A" "dev-1" Scenario.pixel Scenario.t0)
                Scenario.t0 Scenario.registered
                Hd Hp eq_refl eq_refl Hh Hn eq_refl) as H.
  cbv zeta in H.
  destruct H as (_ & (_ & Hpend & _ & _ & _ & _ & _ & Hem) & _ & _ & Hrest).
  change (Res.headersSent (res_get 7 Scenario.registered)) with false in Hrest.
  destruct Hrest as (Hst & _).
  cbv zeta. split; [exact Hst|]. split; [exact Hpend | exact Hem].
Defined.
